(** * Circuit-Optimization: the MILP encoder and the solution decoder

    A shallow embedding of [circuit_optimization.py]:
    - [make_circuit_lp] builds Muroga's 0/1 program for a truth string and
      a sequence of gate tags;
    - [solve_circuit_lp] normalises the file name, has the model written,
      runs the solver and scrapes its log;
    - [print_connections] prints the connections it is given.

    Python lists are Rocq lists read with [nth_error] (an index out of
    range raises [IndexError]); the exceptions of the builtins are the
    constructors of [exn]; the linear expressions of python-mip are lists
    of weighted variables with a constant, read through [eval]. *)

From Stdlib Require Import ZArith List String Ascii Bool Arith Lia.
From Stdlib Require Import DecimalString DecimalNat.
Import ListNotations.

Local Open Scope string_scope.
Local Open Scope list_scope.
Local Open Scope Z_scope.

(** ** Exceptions and the error monad *)

Inductive exn : Type :=
| OverflowError      (* int(-inf) *)
| ValueError         (* int() of a string that is no integer literal *)
| IndexError         (* list or array index out of range *)
| NameError          (* a loop variable read before any loop bound it *)
| FileNotFoundError. (* open() of a missing file *)

Inductive result (A : Type) : Type :=
| Ok (a : A)
| Raise (e : exn).
Arguments Ok {A} a.
Arguments Raise {A} e.

Definition bind {A B : Type} (m : result A) (f : A -> result B) : result B :=
  match m with
  | Ok a => f a
  | Raise e => Raise e
  end.

Notation "x <- m ;; k" := (bind m (fun x => k))
  (at level 61, m at next level, right associativity).

Definition of_option {A : Type} (e : exn) (o : option A) : result A :=
  match o with
  | Some a => Ok a
  | None => Raise e
  end.

(** [[f(x) for x in l]], stopping at the first exception. *)
Fixpoint mapM {A B : Type} (f : A -> result B) (l : list A) : result (list B) :=
  match l with
  | [] => Ok []
  | x :: l' => y <- f x ;; ys <- mapM f l' ;; Ok (y :: ys)
  end.

(** A statement run on a mutable object: it ends normally with a value, or
    an exception leaves it; either way the object stays as it was made. *)
Inductive outcome (A S : Type) : Type :=
| Done (a : A) (s : S)
| Failed (e : exn) (s : S).
Arguments Done {A S} a s.
Arguments Failed {A S} e s.

Notation "'get' x <- m 'or_fail' s ;; k" :=
  (match m with
   | Ok x => k
   | Raise e => Failed e s
   end)
  (at level 61, x name, m at next level, s at next level, right associativity).

(** [for x in l: body(x)] on the state [s], stopping at the first
    exception. *)
Fixpoint forM {A S : Type} (l : list A) (body : A -> S -> outcome unit S)
  (s : S) : outcome unit S :=
  match l with
  | [] => Done tt s
  | x :: l' =>
      match body x s with
      | Done _ s' => forM l' body s'
      | Failed e s' => Failed e s'
      end
  end.

(** ** Python builtins used by the source *)

(** [range(a, b)] *)
Definition range (a b : nat) : list nat := seq a (b - a).

(** [l[i]] for [i >= 0]. *)
Definition index {A : Type} (l : list A) (i : nat) : result A :=
  of_option IndexError (nth_error l i).

(** [s.split(sep)] with an explicit one-character separator: every
    occurrence splits, empty pieces are kept, the result is never empty. *)
Fixpoint split (sep : ascii) (s : string) : list string :=
  match s with
  | EmptyString => [EmptyString]
  | String c s' =>
      if Ascii.eqb c sep then EmptyString :: split sep s'
      else match split sep s' with
           | w :: ws => String c w :: ws
           | [] => [String c EmptyString]
           end
  end.

(** Whitespace that [int()] strips, among the characters below 256:
    TAB..CR, the space, NEL (133) and the no-break space (160).  The
    separators FS..US (28..31) are not stripped. *)
Definition is_space (c : ascii) : bool :=
  let m := nat_of_ascii c in
  (((9 <=? m) && (m <=? 13)) || (m =? 32) || (m =? 133) || (m =? 160))%nat.

Definition digit_val (c : ascii) : option Z :=
  let m := nat_of_ascii c in
  if ((48 <=? m) && (m <=? 57))%nat then Some (Z.of_nat (m - 48)) else None.

Fixpoint lstrip (s : string) : string :=
  match s with
  | String c s' => if is_space c then lstrip s' else s
  | EmptyString => EmptyString
  end.

Fixpoint rstrip (s : string) : string :=
  match s with
  | String c s' =>
      match rstrip s' with
      | EmptyString => if is_space c then EmptyString else String c EmptyString
      | t => String c t
      end
  | EmptyString => EmptyString
  end.

(** Decimal digits with single underscores between them. *)
Fixpoint int_digits (s : string) (acc : Z) (after_digit : bool) : option Z :=
  match s with
  | EmptyString => if after_digit then Some acc else None
  | String c s' =>
      match digit_val c with
      | Some d => int_digits s' (10 * acc + d) true
      | None =>
          if Ascii.eqb c "_" && after_digit then int_digits s' acc false
          else None
      end
  end.

(** [int(s)] for a string [s] of characters below 256: whitespace around,
    an optional sign, decimal digits. *)
Definition py_int (s : string) : result Z :=
  of_option ValueError
    match lstrip (rstrip s) with
    | String "+" t => int_digits t 0 false
    | String "-" t => option_map Z.opp (int_digits t 0 false)
    | t => int_digits t 0 false
    end.

(** [int(np.log2(len))]: [log2(0)] is [-inf], whose conversion overflows;
    otherwise the floor of the binary logarithm (exact for the lengths a
    truth string can have in memory). *)
Definition int_log2 (len : nat) : result nat :=
  match len with
  | O => Raise OverflowError
  | _ => Ok (Nat.log2 len)
  end.

(** [itertools.product([0,1], repeat=n)]: the last position moves fastest. *)
Fixpoint product01 (n : nat) : list (list Z) :=
  match n with
  | O => [[]]
  | S n' => flat_map (fun b => map (cons b) (product01 n')) [0; 1]
  end.

(** [itertools.product(l1, l2)] *)
Definition product {A B : Type} (l1 : list A) (l2 : list B) : list (A * B) :=
  flat_map (fun x => map (pair x) l2) l1.

(** [np.fliplr] *)
Definition fliplr (t : list (list Z)) : list (list Z) := map (@rev Z) t.

(** [t[j, e]] on a two-dimensional array *)
Definition index2 {A : Type} (t : list (list A)) (j e : nat) : result A :=
  row <- index t j ;; index row e.

(** [l[-m]] for [m >= 1]. *)
Definition index_back {A : Type} (l : list A) (m : nat) : result A :=
  if (m <=? List.length l)%nat then index l (List.length l - m)
  else Raise IndexError.

(** [s[-3:]] and [s[:-3]] *)
Definition last3 (s : string) : string :=
  substring (String.length s - 3) 3 s.
Definition drop_last3 (s : string) : string :=
  substring 0 (String.length s - 3) s.

(** [enumerate(l)] *)
Definition enumerate {A : Type} (l : list A) : list (nat * A) :=
  combine (seq 0 (List.length l)) l.

(** The value a [for] variable holds after [for k in l]: the last element,
    or what it held before when [l] is empty. *)
Definition after_for (l : list nat) (k : option nat) : option nat :=
  match rev l with
  | x :: _ => Some x
  | [] => k
  end.

(** ** The model: variables, linear expressions, constraints *)

(** The binary decision variables, by family and indices; [var_name] is
    the name [add_var] is given. *)
Inductive var : Type :=
| Var_u (el k : nat)     (* u.el.k : external input el feeds gate k *)
| Var_v (i k : nat)      (* v.i.k  : gate i feeds gate k *)
| Var_p (k j : nat)      (* p.k.j  : output of gate k on row j *)
| Var_r (i k j : nat).   (* r.i.k.j : v.i.k * p.i.j *)

Definition str_nat (m : nat) : string := NilEmpty.string_of_uint (Nat.to_uint m).

Definition var_name (x : var) : string :=
  match x with
  | Var_u el k => "u." ++ str_nat el ++ "." ++ str_nat k
  | Var_v i k => "v." ++ str_nat i ++ "." ++ str_nat k
  | Var_p k j => "p." ++ str_nat k ++ "." ++ str_nat j
  | Var_r i k j => "r." ++ str_nat i ++ "." ++ str_nat k ++ "." ++ str_nat j
  end%string.

(** python-mip's [LinExpr]: weighted variables and a constant.  (The
    library keeps the weights in a dictionary in insertion order; the
    expressions built here never add the same variable twice, so a list in
    that order has the same entries.) *)
Record LinExpr : Type := mkLin { terms : list (Z * var); const : Z }.

Definition le_const (c : Z) : LinExpr := mkLin [] c.
Definition le_var (x : var) : LinExpr := mkLin [(1, x)] 0.
(** [c * x] for a number [c] and a variable [x]: the expression is made of
    the pair, and a zero weight is left out of a new expression. *)
Definition le_term (c : Z) (x : var) : LinExpr :=
  mkLin (if c =? 0 then [] else [(c, x)]) 0.
(** [c * e] for a number [c] and an expression [e]: every weight is
    multiplied, no term goes away. *)
Definition le_scale (c : Z) (e : LinExpr) : LinExpr :=
  mkLin (map (fun t => (c * fst t, snd t)) (terms e)) (c * const e).
Definition le_neg (e : LinExpr) : LinExpr := le_scale (-1) e.
Definition le_add (e1 e2 : LinExpr) : LinExpr :=
  mkLin (terms e1 ++ terms e2) (const e1 + const e2).
Definition le_sub (e1 e2 : LinExpr) : LinExpr := le_add e1 (le_neg e2).

(** [xsum(items)] *)
Definition xsum (items : list LinExpr) : LinExpr :=
  fold_left le_add items (le_const 0).

Inductive sense : Type := GE | LE.

(** [lhs >= rhs] and [lhs <= rhs] build the expression [lhs - rhs] with a
    sense, to be compared with zero. *)
Record Constr : Type := mkConstr { expr : LinExpr; csense : sense }.

Definition ge (lhs rhs : LinExpr) : Constr := mkConstr (le_sub lhs rhs) GE.
Definition le (lhs rhs : LinExpr) : Constr := mkConstr (le_sub lhs rhs) LE.

Record Model : Type := mkModel {
  vars : list var;            (* every one added as BINARY *)
  objective : LinExpr;        (* sense MINIMIZE *)
  constrs : list Constr
}.

Definition add_vars (xs : list var) (M : Model) : Model :=
  mkModel (vars M ++ xs) (objective M) (constrs M).
Definition set_objective (e : LinExpr) (M : Model) : Model :=
  mkModel (vars M) e (constrs M).
(** [M += c] *)
Definition add_constr (c : Constr) (M : Model) : Model :=
  mkModel (vars M) (objective M) (constrs M ++ [c]).

(** *** Meaning of a model *)

Definition assignment : Type := var -> Z.

Definition eval (a : assignment) (e : LinExpr) : Z :=
  fold_right (fun t acc => fst t * a (snd t) + acc) (const e) (terms e).

Definition holdsb (a : assignment) (c : Constr) : bool :=
  match csense c with
  | GE => 0 <=? eval a (expr c)
  | LE => eval a (expr c) <=? 0
  end.

Definition holds (a : assignment) (c : Constr) : Prop := holdsb a c = true.

Definition binary (a : assignment) : Prop := forall x, a x = 0 \/ a x = 1.

Definition feasible (a : assignment) (M : Model) : Prop :=
  (forall x, In x (vars M) -> a x = 0 \/ a x = 1) /\
  (forall c, In c (constrs M) -> holds a c).

(** ** [make_circuit_lp] *)

(** [0 if i == 'NOT' else -1] *)
Definition marker (tag : string) : Z := if String.eqb tag "NOT" then 0 else -1.

(** What the constraint loops work on: the model under construction and
    the loop variable [k], which the final-gate loop reads after the loop
    that bound it has ended. *)
Record LoopState : Type := mkState { model : Model; k_var : option nat }.

Definition set_k (k : nat) (s : LoopState) : LoopState :=
  mkState (model s) (Some k).
(** [M += c] *)
Definition emit (c : Constr) (s : LoopState) : LoopState :=
  mkState (add_constr c (model s)) (k_var s).

Section Builder.

Variables (n R : nat) (A : Z).
Variable table : list (list Z).
Variable gates : list Z.
Variable U : list (list var).
Variable V : list (list var).
Variable P : list (list var).
Variable r : list (list (list var)).

(** [xsum(table[j,el-1]*U[el-1][k] for el in range(1,n+1))], with [j] and
    [k] already 0-based. *)
Definition ext_sum (j k : nat) : result LinExpr :=
  items <- mapM (fun el => t <- index2 table j (el - 1) ;;
                           x <- index2 U (el - 1) k ;;
                           Ok (le_term t x))
                (range 1 (n + 1)) ;;
  Ok (xsum items).

(** [xsum(r[k][i-1][j] for i in range(1,hi))], with [j] and [k] 0-based. *)
Definition int_sum (k j hi : nat) : result LinExpr :=
  items <- mapM (fun i => rk <- index r k ;;
                          x <- index2 rk (i - 1) j ;;
                          Ok (le_var x))
                (range 1 hi) ;;
  Ok (xsum items).

(** Body of [for k, j in product(range(1,R), range(1,2**n+1))]. *)
Definition gate_body (kj : nat * nat) (s : LoopState)
  : outcome unit LoopState :=
  let k := fst kj in
  let j := snd kj in
  let s := set_k k s in
  get e1 <- ext_sum (j - 1) (k - 1) or_fail s ;;
  get e2 <- int_sum (k - 1) (j - 1) k or_fail s ;;
  let con := le_add (le_add (le_const 0) (le_neg e1)) (le_neg e2) in
  get g <- index gates (k - 1) or_fail s ;;
  get x <- index2 P (k - 1) (j - 1) or_fail s ;;
  let s := emit (ge con (le_sub (le_const g)
                           (le_scale A (le_sub (le_const 1) (le_var x))))) s in
  get e1' <- ext_sum (j - 1) (k - 1) or_fail s ;;
  get e2' <- int_sum (k - 1) (j - 1) k or_fail s ;;
  let con' := le_add (le_add (le_const 0) e1') e2' in
  get g' <- index gates (k - 1) or_fail s ;;
  get x' <- index2 P (k - 1) (j - 1) or_fail s ;;
  Done tt (emit (ge con' (le_sub (le_const (1 - g'))
                            (le_term A x'))) s).

(** Body of [for j, val in enumerate(truth)]; [gates[k-1]] reads the [k]
    left behind by the loops before it. *)
Definition final_body (jv : nat * Z) (s : LoopState)
  : outcome unit LoopState :=
  let j := fst jv in
  let val := snd jv in
  if val =? 1 then
    get e1 <- ext_sum j (R - 1) or_fail s ;;
    get e2 <- int_sum (R - 1) j R or_fail s ;;
    let con := le_add (le_add (le_const 0) (le_neg e1)) (le_neg e2) in
    get k <- of_option NameError (k_var s) or_fail s ;;
    get g <- index gates (k - 1) or_fail s ;;
    Done tt (emit (ge con (le_const g)) s)
  else
    get e1 <- ext_sum j (R - 1) or_fail s ;;
    get e2 <- int_sum (R - 1) j R or_fail s ;;
    let con := le_add (le_add (le_const 0) e1) e2 in
    get k <- of_option NameError (k_var s) or_fail s ;;
    get g <- index gates (k - 1) or_fail s ;;
    Done tt (emit (ge con (le_const (1 - g))) s).

(** Body of [for i in range(1,k)] inside
    [for k, j in product(range(2,R+1), range(1,2**n+1))]. *)
Definition and_inner (k j i : nat) (s : LoopState) : outcome unit LoopState :=
  get x <- index2 P (i - 1) (j - 1) or_fail s ;;
  get y <- index2 V (k - 1) (i - 1) or_fail s ;;
  get rk <- index r (k - 1) or_fail s ;;
  get z <- index2 rk (i - 1) (j - 1) or_fail s ;;
  let s := emit (le (le_sub (le_add (le_var x) (le_var y)) (le_var z))
                    (le_const 1)) s in
  get x' <- index2 P (i - 1) (j - 1) or_fail s ;;
  get y' <- index2 V (k - 1) (i - 1) or_fail s ;;
  get rk' <- index r (k - 1) or_fail s ;;
  get z' <- index2 rk' (i - 1) (j - 1) or_fail s ;;
  Done tt (emit (ge (le_sub (le_add (le_var x') (le_var y'))
                            (le_term 2 z'))
                    (le_const 0)) s).

Definition and_body (kj : nat * nat) (s : LoopState)
  : outcome unit LoopState :=
  let k := fst kj in
  let j := snd kj in
  forM (range 1 k) (and_inner k j) (set_k k s).

(** Body of the last [for k in range(1,R+1)]. *)
Definition fanin_body (k : nat) (s : LoopState) : outcome unit LoopState :=
  let s := set_k k s in
  get us <- mapM (fun el => x <- index2 U (el - 1) (k - 1) ;; Ok (le_var x))
                 (range 1 (n + 1)) or_fail s ;;
  get vs <- mapM (fun i => x <- index2 V (k - 1) (i - 1) ;; Ok (le_var x))
                 (range 1 k) or_fail s ;;
  let con := le_add (le_add (le_const 0) (xsum us)) (xsum vs) in
  get g <- index gates (k - 1) or_fail s ;;
  Done tt (emit (le con (le_const (1 - g))) s).

End Builder.

(** The four index families, as the allocation loops fill them. *)
Definition alloc_U (n R : nat) : list (list var) :=
  map (fun el => map (fun k => Var_u el k) (range 1 (R + 1))) (range 1 (n + 1)).
Definition alloc_V (R : nat) : list (list var) :=
  map (fun k => map (fun i => Var_v i k) (range 1 k)) (range 1 (R + 1)).
Definition alloc_P (n R : nat) : list (list var) :=
  map (fun k => map (fun j => Var_p k j) (range 1 (2 ^ n + 1))) (range 1 R).
Definition alloc_r (n R : nat) : list (list (list var)) :=
  map (fun k => map (fun i => map (fun j => Var_r i k j) (range 1 (2 ^ n + 1)))
                    (range 1 k))
      (range 1 (R + 1)).

(** [k] after the four allocation loops (the generators of the objective
    have a scope of their own and leave it alone). *)
Definition k_after_alloc (n R : nat) : option nat :=
  let k1 := fold_left (fun k _ => after_for (range 1 (R + 1)) k)
                      (range 1 (n + 1)) None in
  let k2 := after_for (range 1 (R + 1)) k1 in
  let k3 := after_for (range 1 R) k2 in
  after_for (range 1 (R + 1)) k3.

Definition empty_model : Model := mkModel [] (le_const 0) [].

(** Everything up to the constraint loops: the variables are added and the
    objective is set. *)
Definition allocate (n R : nat) : Model :=
  let U := alloc_U n R in
  let V := alloc_V R in
  let P := alloc_P n R in
  let r := alloc_r n R in
  let M := add_vars (List.concat (List.concat r))
             (add_vars (List.concat P)
                (add_vars (List.concat V)
                   (add_vars (List.concat U) empty_model))) in
  let Uobj := xsum (map (fun el => xsum (map le_var el)) U) in
  let Vobj := xsum (map (fun k => xsum (map le_var k)) V) in
  set_objective (le_add Uobj Vobj) M.

(** The four constraint loops, in the order of the source. *)
Definition constrain (n R : nat) (truth gates : list Z) (s : LoopState)
  : outcome unit LoopState :=
  let A := Z.of_nat n + Z.of_nat R in
  let table := fliplr (product01 n) in
  let U := alloc_U n R in
  let V := alloc_V R in
  let P := alloc_P n R in
  let r := alloc_r n R in
  match forM (product (range 1 R) (range 1 (2 ^ n + 1)))
             (gate_body n A table gates U P r) s with
  | Failed e s => Failed e s
  | Done _ s =>
  match forM (enumerate truth) (final_body n R table gates U r) s with
  | Failed e s => Failed e s
  | Done _ s =>
  match forM (product (range 2 (R + 1)) (range 1 (2 ^ n + 1)))
             (and_body V P r) s with
  | Failed e s => Failed e s
  | Done _ s => forM (range 1 (R + 1)) (fanin_body n gates U V) s
  end end end.

Definition lp_path (filename : option string) : string :=
  match filename with
  | Some f => (f ++ ".lp")%string
  | None => "circuit.lp"
  end.

(** The function returns nothing.  [Done path M]: the model [M] was built
    and written to [path].  [Failed e M]: the exception [e] left the
    function when the model object had grown to [M]; nothing was written. *)
Definition make_circuit_lp (truth gates : string) (filename : option string)
  : outcome string Model :=
  let M := empty_model in
  get n <- int_log2 (String.length truth) or_fail M ;;
  get truth <- mapM (fun c => py_int (String c EmptyString))
                    (list_ascii_of_string truth) or_fail M ;;
  let gates := map marker (split " " gates) in
  let R := List.length gates in
  let M := allocate n R in
  match constrain n R truth gates (mkState M (k_after_alloc n R)) with
  | Failed e s => Failed e (model s)
  | Done _ s => Done (lp_path filename) (model s)
  end.

(** ** [solve_circuit_lp] *)

(** What the function does to the world outside, in order. *)
Inductive effect : Type :=
| Write_lp (path : string) (M : Model)   (* M.write(path) *)
| Path_exists (path : string)            (* os.path.exists(path) *)
| System (cmd : string)                  (* os.system(cmd) *)
| Open_read (path : string).             (* open(path) *)

Definition TAB : ascii := ascii_of_nat 9.
Definition NL : ascii := ascii_of_nat 10.

(** The token ['\t(obj:1)\n'] *)
Definition obj1 : string :=
  String TAB ("(obj:1)" ++ String NL EmptyString)%string.

(** ['\t(obj:1)\n' in line.split(' ')] *)
Definition annotated (line : string) : bool :=
  existsb (String.eqb obj1) (split " " line).

(** [(line[0], int(line[-2]))] *)
Definition entry (line : list string) : result (string * Z) :=
  name <- index line 0 ;;
  field <- index_back line 2 ;;
  value <- py_int field ;;
  Ok (name, value).

(** The loop over the lines of the log. *)
Fixpoint decode (lines : list string) (connect : list (string * Z))
  : result (list (string * Z)) :=
  match lines with
  | [] => Ok connect
  | line :: rest =>
      let line := split " " line in
      if existsb (String.eqb obj1) line then
        e <- entry line ;; decode rest (connect ++ [e])
      else decode rest connect
  end.

Definition normalize (filename : option string) : string :=
  let filename := match filename with
                  | None => "circuit"
                  | Some f => f
                  end in
  if String.eqb (last3 filename) ".lp" then drop_last3 filename else filename.

Definition scip_cmd (verbose : bool) (filename : string) : string :=
  (if verbose then "./scip -f " ++ filename ++ ".lp -l " ++ filename ++ ".log"
   else "./scip -q -f " ++ filename ++ ".lp -l " ++ filename ++ ".log")%string.

Section Solve.

(** The world: what [os.path.exists] answers and what [open] finds, after
    the effects so far ([None]: the file cannot be opened). *)
Variable path_exists : list effect -> string -> bool.
Variable read_lines : list effect -> string -> option (list string).

(** The effects performed, and the value returned or the exception that
    leaves the function. *)
Definition solve_circuit_lp (truth gates : string) (filename : option string)
  (verbose delete_lp delete_log : bool)
  : list effect * result (list (string * Z)) :=
  let filename := normalize filename in
  match make_circuit_lp truth gates (Some filename) with
  | Failed e _ => ([], Raise e)
  | Done path M =>
      let tr := [Write_lp path M] in
      let found := path_exists tr (filename ++ ".log")%string in
      let tr := tr ++ [Path_exists (filename ++ ".log")%string] in
      let tr := if found
                then tr ++ [System ("rm " ++ filename ++ ".log")%string]
                else tr in
      let tr := tr ++ [System (scip_cmd verbose filename)] in
      let log := read_lines tr (filename ++ ".log")%string in
      let tr := tr ++ [Open_read (filename ++ ".log")%string] in
      match log with
      | None => (tr, Raise FileNotFoundError)
      | Some lines =>
          match decode lines [] with
          | Raise e => (tr, Raise e)
          | Ok connect =>
              let tr := if delete_lp
                        then tr ++ [System ("rm " ++ filename ++ ".lp")%string]
                        else tr in
              let tr := if delete_log
                        then tr ++ [System ("rm " ++ filename ++ ".log")%string]
                        else tr in
              (tr, Ok connect)
          end
      end
  end.

End Solve.

(** ** [print_connections] *)

(** One turn of the loop on the lines printed so far:
    [v, n, m = item.split('.')] raises [ValueError] unless there are three
    pieces; then a line is printed for [u] and for [v], none otherwise. *)
Definition print_item (c : string * Z) (out : list string)
  : outcome unit (list string) :=
  match split "." (fst c) with
  | [v; n; m] =>
      if String.eqb v "u"
      then Done tt (out ++ [("Input" ++ String TAB (" " ++ n ++
                              " connects to gate " ++ m))%string])
      else if String.eqb v "v"
      then Done tt (out ++ [("Gate" ++ String TAB (" " ++ n ++
                              " connects to gate " ++ m))%string])
      else Done tt out
  | _ => Failed ValueError out
  end.

(** The lines printed, and whether the loop came to its end. *)
Definition print_connections (connections : list (string * Z))
  : outcome unit (list string) :=
  forM connections print_item [].

(** * Definitions for the statements

    Closed forms of what the loops build, the reading of a constraint
    under an assignment, and the predicates the statements use. *)

(** Bit [e] of the row number [j], both counted from 0. *)
Definition tbl (j e : nat) : Z := if Nat.testbit j e then 1 else 0.

Definition row_bits (n j : nat) : list Z := map (tbl j) (seq 0 n).

(** Row [k] of [r]: one list of [r.i.k.j] per earlier gate [i]. *)
Definition r_row (n k : nat) : list (list var) :=
  map (fun i => map (fun j => Var_r i k j) (range 1 (2 ^ n + 1))) (range 1 k).

(** The marker of gate [k], counted from 1. *)
Definition marker_of (gates : list Z) (k : nat) : Z := nth (k - 1) gates 0.

Definition sumZ (l : list Z) : Z := fold_right Z.add 0 l.

(** The state after the constraints [cs] were added and [k] was set. *)
Definition push (cs : list Constr) (k : option nat) (s : LoopState)
  : LoopState :=
  mkState (mkModel (vars (model s)) (objective (model s))
                   (constrs (model s) ++ cs)) k.

(** ** The constraints in closed form

    The constraints the loops emit, with every list access resolved: rows
    [j], gates [k] and inputs [el] are counted from 1, as in the names of
    the variables. *)

Section ClosedForms.

Variables (n R : nat) (gates : list Z).

Definition ext_expr (j k : nat) : LinExpr :=
  xsum (map (fun el => le_term (tbl (j - 1) (el - 1)) (Var_u el k))
            (seq 1 n)).

Definition int_expr (k j : nat) : LinExpr :=
  xsum (map (fun i => le_var (Var_r i k j)) (seq 1 (k - 1))).

Definition input_expr (k j : nat) : LinExpr :=
  le_add (le_add (le_const 0) (ext_expr j k)) (int_expr k j).

Definition neg_input_expr (k j : nat) : LinExpr :=
  le_add (le_add (le_const 0) (le_neg (ext_expr j k))) (le_neg (int_expr k j)).

Definition big_A : Z := Z.of_nat n + Z.of_nat R.

Definition gate_on (k j : nat) : Constr :=
  ge (neg_input_expr k j)
     (le_sub (le_const (marker_of gates k))
             (le_scale big_A (le_sub (le_const 1) (le_var (Var_p k j))))).

Definition gate_off (k j : nat) : Constr :=
  ge (input_expr k j)
     (le_sub (le_const (1 - marker_of gates k))
             (le_term big_A (Var_p k j))).

Definition gate_constrs : list Constr :=
  flat_map (fun kj => [gate_on (fst kj) (snd kj); gate_off (fst kj) (snd kj)])
           (product (seq 1 (R - 1)) (seq 1 (2 ^ n))).

(** The gate whose marker the final-gate loop reads: the [k] the gate
    loop ended on, or the one the allocation loops left when the gate
    loop had nothing to do. *)
Definition stale_k : nat := if (2 <=? R)%nat then (R - 1)%nat else R.

Definition final_constr (j : nat) (val : Z) : Constr :=
  if val =? 1
  then ge (neg_input_expr R j) (le_const (marker_of gates stale_k))
  else ge (input_expr R j) (le_const (1 - marker_of gates stale_k)).

Definition final_constrs (truth : list Z) : list Constr :=
  map (fun jv => final_constr (S (fst jv)) (snd jv)) (enumerate truth).

Definition and_up (i k j : nat) : Constr :=
  le (le_sub (le_add (le_var (Var_p i j)) (le_var (Var_v i k)))
             (le_var (Var_r i k j)))
     (le_const 1).

Definition and_down (i k j : nat) : Constr :=
  ge (le_sub (le_add (le_var (Var_p i j)) (le_var (Var_v i k)))
             (le_term 2 (Var_r i k j)))
     (le_const 0).

Definition and_constrs : list Constr :=
  flat_map (fun kj =>
              flat_map (fun i => [and_up i (fst kj) (snd kj);
                                  and_down i (fst kj) (snd kj)])
                       (seq 1 (fst kj - 1)))
           (product (seq 2 (R - 1)) (seq 1 (2 ^ n))).

Definition fanin_constr (k : nat) : Constr :=
  le (le_add (le_add (le_const 0)
                     (xsum (map (fun el => le_var (Var_u el k)) (seq 1 n))))
             (xsum (map (fun i => le_var (Var_v i k)) (seq 1 (k - 1)))))
     (le_const (1 - marker_of gates k)).

Definition fanin_constrs : list Constr := map fanin_constr (seq 1 R).

End ClosedForms.

(** All the constraints of the model, in the order they are added. *)
Definition all_constrs (n R : nat) (gates truth : list Z) : list Constr :=
  gate_constrs n R gates ++ final_constrs n R gates truth ++
  and_constrs n R ++ fanin_constrs n R gates.

Definition is_bit (c : ascii) : bool := Ascii.eqb c "0" || Ascii.eqb c "1".

(** A truth string: only the characters 0 and 1. *)
Definition bit_string (s : string) : bool :=
  forallb is_bit (list_ascii_of_string s).

Definition bit_val (c : ascii) : Z := if Ascii.eqb c "1" then 1 else 0.

(** The truth values of a truth string. *)
Definition truth_bits (s : string) : list Z :=
  map bit_val (list_ascii_of_string s).

(** The markers of a gate string. *)
Definition gate_markers (gates : string) : list Z :=
  map marker (split " " gates).

(** The model of a truth table on [n] inputs, in closed form. *)
Definition circuit_model (n : nat) (truth gates : list Z) : Model :=
  let R := List.length gates in
  mkModel (vars (allocate n R)) (objective (allocate n R))
          (all_constrs n R gates truth).

(** [Sum_e table[j][e]*u[e][k] + Sum_{i<k} r[i][k][j]]: how many of the
    inputs connected to gate [k] are 1 on row [j]. *)
Definition input_val (n : nat) (a : assignment) (k j : nat) : Z :=
  sumZ (map (fun el => tbl (j - 1) (el - 1) * a (Var_u el k)) (seq 1 n)) +
  sumZ (map (fun i => a (Var_r i k j)) (seq 1 (k - 1))).

(** [Sum_e u[e][k] + Sum_{i<k} v[i][k]]: the connections into gate [k]. *)
Definition fan_in (n : nat) (a : assignment) (k : nat) : Z :=
  sumZ (map (fun el => a (Var_u el k)) (seq 1 n)) +
  sumZ (map (fun i => a (Var_v i k)) (seq 1 (k - 1))).

Definition var_eqb (x y : var) : bool :=
  match x, y with
  | Var_u a b, Var_u a' b' => ((a =? a') && (b =? b'))%nat
  | Var_v a b, Var_v a' b' => ((a =? a') && (b =? b'))%nat
  | Var_p a b, Var_p a' b' => ((a =? a') && (b =? b'))%nat
  | Var_r a b c, Var_r a' b' c' => ((a =? a') && (b =? b') && (c =? c'))%nat
  | _, _ => false
  end.

Definition lvars (e : LinExpr) : list var := map snd (terms e).
Definition cvars (c : Constr) : list var := lvars (expr c).

(** [x] occurs in [c]. *)
Definition mentions (x : var) (c : Constr) : bool :=
  existsb (var_eqb x) (cvars c).

(** [x] occurs in [c] with the weight [w] or [-w]. *)
Definition carries (x : var) (w : Z) (c : Constr) : bool :=
  existsb (fun t => var_eqb x (snd t) && (Z.abs (fst t) =? w)) (terms (expr c)).

(** The variables of the weighted input sum of gate [k] on row [j]: the
    [u.el.k] of the inputs [el] that are 1 on the row (the others have
    the weight 0 and leave no term), then the [r.i.k.j] of the earlier
    gates. *)
Definition input_vars (n k j : nat) : list var :=
  map (fun el => Var_u el k)
      (filter (fun el => tbl (j - 1) (el - 1) =? 1) (seq 1 n)) ++
  map (fun i => Var_r i k j) (seq 1 (k - 1)).

Definition ties (i k j : nat) (c : Constr) : bool :=
  mentions (Var_r i k j) c && mentions (Var_v i k) c.

(** What a gate puts out when [active] of its connected inputs are 1: a NOT
    gate (marker 0) gives 1 when none is, a NAND gate (marker -1) gives 1
    unless two are. *)
Definition gate_output (g active : Z) : Z :=
  if g =? 0 then (if active =? 0 then 1 else 0)
  else (if active <? 2 then 1 else 0).

(** A wiring for the truth string 01 and the gates NOT NAND: input 1 feeds
    the NOT gate, which alone feeds the NAND gate. *)
Definition not_then_nand : assignment :=
  fun x =>
    match x with
    | Var_u 1 1 => 1
    | Var_v 1 2 => 1
    | Var_p 1 1 => 1
    | Var_r 1 2 1 => 1
    | _ => 0
    end.

(** The model object when the final-gate loop gives up at row [2^n + 1]. *)
Definition stuck_model (n : nat) (truth gates : list Z) : Model :=
  let R := List.length gates in
  mkModel (vars (allocate n R)) (objective (allocate n R))
          (gate_constrs n R gates ++
           final_constrs n R gates (firstn (2 ^ n) truth)).

(** What an annotated line contributes. *)
Definition line_entry (line : string) : result (string * Z) :=
  entry (split " " line).

(** The tag of gate [k], counted from 1. *)
Definition gate_tag (gates : string) (k : nat) : string :=
  nth (k - 1) (split " " gates) EmptyString.

(** The paths and commands a run on the base name [base] may use. *)
Definition uses_base (base : string) (verbose : bool) (e : effect) : Prop :=
  match e with
  | Write_lp path _ => path = (base ++ ".lp")%string
  | Path_exists path => path = (base ++ ".log")%string
  | Open_read path => path = (base ++ ".log")%string
  | System cmd => cmd = ("rm " ++ base ++ ".log")%string \/
                  cmd = scip_cmd verbose base \/
                  cmd = ("rm " ++ base ++ ".lp")%string
  end.

(** The variables the allocation loops add: [u.el.k] for every input and
    gate, [v.i.k] and [r.i.k.j] only from an earlier gate [i < k], and
    [p.k.j] for every gate but the last. *)
Definition allocated (n R : nat) (x : var) : Prop :=
  match x with
  | Var_u el k => (1 <= el <= n)%nat /\ (1 <= k <= R)%nat
  | Var_v i k => (1 <= i < k)%nat /\ (k <= R)%nat
  | Var_p k j => (1 <= k <= R - 1)%nat /\ (1 <= j <= 2 ^ n)%nat
  | Var_r i k j => (1 <= i < k)%nat /\ (k <= R)%nat /\ (1 <= j <= 2 ^ n)%nat
  end.

(** The outputs of the gates [1..k] on row [j] of the circuit that the
    connection variables [u] and [v] of [a] describe: a gate is fed the
    inputs and the earlier gates connected to it, and what it puts out
    depends on how many of them are 1. *)
Fixpoint simulate (n : nat) (gates : list Z) (a : assignment) (j k : nat)
  : list Z :=
  match k with
  | O => []
  | S k' =>
      let outs := simulate n gates a j k' in
      outs ++
      [gate_output (marker_of gates (S k'))
         (sumZ (map (fun el => tbl (j - 1) (el - 1) * a (Var_u el (S k')))
                    (seq 1 n)) +
          sumZ (map (fun i => a (Var_v i (S k')) * nth (i - 1) outs 0)
                    (seq 1 k')))]
  end.

(** [feasible], as a test on the variables and constraints of the model. *)
Definition feasibleb (a : assignment) (M : Model) : bool :=
  forallb (fun x => (a x =? 0) || (a x =? 1)) (vars M) &&
  forallb (holdsb a) (constrs M).

Definition is_digit (c : ascii) : bool :=
  match digit_val c with
  | Some _ => true
  | None => false
  end.

(** A string of decimal digits. *)
Definition digit_string (s : string) : bool :=
  forallb is_digit (list_ascii_of_string s).

(** The values [int] gives the characters of a digit string. *)
Definition truth_digits (s : string) : list Z :=
  map (fun c => match digit_val c with Some d => d | None => 0 end)
      (list_ascii_of_string s).

(** The string with every character other than 1 replaced by 0. *)
Fixpoint as_bits (s : string) : string :=
  match s with
  | EmptyString => EmptyString
  | String c s' => String (if Ascii.eqb c "1" then "1" else "0")%char (as_bits s')
  end.

(** How many times the character [c] occurs in [s]. *)
Definition count_char (c : ascii) (s : string) : nat :=
  List.length (filter (fun x => Ascii.eqb x c) (list_ascii_of_string s)).

(** The character [c] does not occur in [s]. *)
Definition free_of (c : ascii) (s : string) : bool :=
  forallb (fun x => negb (Ascii.eqb x c)) (list_ascii_of_string s).

(** [k] spaces. *)
Fixpoint spaces (k : nat) : string :=
  match k with
  | O => EmptyString
  | S k' => String " " (spaces k')
  end.

(** A line that gives a variable and its value the way the solver prints
    them: the name, spaces, the value, a space and the token. *)
Definition solution_line (name value : string) (pad : nat) : string :=
  (name ++ String " " (spaces pad ++ value ++ String " " obj1))%string.

(** What [print_connections] prints for a connection named after [x]. *)
Definition connection_lines (x : var) : list string :=
  match x with
  | Var_u el k => [("Input" ++ String TAB (" " ++ str_nat el ++
                     " connects to gate " ++ str_nat k))%string]
  | Var_v i k => [("Gate" ++ String TAB (" " ++ str_nat i ++
                    " connects to gate " ++ str_nat k))%string]
  | _ => []
  end.

(** [x] is a connection variable or an output variable, whose names have
    three pieces. *)
Definition three_pieces (x : var) : bool :=
  match x with
  | Var_r _ _ _ => false
  | _ => true
  end.

(** A row of bits. *)
Definition bit_row (n : nat) (row : list Z) : Prop :=
  List.length row = n /\ Forall (fun b => b = 0 \/ b = 1) row.

(** What gate [k] puts out on row [j] in the circuit wired as [w] says. *)
Definition gate_out (n : nat) (gates : list Z) (w : assignment) (j k : nat) : Z :=
  nth (k - 1) (simulate n gates w j k) 0.

(** The assignment of a wiring: the connection variables as [w] has them,
    [p.k.j] the output of gate [k] on row [j], and [r.i.k.j] the output of
    gate [i] where it is connected to gate [k]. *)
Definition wiring_assignment (n : nat) (gates : list Z) (w : assignment)
  : assignment :=
  fun x =>
    match x with
    | Var_u el k => w (Var_u el k)
    | Var_v i k => w (Var_v i k)
    | Var_p k j => gate_out n gates w j k
    | Var_r i k j => w (Var_v i k) * gate_out n gates w j i
    end.

(** A wiring of the gates: every connection variable is 0 or 1, no gate has
    more connections than pins, and the last gate puts out the target bit
    on every row. *)
Definition computes (n : nat) (truth gates : list Z) (w : assignment) : bool :=
  let R := List.length gates in
  forallb (fun x => (w x =? 0) || (w x =? 1))
          (List.concat (alloc_U n R) ++ List.concat (alloc_V R)) &&
  forallb (fun k => fan_in n w k <=? 1 - marker_of gates k) (seq 1 R) &&
  forallb (fun j => gate_out n gates w j R =? nth (j - 1) truth 0)
          (seq 1 (2 ^ n)).

(** * Facts *)

(** ** Ranges, comprehensions and loops *)

Lemma range_succ (m : nat) : range 1 (m + 1) = seq 1 m.
Proof. unfold range. f_equal. lia. Qed.

Lemma range_below (k : nat) : range 1 k = seq 1 (k - 1).
Proof. reflexivity. Qed.

Lemma range_from_2 (m : nat) : range 2 (m + 1) = seq 2 (m - 1).
Proof. unfold range. f_equal. lia. Qed.

Lemma in_seq_1 (x m : nat) : In x (seq 1 m) <-> (1 <= x <= m)%nat.
Proof. rewrite in_seq. lia. Qed.

Lemma seq_add_map (a s len : nat) :
  seq (a + s) len = map (Nat.add a) (seq s len).
Proof.
  revert s. induction len as [|len IH]; intros s; simpl; [reflexivity|].
  f_equal. rewrite <- IH. f_equal. lia.
Qed.

Lemma mapM_ok {A B : Type} (f : A -> result B) (g : A -> B) (l : list A) :
  (forall x, In x l -> f x = Ok (g x)) -> mapM f l = Ok (map g l).
Proof.
  induction l as [|x l IH]; intros H; simpl; [reflexivity|].
  rewrite (H x (or_introl eq_refl)). simpl.
  rewrite IH by (intros y Hy; apply H; right; exact Hy). reflexivity.
Qed.

Lemma mapM_raise_head {A B : Type} (f : A -> result B) (x : A) (l : list A)
  (e : exn) :
  f x = Raise e -> mapM f (x :: l) = Raise e.
Proof. intros H. simpl. rewrite H. reflexivity. Qed.

Lemma index_map_seq {B : Type} (f : nat -> B) (a m i : nat) :
  (i < m)%nat -> index (map f (seq a m)) i = Ok (f (a + i)%nat).
Proof.
  intros Hi. unfold index. rewrite nth_error_map, nth_error_seq.
  destruct (Nat.ltb_spec i m); [reflexivity | lia].
Qed.

Lemma index_beyond {B : Type} (l : list B) (i : nat) :
  (List.length l <= i)%nat -> index l i = Raise IndexError.
Proof.
  intros Hi. unfold index.
  destruct (nth_error l i) eqn:E; [|reflexivity].
  assert (nth_error l i <> None) as Hn by congruence.
  apply nth_error_Some in Hn. lia.
Qed.

(** ** The assignment matrix *)

Lemma testbit_small (n j : nat) : (j < 2 ^ n)%nat -> Nat.testbit j n = false.
Proof.
  intros Hj. rewrite <- (Nat.mod_small j (2 ^ n)) by exact Hj.
  apply Nat.mod_pow2_bits_high. lia.
Qed.

Lemma testbit_add_pow2_low (n j e : nat) :
  (j < 2 ^ n)%nat -> (e < n)%nat ->
  Nat.testbit (2 ^ n + j) e = Nat.testbit j e.
Proof.
  intros Hj He.
  rewrite <- (Nat.mod_pow2_bits_low (2 ^ n + j) n e) by exact He.
  f_equal.
  replace (2 ^ n + j)%nat with (j + 1 * 2 ^ n)%nat by lia.
  rewrite Nat.Div0.mod_add. apply Nat.mod_small. exact Hj.
Qed.

Lemma testbit_add_pow2_high (n j : nat) :
  (j < 2 ^ n)%nat -> Nat.testbit (2 ^ n + j) n = true.
Proof.
  intros Hj. apply (Nat.testbit_unique _ n true j 0%nat); [exact Hj|].
  simpl. lia.
Qed.

Lemma row_bits_S (n j : nat) : row_bits (S n) j = row_bits n j ++ [tbl j n].
Proof. unfold row_bits. rewrite seq_S, map_app. reflexivity. Qed.

Lemma fliplr_cons (b : Z) (t : list (list Z)) :
  fliplr (map (cons b) t) = map (fun row => row ++ [b]) (fliplr t).
Proof. unfold fliplr. rewrite !map_map. reflexivity. Qed.

Lemma table_rows (n : nat) :
  fliplr (product01 n) = map (row_bits n) (seq 0 (2 ^ n)).
Proof.
  induction n as [|n IH]; [reflexivity|].
  cbn [product01 flat_map]. rewrite app_nil_r.
  unfold fliplr at 1. rewrite map_app. fold (fliplr (map (cons 0) (product01 n))).
  fold (fliplr (map (cons 1) (product01 n))).
  rewrite !fliplr_cons, IH, !map_map.
  replace (2 ^ S n)%nat with (2 ^ n + 2 ^ n)%nat by (simpl; lia).
  rewrite seq_app, map_app. f_equal.
  - apply map_ext_in. intros j Hj. apply in_seq in Hj.
    rewrite row_bits_S. f_equal. unfold tbl.
    rewrite testbit_small by lia. reflexivity.
  - replace (0 + 2 ^ n)%nat with (2 ^ n + 0)%nat by lia.
    rewrite seq_add_map, map_map. apply map_ext_in. intros j Hj.
    apply in_seq in Hj. rewrite row_bits_S. f_equal.
    2: { unfold tbl. rewrite testbit_add_pow2_high by lia. reflexivity. }
    unfold row_bits. apply map_ext_in. intros e He. apply in_seq in He.
    unfold tbl. rewrite testbit_add_pow2_low by lia. reflexivity.
Qed.

Lemma table_index2 (n j e : nat) :
  (j < 2 ^ n)%nat -> (e < n)%nat ->
  index2 (fliplr (product01 n)) j e = Ok (tbl j e).
Proof.
  intros Hj He. unfold index2. rewrite table_rows.
  rewrite index_map_seq by exact Hj. simpl.
  unfold row_bits. rewrite index_map_seq by exact He. reflexivity.
Qed.

Lemma table_index2_beyond (n j e : nat) :
  (2 ^ n <= j)%nat -> index2 (fliplr (product01 n)) j e = Raise IndexError.
Proof.
  intros Hj. unfold index2. rewrite index_beyond; [reflexivity|].
  rewrite table_rows, length_map, length_seq. exact Hj.
Qed.

(** ** The index families *)

Lemma alloc_U_index (n R el k : nat) :
  (1 <= el <= n)%nat -> (1 <= k <= R)%nat ->
  index2 (alloc_U n R) (el - 1) (k - 1) = Ok (Var_u el k).
Proof.
  intros He Hk. unfold index2, alloc_U, range.
  rewrite index_map_seq by lia. cbn [bind].
  rewrite index_map_seq by lia. do 2 f_equal; lia.
Qed.

Lemma alloc_V_index (R i k : nat) :
  (1 <= k <= R)%nat -> (1 <= i < k)%nat ->
  index2 (alloc_V R) (k - 1) (i - 1) = Ok (Var_v i k).
Proof.
  intros Hk Hi. unfold index2, alloc_V, range.
  rewrite index_map_seq by lia. cbn [bind].
  rewrite index_map_seq by lia. do 2 f_equal; lia.
Qed.

Lemma alloc_P_index (n R k j : nat) :
  (1 <= k < R)%nat -> (1 <= j <= 2 ^ n)%nat ->
  index2 (alloc_P n R) (k - 1) (j - 1) = Ok (Var_p k j).
Proof.
  intros Hk Hj. unfold index2, alloc_P, range.
  rewrite index_map_seq by lia. cbn [bind].
  rewrite index_map_seq by lia. do 2 f_equal; lia.
Qed.

Lemma alloc_r_index (n R k : nat) :
  (1 <= k <= R)%nat -> index (alloc_r n R) (k - 1) = Ok (r_row n k).
Proof.
  intros Hk. unfold alloc_r, range.
  rewrite index_map_seq by lia.
  replace (1 + (k - 1))%nat with k by lia. reflexivity.
Qed.

Lemma r_row_index2 (n i k j : nat) :
  (1 <= i < k)%nat -> (1 <= j <= 2 ^ n)%nat ->
  index2 (r_row n k) (i - 1) (j - 1) = Ok (Var_r i k j).
Proof.
  intros Hi Hj. unfold index2, r_row, range.
  rewrite index_map_seq by lia. cbn [bind].
  rewrite index_map_seq by lia. do 2 f_equal; lia.
Qed.

Lemma gates_index (gates : list Z) (k : nat) :
  (1 <= k <= List.length gates)%nat ->
  index gates (k - 1) = Ok (marker_of gates k).
Proof.
  intros Hk. unfold index, marker_of.
  rewrite (nth_error_nth' gates 0) by lia. reflexivity.
Qed.

(** ** Meaning of the linear expressions *)

Lemma sumZ_app (l1 l2 : list Z) : sumZ (l1 ++ l2) = sumZ l1 + sumZ l2.
Proof. induction l1 as [|x l1 IH]; simpl; [reflexivity | rewrite IH; lia]. Qed.

Lemma eval_terms (a : assignment) (e : LinExpr) :
  eval a e = sumZ (map (fun t => fst t * a (snd t)) (terms e)) + const e.
Proof.
  unfold eval. induction (terms e) as [|t l IH]; simpl; [reflexivity|].
  rewrite IH. lia.
Qed.

Lemma eval_const (a : assignment) (c : Z) : eval a (le_const c) = c.
Proof. reflexivity. Qed.

Lemma eval_var (a : assignment) (x : var) : eval a (le_var x) = a x.
Proof. unfold eval, le_var. cbn [terms const fold_right fst snd]. lia. Qed.

Lemma eval_term (a : assignment) (c : Z) (x : var) :
  eval a (le_term c x) = c * a x.
Proof.
  unfold eval, le_term. cbn [terms const].
  destruct (Z.eqb_spec c 0) as [->|_]; cbn [fold_right fst snd]; lia.
Qed.

Lemma eval_add (a : assignment) (e1 e2 : LinExpr) :
  eval a (le_add e1 e2) = eval a e1 + eval a e2.
Proof.
  rewrite !eval_terms. unfold le_add. cbn [terms const].
  rewrite map_app, sumZ_app. lia.
Qed.

Lemma eval_scale (a : assignment) (c : Z) (e : LinExpr) :
  eval a (le_scale c e) = c * eval a e.
Proof.
  rewrite !eval_terms. unfold le_scale. cbn [terms const].
  rewrite map_map. cbn [fst snd].
  induction (terms e) as [|t l IH]; cbn [map sumZ fold_right]; [lia|].
  fold (sumZ (map (fun x => c * fst x * a (snd x)) l)).
  fold (sumZ (map (fun t => fst t * a (snd t)) l)). lia.
Qed.

Lemma eval_neg (a : assignment) (e : LinExpr) : eval a (le_neg e) = - eval a e.
Proof. unfold le_neg. rewrite eval_scale. lia. Qed.

Lemma eval_sub (a : assignment) (e1 e2 : LinExpr) :
  eval a (le_sub e1 e2) = eval a e1 - eval a e2.
Proof. unfold le_sub. rewrite eval_add, eval_neg. lia. Qed.

Lemma eval_fold_add (a : assignment) (l : list LinExpr) (e0 : LinExpr) :
  eval a (fold_left le_add l e0) = eval a e0 + sumZ (map (eval a) l).
Proof.
  revert e0. induction l as [|e l IH]; intros e0; simpl; [lia|].
  rewrite IH, eval_add. lia.
Qed.

Lemma eval_xsum (a : assignment) (l : list LinExpr) :
  eval a (xsum l) = sumZ (map (eval a) l).
Proof. unfold xsum. rewrite eval_fold_add, eval_const. lia. Qed.

Lemma holds_ge (a : assignment) (lhs rhs : LinExpr) :
  holds a (ge lhs rhs) <-> eval a rhs <= eval a lhs.
Proof.
  unfold holds, holdsb, ge. cbn [csense expr]. rewrite eval_sub.
  rewrite Z.leb_le. lia.
Qed.

Lemma holds_le (a : assignment) (lhs rhs : LinExpr) :
  holds a (le lhs rhs) <-> eval a lhs <= eval a rhs.
Proof.
  unfold holds, holdsb, le. cbn [csense expr]. rewrite eval_sub.
  rewrite Z.leb_le. lia.
Qed.

Create Rewrite HintDb lin.
#[local] Hint Rewrite eval_const eval_var eval_term eval_add eval_scale eval_neg
  eval_sub eval_xsum : lin.

(** ** What the constraint loops leave behind *)

Lemma emit_set_k (c : Constr) (k : nat) (s : LoopState) :
  emit c (set_k k s) = push [c] (Some k) s.
Proof. reflexivity. Qed.

Lemma emit_plain (c : Constr) (s : LoopState) :
  emit c s = push [c] (k_var s) s.
Proof. reflexivity. Qed.

Lemma push_push (cs1 cs2 : list Constr) (k1 k2 : option nat) (s : LoopState) :
  push cs2 k2 (push cs1 k1 s) = push (cs1 ++ cs2) k2 s.
Proof. unfold push. cbn [model vars objective constrs]. rewrite app_assoc. reflexivity. Qed.

Lemma emit_push (c : Constr) (cs : list Constr) (k : option nat)
  (s : LoopState) :
  emit c (push cs k s) = push (cs ++ [c]) k s.
Proof. rewrite emit_plain. apply push_push. Qed.

Lemma push_nil (s : LoopState) : push [] (k_var s) s = s.
Proof.
  destruct s as [[vs ob cs] k]. unfold push. cbn [model vars objective constrs k_var].
  rewrite app_nil_r. reflexivity.
Qed.

Lemma set_k_push (k : nat) (s : LoopState) : set_k k s = push [] (Some k) s.
Proof.
  destruct s as [[vs ob cs] k0]. unfold push, set_k.
  cbn [model vars objective constrs]. rewrite app_nil_r. reflexivity.
Qed.

Lemma forM_app {X S : Type} (l1 l2 : list X) (body : X -> S -> outcome unit S)
  (s : S) :
  forM (l1 ++ l2) body s =
  match forM l1 body s with
  | Done _ s' => forM l2 body s'
  | Failed e s' => Failed e s'
  end.
Proof.
  revert s. induction l1 as [|x l1 IH]; intros s; cbn [forM app]; [reflexivity|].
  destruct (body x s) as [[] s'|e s']; [apply IH | reflexivity].
Qed.

Lemma forM_push {X : Type} (l : list X)
  (body : X -> LoopState -> outcome unit LoopState)
  (cs : X -> list Constr) (upd : X -> option nat -> option nat) :
  (forall x, In x l -> forall s,
      body x s = Done tt (push (cs x) (upd x (k_var s)) s)) ->
  forall s,
    forM l body s =
    Done tt (push (flat_map cs l)
                  (fold_left (fun k x => upd x k) l (k_var s)) s).
Proof.
  induction l as [|x l IH]; intros H s; cbn [forM flat_map fold_left].
  - rewrite push_nil. reflexivity.
  - rewrite (H x (or_introl eq_refl)).
    rewrite IH by (intros y Hy; apply H; right; exact Hy).
    rewrite push_push. reflexivity.
Qed.

(** The loop variable after a loop that sets it at every turn. *)
Lemma fold_left_set {X : Type} (f : X -> nat) (l : list X) (k : option nat) :
  fold_left (fun _ x => Some (f x)) l k =
  match rev l with
  | x :: _ => Some (f x)
  | [] => k
  end.
Proof.
  revert k. induction l as [|x l IH]; intros k; cbn [fold_left rev]; [reflexivity|].
  rewrite IH. destruct (rev l) as [|y t]; reflexivity.
Qed.

Lemma fold_left_keep {X : Type} (l : list X) (k : option nat) :
  fold_left (fun k0 _ => k0) l k = k.
Proof. revert k. induction l; intros k; cbn [fold_left]; auto. Qed.

Lemma product_snoc {X Y : Type} (l1 : list X) (x : X) (l2 : list Y) (y : Y) :
  product (l1 ++ [x]) (l2 ++ [y]) =
  product l1 (l2 ++ [y]) ++ map (pair x) l2 ++ [(x, y)].
Proof.
  unfold product. rewrite flat_map_app. cbn [flat_map].
  rewrite app_nil_r, map_app. reflexivity.
Qed.

Lemma rev_product_seq (a b r m : nat) :
  rev (product (seq a (S r)) (seq b (S m))) =
  ((a + r)%nat, (b + m)%nat) :: rev (product (seq a r) (seq b (S m)) ++
                                     map (pair (a + r)%nat) (seq b m)).
Proof.
  rewrite (seq_S r a). rewrite (seq_S m b) at 1.
  rewrite product_snoc. rewrite <- seq_S.
  rewrite app_assoc, rev_unit. reflexivity.
Qed.

Lemma pow2_pos (n : nat) : (1 <= 2 ^ n)%nat.
Proof. pose proof (Nat.pow_nonzero 2 n). lia. Qed.

Lemma forM_push_inv {X : Type} (Inv : option nat -> Prop) (l : list X)
  (body : X -> LoopState -> outcome unit LoopState)
  (cs : X -> list Constr) (upd : X -> option nat -> option nat) :
  (forall x, In x l -> forall s, Inv (k_var s) ->
      body x s = Done tt (push (cs x) (upd x (k_var s)) s) /\
      Inv (upd x (k_var s))) ->
  forall s, Inv (k_var s) ->
    forM l body s =
    Done tt (push (flat_map cs l)
                  (fold_left (fun k x => upd x k) l (k_var s)) s).
Proof.
  induction l as [|x l IH]; intros H s Hs; cbn [forM flat_map fold_left].
  - rewrite push_nil. reflexivity.
  - destruct (H x (or_introl eq_refl) s Hs) as [Hb Hi]. rewrite Hb.
    rewrite IH; [| intros y Hy; apply H; right; exact Hy | exact Hi].
    rewrite push_push. reflexivity.
Qed.

Lemma flat_map_single {X Y : Type} (f : X -> Y) (l : list X) :
  flat_map (fun x => [f x]) l = map f l.
Proof. induction l as [|x l IH]; cbn [flat_map map app]; congruence. Qed.

Lemma in_enumerate {X : Type} (l : list X) (j : nat) (x : X) :
  In (j, x) (enumerate l) -> (j < List.length l)%nat.
Proof.
  intros H. apply in_combine_l in H. apply in_seq in H. lia.
Qed.

Lemma in_product {X Y : Type} (l1 : list X) (l2 : list Y) (x : X) (y : Y) :
  In (x, y) (product l1 l2) <-> In x l1 /\ In y l2.
Proof.
  unfold product. rewrite in_flat_map. split.
  - intros [x' [Hx Hy]]. apply in_map_iff in Hy.
    destruct Hy as [y' [E Hy]]. inversion E; subst. tauto.
  - intros [Hx Hy]. exists x. split; [exact Hx|]. apply in_map. exact Hy.
Qed.

(** ** The loop bodies on indices in range *)

Section Closed.

Variables (n R : nat) (gates : list Z).

Hypothesis gates_length : List.length gates = R.

Lemma ext_sum_ok (j k : nat) :
  (1 <= j <= 2 ^ n)%nat -> (1 <= k <= R)%nat ->
  ext_sum n (fliplr (product01 n)) (alloc_U n R) (j - 1) (k - 1)
  = Ok (ext_expr n j k).
Proof.
  intros Hj Hk. unfold ext_sum. rewrite range_succ.
  rewrite (mapM_ok _ (fun el => le_term (tbl (j - 1) (el - 1))
                                        (Var_u el k))).
  - reflexivity.
  - intros el Hel. apply in_seq_1 in Hel.
    rewrite table_index2 by lia. cbn [bind].
    rewrite alloc_U_index by lia. reflexivity.
Qed.

Lemma int_sum_ok (k j : nat) :
  (1 <= j <= 2 ^ n)%nat -> (1 <= k <= R)%nat ->
  int_sum (alloc_r n R) (k - 1) (j - 1) k = Ok (int_expr k j).
Proof.
  intros Hj Hk. unfold int_sum. rewrite range_below.
  rewrite (mapM_ok _ (fun i => le_var (Var_r i k j))).
  - reflexivity.
  - intros i Hi. apply in_seq_1 in Hi.
    rewrite alloc_r_index by lia. cbn [bind].
    rewrite r_row_index2 by lia. reflexivity.
Qed.

Lemma gate_body_ok (k j : nat) (s : LoopState) :
  (1 <= k < R)%nat -> (1 <= j <= 2 ^ n)%nat ->
  gate_body n (big_A n R) (fliplr (product01 n)) gates (alloc_U n R)
            (alloc_P n R) (alloc_r n R) (k, j) s
  = Done tt (push [gate_on n R gates k j; gate_off n R gates k j] (Some k) s).
Proof.
  intros Hk Hj. unfold gate_body. cbn [fst snd]. cbv zeta.
  rewrite !ext_sum_ok, !int_sum_ok, !gates_index, !alloc_P_index by lia.
  rewrite emit_set_k, emit_push. reflexivity.
Qed.

Lemma final_body_ok (j : nat) (val : Z) (s : LoopState) :
  (1 <= R)%nat -> (j < 2 ^ n)%nat -> k_var s = Some (stale_k R) ->
  final_body n R (fliplr (product01 n)) gates (alloc_U n R) (alloc_r n R)
             (j, val) s
  = Done tt (push [final_constr n R gates (S j) val] (k_var s) s).
Proof.
  intros HR Hj Hs.
  assert (1 <= stale_k R <= List.length gates)%nat as Hst.
  { unfold stale_k. destruct (Nat.leb_spec 2 R); lia. }
  pose proof (ext_sum_ok (S j) R) as He.
  pose proof (int_sum_ok R (S j)) as Hi.
  replace (S j - 1)%nat with j in He, Hi by lia.
  unfold final_body, final_constr. cbn [fst snd].
  rewrite !He, !Hi by lia.
  rewrite Hs. cbn [of_option]. rewrite gates_index by exact Hst.
  rewrite <- Hs, !emit_plain. destruct (val =? 1); reflexivity.
Qed.

Lemma and_inner_ok (k j i : nat) (s : LoopState) :
  (2 <= k <= R)%nat -> (1 <= j <= 2 ^ n)%nat -> (1 <= i < k)%nat ->
  and_inner (alloc_V R) (alloc_P n R) (alloc_r n R) k j i s
  = Done tt (push [and_up i k j; and_down i k j] (k_var s) s).
Proof.
  intros Hk Hj Hi. unfold and_inner.
  rewrite !alloc_P_index, !alloc_V_index, !alloc_r_index by lia.
  rewrite !r_row_index2 by lia.
  rewrite (emit_plain _ s), emit_push. reflexivity.
Qed.

Lemma and_body_ok (k j : nat) (s : LoopState) :
  (2 <= k <= R)%nat -> (1 <= j <= 2 ^ n)%nat ->
  and_body (alloc_V R) (alloc_P n R) (alloc_r n R) (k, j) s
  = Done tt (push (flat_map (fun i => [and_up i k j; and_down i k j])
                            (seq 1 (k - 1)))
                  (Some k) s).
Proof.
  intros Hk Hj. unfold and_body. cbn [fst snd]. rewrite range_below.
  rewrite (forM_push _ _ (fun i => [and_up i k j; and_down i k j])
                     (fun _ k0 => k0)).
  - rewrite fold_left_keep, set_k_push, push_push. reflexivity.
  - intros i Hi s0. apply in_seq_1 in Hi. apply and_inner_ok; lia.
Qed.

Lemma fanin_body_ok (k : nat) (s : LoopState) :
  (1 <= k <= R)%nat ->
  fanin_body n gates (alloc_U n R) (alloc_V R) k s
  = Done tt (push [fanin_constr n gates k] (Some k) s).
Proof.
  intros Hk. unfold fanin_body. cbv zeta. rewrite range_succ, range_below.
  rewrite (mapM_ok _ (fun el => le_var (Var_u el k))).
  2: { intros el He. apply in_seq_1 in He.
       rewrite alloc_U_index by lia. reflexivity. }
  rewrite (mapM_ok _ (fun i => le_var (Var_v i k))).
  2: { intros i Hi. apply in_seq_1 in Hi.
       rewrite alloc_V_index by lia. reflexivity. }
  rewrite gates_index by lia. rewrite emit_set_k. reflexivity.
Qed.

End Closed.

(** ** The whole run on a well-formed input *)

Section Run.

Variables (n R : nat) (gates : list Z) (truth : list Z).
Hypothesis gates_length : List.length gates = R.
Hypothesis R_pos : (1 <= R)%nat.

Lemma gate_loop_done (s : LoopState) :
  k_var s = Some R ->
  forM (product (range 1 R) (range 1 (2 ^ n + 1)))
       (gate_body n (big_A n R) (fliplr (product01 n)) gates (alloc_U n R)
                  (alloc_P n R) (alloc_r n R)) s
  = Done tt (push (gate_constrs n R gates) (Some (stale_k R)) s).
Proof.
  intros Hs. rewrite range_below, range_succ.
  rewrite (forM_push _ _
             (fun kj => [gate_on n R gates (fst kj) (snd kj);
                         gate_off n R gates (fst kj) (snd kj)])
             (fun kj _ => Some (fst kj))).
  - unfold gate_constrs. do 2 f_equal.
    rewrite (fold_left_set fst). unfold stale_k.
    destruct (Nat.leb_spec 2 R) as [H2|H2].
    + destruct (R - 1)%nat as [|r] eqn:ER; [lia|].
      destruct (2 ^ n)%nat as [|m] eqn:Em; [pose proof (pow2_pos n); lia|].
      rewrite rev_product_seq. cbn [fst]. f_equal; lia.
    + replace (R - 1)%nat with 0%nat by lia. unfold product.
      cbn [seq flat_map rev]. exact Hs.
  - intros [k j] Hin s0. apply in_product in Hin.
    destruct Hin as [Hk Hj]. apply in_seq_1 in Hk, Hj. cbn [fst snd].
    apply gate_body_ok; [exact gates_length | lia | lia].
Qed.

Lemma final_loop_done (s : LoopState) :
  List.length truth = (2 ^ n)%nat ->
  k_var s = Some (stale_k R) ->
  forM (enumerate truth)
       (final_body n R (fliplr (product01 n)) gates (alloc_U n R)
                   (alloc_r n R)) s
  = Done tt (push (final_constrs n R gates truth) (Some (stale_k R)) s).
Proof.
  intros Hlen Hs.
  rewrite (forM_push_inv (fun k => k = Some (stale_k R)) _ _
             (fun jv => [final_constr n R gates (S (fst jv)) (snd jv)])
             (fun _ k => k)).
  - rewrite fold_left_keep, flat_map_single, Hs. reflexivity.
  - intros [j val] Hin s0 Hs0. apply in_enumerate in Hin. cbn [fst snd].
    split; [|exact Hs0].
    apply final_body_ok; [exact gates_length | exact R_pos | lia | exact Hs0].
  - exact Hs.
Qed.

Lemma and_loop_done (s : LoopState) :
  exists k,
    forM (product (range 2 (R + 1)) (range 1 (2 ^ n + 1)))
         (and_body (alloc_V R) (alloc_P n R) (alloc_r n R)) s
    = Done tt (push (and_constrs n R) k s).
Proof.
  rewrite range_from_2, range_succ. eexists.
  rewrite (forM_push _ _
             (fun kj => flat_map (fun i => [and_up i (fst kj) (snd kj);
                                            and_down i (fst kj) (snd kj)])
                                 (seq 1 (fst kj - 1)))
             (fun kj _ => Some (fst kj))).
  - reflexivity.
  - intros [k j] Hin s0. apply in_product in Hin.
    destruct Hin as [Hk Hj]. apply in_seq in Hk. apply in_seq_1 in Hj.
    cbn [fst snd]. apply (and_body_ok n R gates gates_length); lia.
Qed.

Lemma fanin_loop_done (s : LoopState) :
  forM (range 1 (R + 1)) (fanin_body n gates (alloc_U n R) (alloc_V R)) s
  = Done tt (push (fanin_constrs n R gates) (Some R) s).
Proof.
  rewrite range_succ.
  rewrite (forM_push _ _ (fun k => [fanin_constr n gates k])
                     (fun k _ => Some k)).
  - rewrite flat_map_single. unfold fanin_constrs. do 2 f_equal.
    rewrite (fold_left_set (fun k => k)).
    destruct R as [|r]; [lia|]. rewrite seq_S, rev_unit. reflexivity.
  - intros k Hk s0. apply in_seq_1 in Hk.
    apply fanin_body_ok; [exact gates_length | lia].
Qed.

Lemma constrain_done (s : LoopState) :
  List.length truth = (2 ^ n)%nat ->
  k_var s = Some R ->
  constrain n R truth gates s
= Done tt (push (all_constrs n R gates truth) (Some R) s).
Proof.
  intros Hlen Hs. unfold constrain. fold (big_A n R).
  rewrite gate_loop_done by exact Hs.
  rewrite final_loop_done by (exact Hlen || reflexivity).
  destruct (and_loop_done
              (push (final_constrs n R gates truth) (Some (stale_k R))
                    (push (gate_constrs n R gates) (Some (stale_k R)) s)))
    as [k Hk].
  rewrite Hk, fanin_loop_done, !push_push. unfold all_constrs.
  repeat rewrite <- app_assoc. reflexivity.
Qed.

End Run.

(** ** Well-formed inputs *)

Lemma py_int_bit (c : ascii) :
  is_bit c = true -> py_int (String c EmptyString) = Ok (bit_val c).
Proof.
  unfold is_bit. rewrite orb_true_iff, !Ascii.eqb_eq.
  intros [E|E]; subst c; reflexivity.
Qed.

Lemma parse_truth (s : string) :
  bit_string s = true ->
  mapM (fun c => py_int (String c EmptyString)) (list_ascii_of_string s)
  = Ok (truth_bits s).
Proof.
  unfold bit_string, truth_bits. intros H. apply mapM_ok.
  intros c Hc. apply py_int_bit.
  rewrite forallb_forall in H. apply H. exact Hc.
Qed.

Lemma length_list_ascii (s : string) :
  List.length (list_ascii_of_string s) = String.length s.
Proof. induction s as [|c s IH]; simpl; congruence. Qed.

Lemma truth_bits_length (s : string) :
  List.length (truth_bits s) = String.length s.
Proof. unfold truth_bits. rewrite length_map. apply length_list_ascii. Qed.

Lemma split_length (sep : ascii) (s : string) :
  (1 <= List.length (split sep s))%nat.
Proof.
  induction s as [|c s IH]; cbn [split]; [simpl; lia|].
  destruct (Ascii.eqb c sep); [simpl; lia|].
  destruct (split sep s); simpl in *; lia.
Qed.

Lemma gate_markers_length (gates : string) :
  (1 <= List.length (gate_markers gates))%nat.
Proof. unfold gate_markers. rewrite length_map. apply split_length. Qed.

Lemma int_log2_pow2 (n : nat) : int_log2 (2 ^ n) = Ok n.
Proof.
  unfold int_log2. pose proof (pow2_pos n).
  destruct (2 ^ n)%nat as [|m] eqn:E; [lia|].
  rewrite <- E, Nat.log2_pow2 by lia. reflexivity.
Qed.

Lemma after_for_range (R : nat) (k : option nat) :
  (1 <= R)%nat -> after_for (range 1 (R + 1)) k = Some R.
Proof.
  intros HR. rewrite range_succ. unfold after_for.
  destruct R as [|r]; [lia|]. rewrite seq_S, rev_unit. reflexivity.
Qed.

Lemma k_after_alloc_eq (n R : nat) :
  (1 <= R)%nat -> k_after_alloc n R = Some R.
Proof. intros HR. unfold k_after_alloc. apply after_for_range. exact HR. Qed.

(** On a truth string of length [2^n] the model is built and written,
    whatever the gate string. *)
Lemma make_circuit_lp_done (truth gates : string) (filename : option string)
  (n : nat) :
  String.length truth = (2 ^ n)%nat ->
  bit_string truth = true ->
  make_circuit_lp truth gates filename
  = Done (lp_path filename)
         (circuit_model n (truth_bits truth) (gate_markers gates)).
Proof.
  intros Hlen Hbits. unfold make_circuit_lp.
  rewrite Hlen, int_log2_pow2, parse_truth by exact Hbits.
  fold (gate_markers gates).
  rewrite (constrain_done n _ (gate_markers gates) (truth_bits truth) eq_refl).
  - reflexivity.
  - apply gate_markers_length.
  - rewrite truth_bits_length. exact Hlen.
  - apply k_after_alloc_eq, gate_markers_length.
Qed.

(** ** Reading the constraints as inequalities over an assignment *)

Lemma eval_input_expr (n : nat) (a : assignment) (k j : nat) :
  eval a (input_expr n k j) = input_val n a k j.
Proof.
  unfold input_expr, ext_expr, int_expr, input_val.
  autorewrite with lin. rewrite !map_map. cbn [Z.add]. f_equal.
  - apply f_equal, map_ext. intros el. autorewrite with lin. reflexivity.
  - apply f_equal, map_ext. intros i. autorewrite with lin. reflexivity.
Qed.

Lemma eval_neg_input_expr (n : nat) (a : assignment) (k j : nat) :
  eval a (neg_input_expr n k j) = - input_val n a k j.
Proof.
  rewrite <- eval_input_expr. unfold neg_input_expr, input_expr.
  autorewrite with lin. lia.
Qed.

Lemma holds_gate_on (n R : nat) (gates : list Z) (a : assignment) (k j : nat) :
  holds a (gate_on n R gates k j) <->
  marker_of gates k - big_A n R * (1 - a (Var_p k j)) <= - input_val n a k j.
Proof.
  unfold gate_on. rewrite holds_ge, eval_neg_input_expr.
  autorewrite with lin. reflexivity.
Qed.

Lemma holds_gate_off (n R : nat) (gates : list Z) (a : assignment) (k j : nat) :
  holds a (gate_off n R gates k j) <->
  1 - marker_of gates k - big_A n R * a (Var_p k j) <= input_val n a k j.
Proof.
  unfold gate_off. rewrite holds_ge, eval_input_expr.
  autorewrite with lin. reflexivity.
Qed.

Lemma holds_final_constr (n R : nat) (gates : list Z) (a : assignment)
  (j : nat) (val : Z) :
  holds a (final_constr n R gates j val) <->
  if val =? 1
  then marker_of gates (stale_k R) <= - input_val n a R j
  else 1 - marker_of gates (stale_k R) <= input_val n a R j.
Proof.
  unfold final_constr. destruct (val =? 1).
  - rewrite holds_ge, eval_neg_input_expr, eval_const. reflexivity.
  - rewrite holds_ge, eval_input_expr, eval_const. reflexivity.
Qed.

Lemma holds_and_up (a : assignment) (i k j : nat) :
  holds a (and_up i k j) <->
  a (Var_p i j) + a (Var_v i k) - a (Var_r i k j) <= 1.
Proof. unfold and_up. rewrite holds_le. autorewrite with lin. reflexivity. Qed.

Lemma holds_and_down (a : assignment) (i k j : nat) :
  holds a (and_down i k j) <->
  a (Var_p i j) + a (Var_v i k) - 2 * a (Var_r i k j) >= 0.
Proof. unfold and_down. rewrite holds_ge. autorewrite with lin. lia. Qed.

Lemma holds_fanin_constr (n : nat) (gates : list Z) (a : assignment) (k : nat) :
  holds a (fanin_constr n gates k) <-> fan_in n a k <= 1 - marker_of gates k.
Proof.
  unfold fanin_constr, fan_in. rewrite holds_le. autorewrite with lin.
  rewrite !map_map. cbn [Z.add].
  rewrite (map_ext (fun x => eval a (le_var (Var_u x k)))
                   (fun el => a (Var_u el k)))
    by (intros; apply eval_var).
  rewrite (map_ext (fun x => eval a (le_var (Var_v x k)))
                   (fun i => a (Var_v i k)))
    by (intros; apply eval_var).
  reflexivity.
Qed.

(** *** Where the constraints sit in the model *)

Lemma in_gate_constrs (n R : nat) (gates : list Z) (k j : nat) :
  (1 <= k <= R - 1)%nat -> (1 <= j <= 2 ^ n)%nat ->
  In (gate_on n R gates k j) (gate_constrs n R gates) /\
  In (gate_off n R gates k j) (gate_constrs n R gates).
Proof.
  intros Hk Hj. unfold gate_constrs.
  assert (In (k, j) (product (seq 1 (R - 1)) (seq 1 (2 ^ n)))) as Hin.
  { apply in_product. rewrite !in_seq_1. lia. }
  split; apply in_flat_map; exists (k, j); (split; [exact Hin|]);
    cbn [fst snd In]; tauto.
Qed.

Lemma in_and_constrs (n R i k j : nat) :
  (2 <= k <= R)%nat -> (1 <= j <= 2 ^ n)%nat -> (1 <= i <= k - 1)%nat ->
  In (and_up i k j) (and_constrs n R) /\ In (and_down i k j) (and_constrs n R).
Proof.
  intros Hk Hj Hi. unfold and_constrs.
  assert (In (k, j) (product (seq 2 (R - 1)) (seq 1 (2 ^ n)))) as Hin.
  { apply in_product. rewrite in_seq, in_seq_1. lia. }
  split; apply in_flat_map; exists (k, j); (split; [exact Hin|]);
    cbn [fst snd]; apply in_flat_map; exists i;
    (split; [apply in_seq_1; exact Hi | cbn [In]; tauto]).
Qed.

Lemma in_fanin_constrs (n R : nat) (gates : list Z) (k : nat) :
  (1 <= k <= R)%nat -> In (fanin_constr n gates k) (fanin_constrs n R gates).
Proof.
  intros Hk. unfold fanin_constrs. apply in_map. apply in_seq_1. exact Hk.
Qed.

Lemma constrs_circuit_model (n : nat) (truth gates : list Z) :
  constrs (circuit_model n truth gates) =
  gate_constrs n (List.length gates) gates ++
  final_constrs n (List.length gates) gates truth ++
  and_constrs n (List.length gates) ++
  fanin_constrs n (List.length gates) gates.
Proof. reflexivity. Qed.

(** The markers of a gate string are 0 or -1. *)
Lemma marker_cases (tag : string) : marker tag = 0 \/ marker tag = -1.
Proof. unfold marker. destruct (String.eqb tag "NOT"); auto. Qed.

Lemma marker_of_cases (gates : string) (k : nat) :
  marker_of (gate_markers gates) k = 0 \/ marker_of (gate_markers gates) k = -1.
Proof.
  unfold marker_of, gate_markers.
  destruct (Nat.lt_ge_cases (k - 1) (List.length (split " " gates))) as [H|H].
  - rewrite (nth_indep _ 0 (marker EmptyString)) by (rewrite length_map; exact H).
    rewrite map_nth. apply marker_cases.
  - rewrite nth_overflow by (rewrite length_map; exact H). auto.
Qed.

(** ** Which variables a constraint mentions *)

Lemma var_eqb_eq (x y : var) : var_eqb x y = true <-> x = y.
Proof.
  destruct x, y; cbn [var_eqb];
    rewrite ?andb_true_iff, ?Nat.eqb_eq;
    split; intros H; try discriminate; try (inversion H; subst; tauto);
    try (destruct H as [? ?]; try destruct H; subst; reflexivity).
Qed.

Lemma var_eqb_refl (x : var) : var_eqb x x = true.
Proof. apply var_eqb_eq. reflexivity. Qed.

Lemma mentions_in (x : var) (c : Constr) :
  mentions x c = true <-> In x (cvars c).
Proof.
  unfold mentions. rewrite existsb_exists. split.
  - intros [y [Hy E]]. apply var_eqb_eq in E. subst. exact Hy.
  - intros H. exists x. split; [exact H | apply var_eqb_refl].
Qed.

Lemma mentions_out (x : var) (c : Constr) :
  ~ In x (cvars c) -> mentions x c = false.
Proof.
  intros H. destruct (mentions x c) eqn:E; [|reflexivity].
  apply mentions_in in E. contradiction.
Qed.

Lemma carries_out (x : var) (w : Z) (c : Constr) :
  ~ In x (cvars c) -> carries x w c = false.
Proof.
  intros H. destruct (carries x w c) eqn:E; [|reflexivity].
  exfalso. apply H. unfold carries in E. apply existsb_exists in E.
  destruct E as [t [Ht E]]. apply andb_true_iff in E. destruct E as [E _].
  apply var_eqb_eq in E. subst x. unfold cvars, lvars. apply in_map. exact Ht.
Qed.

Lemma lvars_add (e1 e2 : LinExpr) : lvars (le_add e1 e2) = lvars e1 ++ lvars e2.
Proof. unfold lvars, le_add. cbn [terms]. apply map_app. Qed.

Lemma lvars_scale (c : Z) (e : LinExpr) : lvars (le_scale c e) = lvars e.
Proof. unfold lvars, le_scale. cbn [terms]. rewrite map_map. reflexivity. Qed.

Lemma lvars_neg (e : LinExpr) : lvars (le_neg e) = lvars e.
Proof. apply lvars_scale. Qed.

Lemma lvars_sub (e1 e2 : LinExpr) : lvars (le_sub e1 e2) = lvars e1 ++ lvars e2.
Proof. unfold le_sub. rewrite lvars_add, lvars_neg. reflexivity. Qed.

Lemma lvars_fold_add (l : list LinExpr) (e0 : LinExpr) :
  lvars (fold_left le_add l e0) = lvars e0 ++ flat_map lvars l.
Proof.
  revert e0. induction l as [|e l IH]; intros e0; cbn [fold_left flat_map].
  - rewrite app_nil_r. reflexivity.
  - rewrite IH, lvars_add, app_assoc. reflexivity.
Qed.

Lemma lvars_xsum_map {X : Type} (f : X -> LinExpr) (g : X -> var)
  (l : list X) :
  (forall x, lvars (f x) = [g x]) -> lvars (xsum (map f l)) = map g l.
Proof.
  intros H. unfold xsum. rewrite lvars_fold_add. cbn [lvars le_const terms map app].
  induction l as [|x l IH]; cbn [map flat_map]; [reflexivity|].
  rewrite H, IH. reflexivity.
Qed.

Lemma lvars_term (c : Z) (x : var) :
  lvars (le_term c x) = if c =? 0 then [] else [x].
Proof. unfold lvars, le_term. cbn [terms]. destruct (c =? 0); reflexivity. Qed.

Lemma lvars_ext_expr (n j k : nat) :
  lvars (ext_expr n j k) =
  map (fun el => Var_u el k)
      (filter (fun el => tbl (j - 1) (el - 1) =? 1) (seq 1 n)).
Proof.
  unfold ext_expr, xsum. rewrite lvars_fold_add.
  cbn [lvars le_const terms map app].
  induction (seq 1 n) as [|el l IH]; cbn [map flat_map filter]; [reflexivity|].
  rewrite IH, lvars_term. unfold tbl.
  destruct (Nat.testbit (j - 1) (el - 1)); reflexivity.
Qed.

Lemma lvars_input_expr (n k j : nat) :
  lvars (input_expr n k j) = input_vars n k j.
Proof.
  unfold input_expr, int_expr, input_vars.
  rewrite !lvars_add, lvars_ext_expr.
  rewrite (lvars_xsum_map _ (fun i => Var_r i k j)) by reflexivity.
  reflexivity.
Qed.

Lemma lvars_neg_input_expr (n k j : nat) :
  lvars (neg_input_expr n k j) = input_vars n k j.
Proof.
  unfold neg_input_expr, int_expr, input_vars.
  rewrite !lvars_add, !lvars_neg, lvars_ext_expr.
  rewrite (lvars_xsum_map _ (fun i => Var_r i k j)) by reflexivity.
  reflexivity.
Qed.

Lemma cvars_gate_on (n R : nat) (gates : list Z) (k j : nat) :
  cvars (gate_on n R gates k j) = input_vars n k j ++ [Var_p k j].
Proof.
  unfold cvars, gate_on, ge. cbn [expr].
  rewrite lvars_sub, lvars_neg_input_expr, !lvars_sub, lvars_scale, lvars_sub.
  reflexivity.
Qed.

Lemma cvars_gate_off (n R : nat) (gates : list Z) (k j : nat) :
  (1 <= R)%nat ->
  cvars (gate_off n R gates k j) = input_vars n k j ++ [Var_p k j].
Proof.
  intros HR. unfold cvars, gate_off, ge. cbn [expr].
  rewrite lvars_sub, lvars_input_expr, !lvars_sub, lvars_term.
  unfold big_A. destruct (Z.eqb_spec (Z.of_nat n + Z.of_nat R) 0); [lia|].
  reflexivity.
Qed.

Lemma in_cvars_gate (n R : nat) (gates : list Z) (k j : nat) (c : Constr)
  (x : var) :
  c = gate_on n R gates k j \/ c = gate_off n R gates k j ->
  In x (cvars c) -> In x (input_vars n k j) \/ x = Var_p k j.
Proof.
  intros [->| ->].
  - rewrite cvars_gate_on, in_app_iff. cbn [In]. intuition auto.
  - unfold cvars, gate_off, ge. cbn [expr].
    rewrite lvars_sub, lvars_input_expr, !lvars_sub, lvars_term, !in_app_iff.
    destruct (big_A n R =? 0); cbn [lvars le_const terms map In];
      intuition auto.
Qed.

Lemma cvars_final_constr (n R : nat) (gates : list Z) (j : nat) (val : Z) :
  cvars (final_constr n R gates j val) = input_vars n R j.
Proof.
  unfold cvars, final_constr, ge. destruct (val =? 1); cbn [expr];
    rewrite lvars_sub, ?lvars_input_expr, ?lvars_neg_input_expr;
    apply app_nil_r.
Qed.

Lemma cvars_and_up (i k j : nat) :
  cvars (and_up i k j) = [Var_p i j; Var_v i k; Var_r i k j].
Proof. reflexivity. Qed.

Lemma cvars_and_down (i k j : nat) :
  cvars (and_down i k j) = [Var_p i j; Var_v i k; Var_r i k j].
Proof. reflexivity. Qed.

Lemma cvars_fanin_constr (n : nat) (gates : list Z) (k : nat) :
  cvars (fanin_constr n gates k) =
  map (fun el => Var_u el k) (seq 1 n) ++ map (fun i => Var_v i k) (seq 1 (k - 1)).
Proof.
  unfold cvars, fanin_constr, le. cbn [expr].
  rewrite lvars_sub, !lvars_add.
  rewrite (lvars_xsum_map _ (fun el => Var_u el k)) by reflexivity.
  rewrite (lvars_xsum_map _ (fun i => Var_v i k)) by reflexivity.
  cbn [lvars le_const terms map app]. rewrite app_nil_r. reflexivity.
Qed.

Lemma in_input_vars (n k j : nat) (x : var) :
  In x (input_vars n k j) ->
  (exists el, x = Var_u el k) \/ (exists i, x = Var_r i k j).
Proof.
  unfold input_vars. rewrite in_app_iff, !in_map_iff.
  intros [[el [E _]]|[i [E _]]]; [left; exists el | right; exists i]; auto.
Qed.

Lemma in_filter_seq (q : nat -> bool) (x a m : nat) :
  In x (filter q (seq a m)) -> In x (seq a m).
Proof. intros H. apply filter_In in H. exact (proj1 H). Qed.

(** *** Filtering a list made by nested loops *)

Lemma filter_none {X : Type} (q : X -> bool) (l : list X) :
  (forall x, In x l -> q x = false) -> filter q l = [].
Proof.
  induction l as [|x l IH]; intros H; cbn [filter]; [reflexivity|].
  rewrite (H x (or_introl eq_refl)). apply IH. intros y Hy. apply H. right. exact Hy.
Qed.

Lemma filter_flat_map_none {X Y : Type} (q : Y -> bool) (f : X -> list Y)
  (l : list X) :
  (forall x, In x l -> filter q (f x) = []) -> filter q (flat_map f l) = [].
Proof.
  induction l as [|x l IH]; intros H; cbn [flat_map]; [reflexivity|].
  rewrite filter_app, (H x (or_introl eq_refl)), IH; [reflexivity|].
  intros y Hy. apply H. right. exact Hy.
Qed.

Lemma filter_flat_map_one {X Y : Type} (q : Y -> bool) (f : X -> list Y)
  (l : list X) (x0 : X) :
  NoDup l -> In x0 l ->
  (forall x, In x l -> x <> x0 -> filter q (f x) = []) ->
  filter q (flat_map f l) = filter q (f x0).
Proof.
  induction l as [|y l IH]; intros Hnd Hin H; [destruct Hin|].
  inversion Hnd as [|? ? Hy Hnd']; subst. cbn [flat_map]. rewrite filter_app.
  destruct Hin as [E|Hin].
  - subst y. rewrite filter_flat_map_none; [apply app_nil_r|].
    intros x Hx. apply H; [right; exact Hx|]. intros E. subst. contradiction.
  - rewrite (H y (or_introl eq_refl)) by (intros E; subst; contradiction).
    apply IH; [exact Hnd' | exact Hin|].
    intros x Hx. apply H. right. exact Hx.
Qed.

Lemma flat_map_product {X Y Z0 : Type} (F : X * Y -> list Z0) (l1 : list X)
  (l2 : list Y) :
  flat_map F (product l1 l2) =
  flat_map (fun x => flat_map (fun y => F (x, y)) l2) l1.
Proof.
  unfold product. induction l1 as [|x l1 IH]; cbn [flat_map]; [reflexivity|].
  rewrite flat_map_app, IH.
  assert (flat_map F (map (pair x) l2) = flat_map (fun y => F (x, y)) l2)
    as ->; [|reflexivity].
  clear IH. induction l2 as [|y l2 IH2]; cbn [map flat_map]; [reflexivity|].
  rewrite IH2. reflexivity.
Qed.

(** *** Which constraints tie [r.i.k.j] to [v.i.k] *)

Lemma no_v_input_vars (n k j i' k' : nat) : ~ In (Var_v i' k') (input_vars n k j).
Proof.
  intros H. apply in_input_vars in H. destruct H as [[? E]|[? E]]; discriminate.
Qed.

Lemma ties_gate_constrs (n R : nat) (gates : list Z) (i k j : nat) :
  filter (ties i k j) (gate_constrs n R gates) = [].
Proof.
  apply filter_none. intros c Hc. unfold gate_constrs in Hc.
  apply in_flat_map in Hc. destruct Hc as [[k' j'] [_ Hc]].
  unfold ties. apply andb_false_iff. right. apply mentions_out.
  cbn [fst snd In] in Hc. intros Hx.
  apply (in_cvars_gate n R gates k' j') in Hx;
    [|destruct Hc as [E|[E|[]]]; subst c; auto].
  destruct Hx as [H|H]; [exact (no_v_input_vars _ _ _ _ _ H) | discriminate].
Qed.

Lemma ties_final_constrs (n R : nat) (gates truth : list Z) (i k j : nat) :
  filter (ties i k j) (final_constrs n R gates truth) = [].
Proof.
  apply filter_none. intros c Hc. unfold final_constrs in Hc.
  apply in_map_iff in Hc. destruct Hc as [jv [E _]]. subst c.
  unfold ties. apply andb_false_iff. right. apply mentions_out.
  rewrite cvars_final_constr. apply no_v_input_vars.
Qed.

Lemma ties_fanin_constrs (n R : nat) (gates : list Z) (i k j : nat) :
  filter (ties i k j) (fanin_constrs n R gates) = [].
Proof.
  apply filter_none. intros c Hc. unfold fanin_constrs in Hc.
  apply in_map_iff in Hc. destruct Hc as [k' [E _]]. subst c.
  unfold ties. apply andb_false_iff. left. apply mentions_out.
  rewrite cvars_fanin_constr, in_app_iff, !in_map_iff.
  intros [[? [E _]]|[? [E _]]]; discriminate.
Qed.

Lemma ties_and_other (i k j i' k' j' : nat) :
  (i', k', j') <> (i, k, j) ->
  filter (ties i k j) [and_up i' k' j'; and_down i' k' j'] = [].
Proof.
  intros Hne. apply filter_none. intros c Hc. unfold ties.
  apply andb_false_iff. left. apply mentions_out.
  destruct Hc as [E|[E|[]]]; subst c;
    rewrite ?cvars_and_up, ?cvars_and_down; cbn [In];
    (intros [E|[E|[E|[]]]]; try discriminate; inversion E; subst;
     apply Hne; reflexivity).
Qed.

Lemma ties_and_self (i k j : nat) :
  filter (ties i k j) [and_up i k j; and_down i k j]
  = [and_up i k j; and_down i k j].
Proof.
  assert (forall c, cvars c = [Var_p i j; Var_v i k; Var_r i k j] ->
                    ties i k j c = true) as H.
  { intros c Hc. unfold ties. apply andb_true_iff.
    split; apply mentions_in; rewrite Hc; cbn [In]; auto. }
  cbn [filter]. rewrite !H by reflexivity. reflexivity.
Qed.

Lemma ties_and_constrs (n R i k j : nat) :
  (2 <= k <= R)%nat -> (1 <= j <= 2 ^ n)%nat -> (1 <= i <= k - 1)%nat ->
  filter (ties i k j) (and_constrs n R) = [and_up i k j; and_down i k j].
Proof.
  intros Hk Hj Hi. unfold and_constrs. rewrite flat_map_product. cbn [fst snd].
  rewrite (filter_flat_map_one _ _ _ k);
    [| apply seq_NoDup | apply in_seq; lia |].
  - rewrite (filter_flat_map_one _ _ _ j);
      [| apply seq_NoDup | apply in_seq_1; lia |].
    + rewrite (filter_flat_map_one _ _ _ i);
        [apply ties_and_self | apply seq_NoDup | apply in_seq_1; lia |].
      intros i' _ Hne. apply ties_and_other. congruence.
    + intros j' _ Hne. apply filter_flat_map_none. intros i' _.
      apply ties_and_other. congruence.
  - intros k' _ Hne. apply filter_flat_map_none. intros j' _.
    apply filter_flat_map_none. intros i' _. apply ties_and_other. congruence.
Qed.

(** C3. For every truth string of length [2^n], every gate [k] in [2, R],
    row [j] in [1, 2^n] and earlier gate [i] in [1, k-1], the model that
    [make_circuit_lp] writes has exactly two constraints that tie
    [r.i.k.j] to [v.i.k]; they read [p.i.j + v.i.k - r.i.k.j <= 1] and
    [p.i.j + v.i.k - 2*r.i.k.j >= 0], and on 0/1 values they hold together
    exactly when [r.i.k.j] is the product of [p.i.j] and [v.i.k], that is,
    when [r.i.k.j = 1] if and only if both are 1. *)
Theorem and_linearization (truth gates : string) (filename : option string)
  (n i k j : nat) :
  String.length truth = (2 ^ n)%nat ->
  bit_string truth = true ->
  (2 <= k <= List.length (gate_markers gates))%nat ->
  (1 <= j <= 2 ^ n)%nat ->
  (1 <= i <= k - 1)%nat ->
  exists M c1 c2,
    make_circuit_lp truth gates filename = Done (lp_path filename) M /\
    filter (ties i k j) (constrs M) = [c1; c2] /\
    (forall a, holds a c1 <->
               a (Var_p i j) + a (Var_v i k) - a (Var_r i k j) <= 1) /\
    (forall a, holds a c2 <->
               a (Var_p i j) + a (Var_v i k) - 2 * a (Var_r i k j) >= 0) /\
    (forall a,
        (a (Var_p i j) = 0 \/ a (Var_p i j) = 1) ->
        (a (Var_v i k) = 0 \/ a (Var_v i k) = 1) ->
        (a (Var_r i k j) = 0 \/ a (Var_r i k j) = 1) ->
        (holds a c1 /\ holds a c2 <->
         a (Var_r i k j) = a (Var_p i j) * a (Var_v i k)) /\
        (holds a c1 -> holds a c2 ->
         (a (Var_r i k j) = 1 <-> a (Var_p i j) = 1 /\ a (Var_v i k) = 1))).
Proof.
  intros Hlen Hbits Hk Hj Hi.
  exists (circuit_model n (truth_bits truth) (gate_markers gates)),
         (and_up i k j), (and_down i k j).
  split; [apply make_circuit_lp_done; assumption|].
  split.
  { rewrite constrs_circuit_model, !filter_app.
    rewrite ties_gate_constrs, ties_final_constrs, ties_fanin_constrs.
    rewrite ties_and_constrs by assumption. reflexivity. }
  split; [intros a; apply holds_and_up|].
  split; [intros a; apply holds_and_down|].
  intros a Hp Hv Hr. rewrite holds_and_up, holds_and_down.
  split; [split|]; intros; destruct Hp as [Hp|Hp], Hv as [Hv|Hv],
    Hr as [Hr|Hr]; rewrite ?Hp, ?Hv, ?Hr in *; lia.
Qed.

Lemma and_linearization_witness :
  exists M c1 c2,
    make_circuit_lp "01" "NOT NAND" None = Done "circuit.lp" M /\
    filter (ties 1 2 2) (constrs M) = [c1; c2] /\
    (forall a, holds a c1 <->
               a (Var_p 1 2) + a (Var_v 1 2) - a (Var_r 1 2 2) <= 1) /\
    (forall a, holds a c2 <->
               a (Var_p 1 2) + a (Var_v 1 2) - 2 * a (Var_r 1 2 2) >= 0) /\
    (forall a,
        (a (Var_p 1 2) = 0 \/ a (Var_p 1 2) = 1) ->
        (a (Var_v 1 2) = 0 \/ a (Var_v 1 2) = 1) ->
        (a (Var_r 1 2 2) = 0 \/ a (Var_r 1 2 2) = 1) ->
        (holds a c1 /\ holds a c2 <->
         a (Var_r 1 2 2) = a (Var_p 1 2) * a (Var_v 1 2)) /\
        (holds a c1 -> holds a c2 ->
         (a (Var_r 1 2 2) = 1 <-> a (Var_p 1 2) = 1 /\ a (Var_v 1 2) = 1))).
Proof.
  apply (and_linearization "01" "NOT NAND" None 1 1 2 2);
    [reflexivity | reflexivity | simpl; lia | simpl; lia | simpl; lia].
Defined.

(** ** The variables of the model *)

Lemma vars_circuit_model (n : nat) (truth gates : list Z) :
  vars (circuit_model n truth gates) =
  List.concat (alloc_U n (List.length gates)) ++
  List.concat (alloc_V (List.length gates)) ++
  List.concat (alloc_P n (List.length gates)) ++
  List.concat (List.concat (alloc_r n (List.length gates))).
Proof. cbn. rewrite <- !app_assoc. reflexivity. Qed.

Lemma in_concat_map {X Y : Type} (f : X -> list Y) (l : list X) (x : X)
  (y : Y) :
  In x l -> In y (f x) -> In y (List.concat (map f l)).
Proof.
  intros Hx Hy. apply in_concat. exists (f x). split; [|exact Hy].
  apply in_map. exact Hx.
Qed.

Lemma in_alloc_U (n R el k : nat) :
  (1 <= el <= n)%nat -> (1 <= k <= R)%nat ->
  In (Var_u el k) (List.concat (alloc_U n R)).
Proof.
  intros He Hk. unfold alloc_U, range.
  apply (in_concat_map _ _ el); [apply in_seq; lia|].
  apply (in_map (fun k0 => Var_u el k0)). apply in_seq. lia.
Qed.

Lemma in_alloc_P (n R k j : nat) :
  (1 <= k <= R - 1)%nat -> (1 <= j <= 2 ^ n)%nat ->
  In (Var_p k j) (List.concat (alloc_P n R)).
Proof.
  intros Hk Hj. unfold alloc_P, range.
  apply (in_concat_map _ _ k); [apply in_seq; lia|].
  apply (in_map (fun j0 => Var_p k j0)). apply in_seq. lia.
Qed.

Lemma in_alloc_r (n R i k j : nat) :
  (1 <= k <= R)%nat -> (1 <= i <= k - 1)%nat -> (1 <= j <= 2 ^ n)%nat ->
  In (Var_r i k j) (List.concat (List.concat (alloc_r n R))).
Proof.
  intros Hk Hi Hj. apply in_concat.
  exists (map (fun j0 => Var_r i k j0) (seq 1 (2 ^ n + 1 - 1))). split.
  - unfold alloc_r, range.
    apply (in_concat_map _ _ k); [apply in_seq; lia|].
    apply (in_map (fun i0 => map (fun j0 => Var_r i0 k j0)
                                 (seq 1 (2 ^ n + 1 - 1)))).
    apply in_seq. lia.
  - apply (in_map (fun j0 => Var_r i k j0)). apply in_seq. lia.
Qed.

(** ** Bounds on sums of 0/1 values *)

Lemma sumZ_bounds {X : Type} (f : X -> Z) (l : list X) :
  (forall x, In x l -> 0 <= f x <= 1) ->
  0 <= sumZ (map f l) <= Z.of_nat (List.length l).
Proof.
  induction l as [|x l IH]; intros H; cbn [map sumZ fold_right List.length].
  - lia.
  - fold (sumZ (map f l)). pose proof (H x (or_introl eq_refl)).
    assert (0 <= sumZ (map f l) <= Z.of_nat (List.length l))
      by (apply IH; intros y Hy; apply H; right; exact Hy).
    lia.
Qed.

Lemma tbl_cases (j e : nat) : tbl j e = 0 \/ tbl j e = 1.
Proof. unfold tbl. destruct (Nat.testbit j e); auto. Qed.

Lemma input_val_bounds (n R : nat) (M : Model) (a : assignment) (k j : nat) :
  (forall x, In x (vars M) -> a x = 0 \/ a x = 1) ->
  (forall el, (1 <= el <= n)%nat -> In (Var_u el k) (vars M)) ->
  (forall i, (1 <= i <= k - 1)%nat -> In (Var_r i k j) (vars M)) ->
  0 <= input_val n a k j <= Z.of_nat n + Z.of_nat (k - 1).
Proof.
  intros Hbin Hu Hr. unfold input_val.
  pose proof (sumZ_bounds (fun el => tbl (j - 1) (el - 1) * a (Var_u el k))
                          (seq 1 n)) as H1.
  pose proof (sumZ_bounds (fun i => a (Var_r i k j)) (seq 1 (k - 1))) as H2.
  rewrite length_seq in H1, H2.
  assert (forall x, In x (seq 1 n) ->
            0 <= tbl (j - 1) (x - 1) * a (Var_u x k) <= 1) as G1.
  { intros el Hel. apply in_seq_1 in Hel.
    destruct (tbl_cases (j - 1) (el - 1)) as [E|E], (Hbin _ (Hu el Hel)) as [F|F];
      rewrite E, F; lia. }
  assert (forall x, In x (seq 1 (k - 1)) -> 0 <= a (Var_r x k j) <= 1) as G2.
  { intros i Hi. apply in_seq_1 in Hi. destruct (Hbin _ (Hr i Hi)); lia. }
  specialize (H1 G1). specialize (H2 G2). lia.
Qed.

(** *** Which constraints weigh [p.k.j] by the big-M constant *)

Lemma carries_in (x : var) (w : Z) (c : Constr) (t : Z * var) :
  In t (terms (expr c)) -> snd t = x -> Z.abs (fst t) = w ->
  carries x w c = true.
Proof.
  intros Hin Hx Hw. unfold carries. apply existsb_exists. exists t.
  split; [exact Hin|]. apply andb_true_iff. split.
  - apply var_eqb_eq. symmetry. exact Hx.
  - apply Z.eqb_eq. exact Hw.
Qed.

Lemma carries_other_weight (x : var) (w : Z) (c : Constr) :
  (forall t, In t (terms (expr c)) -> snd t = x -> Z.abs (fst t) <> w) ->
  carries x w c = false.
Proof.
  intros H. destruct (carries x w c) eqn:E; [|reflexivity]. exfalso.
  unfold carries in E. apply existsb_exists in E. destruct E as [t [Ht E]].
  apply andb_true_iff in E. destruct E as [E1 E2].
  apply var_eqb_eq in E1. apply Z.eqb_eq in E2.
  exact (H t Ht (eq_sym E1) E2).
Qed.

Lemma big_A_nonneg (n R : nat) : 0 <= big_A n R.
Proof. unfold big_A. lia. Qed.

Lemma carries_gate_self (n R : nat) (gates : list Z) (k j : nat) :
  (1 <= R)%nat ->
  filter (carries (Var_p k j) (big_A n R))
         [gate_on n R gates k j; gate_off n R gates k j]
  = [gate_on n R gates k j; gate_off n R gates k j].
Proof.
  intros HR. pose proof (big_A_nonneg n R) as HA.
  assert (carries (Var_p k j) (big_A n R) (gate_on n R gates k j) = true) as H1.
  { apply (carries_in _ _ _ (-1 * (-1 * (big_A n R * (-1 * 1))), Var_p k j));
      [| reflexivity | cbn [fst]; lia].
    unfold gate_on, ge, le_sub, le_add. cbn [expr terms].
    apply in_or_app. right. left. reflexivity. }
  assert (carries (Var_p k j) (big_A n R) (gate_off n R gates k j) = true) as H2.
  { apply (carries_in _ _ _ (-1 * (-1 * big_A n R), Var_p k j));
      [| reflexivity | cbn [fst]; lia].
    unfold gate_off, ge, le_sub, le_add, le_term. cbn [expr terms].
    apply in_or_app. right.
    destruct (Z.eqb_spec (big_A n R) 0) as [E|_]; [unfold big_A in E; lia|].
    left. reflexivity. }
  cbn [filter]. rewrite H1, H2. reflexivity.
Qed.

Lemma carries_gate_other (n R : nat) (gates : list Z) (k j k' j' : nat) (w : Z) :
  (k', j') <> (k, j) ->
  filter (carries (Var_p k j) w)
         [gate_on n R gates k' j'; gate_off n R gates k' j'] = [].
Proof.
  intros Hne. apply filter_none. intros c Hc. apply carries_out. intros Hx.
  apply (in_cvars_gate n R gates k' j') in Hx;
    [|destruct Hc as [E|[E|[]]]; subst c; auto].
  destruct Hx as [H|H].
  - apply in_input_vars in H. destruct H as [[? E]|[? E]]; discriminate.
  - inversion H; subst. apply Hne. reflexivity.
Qed.

Lemma carries_gate_constrs (n R : nat) (gates : list Z) (k j : nat) :
  (1 <= k <= R - 1)%nat -> (1 <= j <= 2 ^ n)%nat ->
  filter (carries (Var_p k j) (big_A n R)) (gate_constrs n R gates)
  = [gate_on n R gates k j; gate_off n R gates k j].
Proof.
  intros Hk Hj. unfold gate_constrs. rewrite flat_map_product. cbn [fst snd].
  rewrite (filter_flat_map_one _ _ _ k);
    [| apply seq_NoDup | apply in_seq_1; lia |].
  - rewrite (filter_flat_map_one _ _ _ j);
      [apply carries_gate_self; lia | apply seq_NoDup | apply in_seq_1; lia |].
    intros j' _ Hne. apply carries_gate_other. congruence.
  - intros k' _ Hne. apply filter_flat_map_none. intros j' _.
    apply carries_gate_other. congruence.
Qed.

Lemma carries_final_constrs (n R : nat) (gates truth : list Z) (k j : nat)
  (w : Z) :
  filter (carries (Var_p k j) w) (final_constrs n R gates truth) = [].
Proof.
  apply filter_none. intros c Hc. unfold final_constrs in Hc.
  apply in_map_iff in Hc. destruct Hc as [jv [E _]]. subst c.
  apply carries_out. rewrite cvars_final_constr. intros H.
  apply in_input_vars in H. destruct H as [[? E]|[? E]]; discriminate.
Qed.

Lemma carries_fanin_constrs (n R : nat) (gates : list Z) (k j : nat) (w : Z) :
  filter (carries (Var_p k j) w) (fanin_constrs n R gates) = [].
Proof.
  apply filter_none. intros c Hc. unfold fanin_constrs in Hc.
  apply in_map_iff in Hc. destruct Hc as [k' [E _]]. subst c.
  apply carries_out.
  rewrite cvars_fanin_constr, in_app_iff, !in_map_iff.
  intros [[? [E _]]|[? [E _]]]; discriminate.
Qed.

Lemma carries_and_constrs (n R k j : nat) (w : Z) :
  2 <= w -> filter (carries (Var_p k j) w) (and_constrs n R) = [].
Proof.
  intros Hw. apply filter_none. intros c Hc. unfold and_constrs in Hc.
  apply in_flat_map in Hc. destruct Hc as [[k' j'] [_ Hc]].
  apply in_flat_map in Hc. destruct Hc as [i' [_ Hc]]. cbn [fst snd] in Hc.
  apply carries_other_weight. intros t Ht Hx.
  destruct Hc as [E|[E|[]]]; subst c; cbn in Ht;
    destruct Ht as [E|[E|[E|[]]]]; subst t; cbn [fst snd] in *;
    try discriminate; lia.
Qed.

Lemma gate_pair_forces (g A0 S p : Z) (hi : Z) :
  (g = 0 \/ g = -1) -> (p = 0 \/ p = 1) ->
  0 <= S <= hi -> hi + 1 <= A0 -> 2 <= A0 ->
  (g - A0 * (1 - p) <= - S /\ 1 - g - A0 * p <= S) <-> p = gate_output g S.
Proof.
  intros Hg Hp HS HA HA2. unfold gate_output.
  destruct Hg as [Hg|Hg], Hp as [Hp|Hp]; subst g p; cbn [Z.eqb];
    destruct (Z.eqb_spec S 0); destruct (Z.ltb_spec S 2); nia.
Qed.

(** C2. For every truth string of length [2^n], every non-final gate [k]
    in [1, R-1] and row [j] in [1, 2^n], the model that [make_circuit_lp]
    writes has exactly two constraints that weigh [p.k.j] by the big-M
    constant [A = n + R]: one reads
    [-(Sum_e table[j][e]*u[e][k] + Sum_{i<k} r[i][k][j]) >= marker(k) - A*(1 - p.k.j)],
    the other
    [Sum_e table[j][e]*u[e][k] + Sum_{i<k} r[i][k][j] >= 1 - marker(k) - A*p.k.j];
    on the 0/1 values of the model's variables they hold together exactly
    when [p.k.j] is the output of gate [k] on that sum, so every feasible
    assignment gives [p.k.j] that value. *)
Theorem gate_big_M_pair (truth gates : string) (filename : option string)
  (n k j : nat) :
  String.length truth = (2 ^ n)%nat ->
  bit_string truth = true ->
  (1 <= k <= List.length (gate_markers gates) - 1)%nat ->
  (1 <= j <= 2 ^ n)%nat ->
  let R := List.length (gate_markers gates) in
  let A := Z.of_nat n + Z.of_nat R in
  let g := marker_of (gate_markers gates) k in
  exists M c1 c2,
    make_circuit_lp truth gates filename = Done (lp_path filename) M /\
    filter (carries (Var_p k j) A) (constrs M) = [c1; c2] /\
    (forall a, holds a c1 <->
               g - A * (1 - a (Var_p k j)) <= - input_val n a k j) /\
    (forall a, holds a c2 <->
               1 - g - A * a (Var_p k j) <= input_val n a k j) /\
    (forall a, (forall x, In x (vars M) -> a x = 0 \/ a x = 1) ->
               (holds a c1 /\ holds a c2 <->
                a (Var_p k j) = gate_output g (input_val n a k j))) /\
    (forall a, feasible a M ->
               a (Var_p k j) = gate_output g (input_val n a k j)).
Proof.
  intros Hlen Hbits Hk Hj R A g.
  set (M := circuit_model n (truth_bits truth) (gate_markers gates)).
  assert (In (gate_on n R (gate_markers gates) k j) (constrs M) /\
          In (gate_off n R (gate_markers gates) k j) (constrs M)) as [Hin1 Hin2].
  { unfold M. rewrite constrs_circuit_model.
    destruct (in_gate_constrs n R (gate_markers gates) k j Hk Hj).
    split; apply in_or_app; left; assumption. }
  assert (forall a, (forall x, In x (vars M) -> a x = 0 \/ a x = 1) ->
            (holds a (gate_on n R (gate_markers gates) k j) /\
             holds a (gate_off n R (gate_markers gates) k j) <->
             a (Var_p k j) = gate_output g (input_val n a k j))) as Hiff.
  { intros a Hbin. rewrite holds_gate_on, holds_gate_off.
    assert (forall x, In x (vars M) -> In x (vars M)) as _ by auto.
    apply (gate_pair_forces _ _ _ _ (Z.of_nat n + Z.of_nat (k - 1))).
    - apply marker_of_cases.
    - apply Hbin. unfold M. rewrite vars_circuit_model.
      apply in_or_app. right. apply in_or_app. right. apply in_or_app. left.
      apply in_alloc_P; assumption.
    - apply (input_val_bounds n R M); [exact Hbin| |].
      + intros el Hel. unfold M. rewrite vars_circuit_model.
        apply in_or_app. left. apply in_alloc_U; [exact Hel | fold R; lia].
      + intros i Hi. unfold M. rewrite vars_circuit_model.
        do 3 (apply in_or_app; right).
        apply in_alloc_r; [fold R; lia | exact Hi | exact Hj].
    - unfold big_A. fold R in Hk. lia.
    - unfold big_A. fold R in Hk. lia. }
  exists M, (gate_on n R (gate_markers gates) k j),
         (gate_off n R (gate_markers gates) k j).
  split; [apply make_circuit_lp_done; assumption|].
  split.
  { unfold M. rewrite constrs_circuit_model, !filter_app. fold R.
    change A with (big_A n R).
    rewrite carries_gate_constrs by assumption.
    rewrite carries_final_constrs, carries_fanin_constrs.
    rewrite carries_and_constrs; [reflexivity|].
    unfold big_A. fold R in Hk. lia. }
  split; [intros a; apply holds_gate_on|].
  split; [intros a; apply holds_gate_off|].
  split; [exact Hiff|].
  intros a [Hbin Hall]. apply Hiff; [exact Hbin|].
  split; apply Hall; assumption.
Qed.

Lemma gate_big_M_pair_witness :
  exists M c1 c2,
    make_circuit_lp "01" "NOT NAND" None = Done "circuit.lp" M /\
    filter (carries (Var_p 1 2) 3) (constrs M) = [c1; c2] /\
    (forall a, holds a c1 <-> 0 - 3 * (1 - a (Var_p 1 2)) <= - input_val 1 a 1 2) /\
    (forall a, holds a c2 <-> 1 - 0 - 3 * a (Var_p 1 2) <= input_val 1 a 1 2) /\
    (forall a, (forall x, In x (vars M) -> a x = 0 \/ a x = 1) ->
               (holds a c1 /\ holds a c2 <->
                a (Var_p 1 2) = gate_output 0 (input_val 1 a 1 2))) /\
    (forall a, feasible a M ->
               a (Var_p 1 2) = gate_output 0 (input_val 1 a 1 2)).
Proof.
  apply (gate_big_M_pair "01" "NOT NAND" None 1 1 2);
    [reflexivity | reflexivity | simpl; lia | simpl; lia].
Defined.

(** C4. For every truth string of length [2^n] and every gate [k] in
    [1, R], the model that [make_circuit_lp] writes contains the constraint
    [Sum_e u[e][k] + Sum_{i<k} v[i][k] <= 1 - marker(k)]; hence in every
    feasible assignment a NOT gate (marker 0) has at most 1 incoming
    connection and a NAND gate (marker -1) at most 2. *)
Theorem fanin_cap (truth gates : string) (filename : option string)
  (n k : nat) :
  String.length truth = (2 ^ n)%nat ->
  bit_string truth = true ->
  (1 <= k <= List.length (gate_markers gates))%nat ->
  let g := marker_of (gate_markers gates) k in
  exists M c,
    make_circuit_lp truth gates filename = Done (lp_path filename) M /\
    In c (constrs M) /\
    (forall a, holds a c <-> fan_in n a k <= 1 - g) /\
    (g = 0 \/ g = -1) /\
    (forall a, feasible a M ->
               (g = 0 -> fan_in n a k <= 1) /\ (g = -1 -> fan_in n a k <= 2)).
Proof.
  intros Hlen Hbits Hk g.
  set (M := circuit_model n (truth_bits truth) (gate_markers gates)).
  assert (In (fanin_constr n (gate_markers gates) k) (constrs M)) as Hin.
  { unfold M. rewrite constrs_circuit_model. do 3 (apply in_or_app; right).
    apply in_fanin_constrs. exact Hk. }
  exists M, (fanin_constr n (gate_markers gates) k).
  split; [apply make_circuit_lp_done; assumption|].
  split; [exact Hin|].
  split; [intros a; apply holds_fanin_constr|].
  split; [apply marker_of_cases|].
  intros a [_ Hall]. specialize (Hall _ Hin).
  apply holds_fanin_constr in Hall. fold g in Hall. lia.
Qed.

Lemma fanin_cap_witness :
  exists M c,
    make_circuit_lp "01" "NOT NAND" None = Done "circuit.lp" M /\
    In c (constrs M) /\
    (forall a, holds a c <-> fan_in 1 a 2 <= 1 - -1) /\
    (-1 = 0 \/ -1 = -1) /\
    (forall a, feasible a M ->
               (-1 = 0 -> fan_in 1 a 2 <= 1) /\ (-1 = -1 -> fan_in 1 a 2 <= 2)).
Proof.
  apply (fanin_cap "01" "NOT NAND" None 1 2);
    [reflexivity | reflexivity | simpl; lia].
Defined.

(** ** The final gate *)

(** C1. On the truth string 01 with the gates NOT NAND the final gate, gate
    2, is a NAND gate (marker -1), yet its two constraints are bounded by
    the marker 0 of gate 1: row 1 (target 0) asks for an input sum of at
    least [1 - 0] and row 2 (target 1) for a negated sum of at least [0].
    The model then accepts the wiring [not_then_nand], whose NAND gate puts
    out 1 on row 1, where the target is 0; the bound [1 - (-1)] of the
    gate's own marker rejects it. *)
Theorem final_gate_reads_stale_marker :
  exists M,
    make_circuit_lp "01" "NOT NAND" None = Done "circuit.lp" M /\
    gate_markers "NOT NAND" = [0; -1] /\
    truth_bits "01" = [0; 1] /\
    (forall a, holds a (nth 4 (constrs M) (ge (le_const 0) (le_const 0))) <->
               1 - 0 <= input_val 1 a 2 1) /\
    (forall a, holds a (nth 5 (constrs M) (ge (le_const 0) (le_const 0))) <->
               0 <= - input_val 1 a 2 2) /\
    feasible not_then_nand M /\
    gate_output (-1) (input_val 1 not_then_nand 2 1) = 1 /\
    ~ (1 - -1 <= input_val 1 not_then_nand 2 1).
Proof.
  exists (circuit_model 1 (truth_bits "01") (gate_markers "NOT NAND")).
  split; [apply (make_circuit_lp_done "01" "NOT NAND" None 1); reflexivity|].
  split; [reflexivity|]. split; [reflexivity|].
  split.
  { intros a.
    change (nth 4 (constrs (circuit_model 1 (truth_bits "01")
                                          (gate_markers "NOT NAND"))) _)
      with (final_constr 1 2 [0; -1] 1 0).
    rewrite holds_final_constr. reflexivity. }
  split.
  { intros a.
    change (nth 5 (constrs (circuit_model 1 (truth_bits "01")
                                          (gate_markers "NOT NAND"))) _)
      with (final_constr 1 2 [0; -1] 2 1).
    rewrite holds_final_constr. reflexivity. }
  split.
  { split.
    - intros x Hx. vm_compute in Hx.
      repeat (destruct Hx as [Hx|Hx]; [subst x; vm_compute; auto|]).
      destruct Hx.
    - intros c Hc. vm_compute in Hc.
      repeat (destruct Hc as [Hc|Hc]; [subst c; vm_compute; reflexivity|]).
      destruct Hc. }
  split; [reflexivity|]. vm_compute. intros H. apply H. reflexivity.
Qed.

(** ** The assignment matrix, entry by entry *)

Lemma product01_rows (n : nat) :
  product01 n = map (fun j => rev (row_bits n j)) (seq 0 (2 ^ n)).
Proof.
  rewrite <- (map_id (product01 n)).
  rewrite (map_ext _ (fun row => rev (rev row))) by (intros; symmetry; apply rev_involutive).
  rewrite <- (map_map (@rev Z) (@rev Z)). fold (fliplr (product01 n)).
  rewrite table_rows, map_map. reflexivity.
Qed.

Lemma product01_index2 (n j e : nat) :
  (j < 2 ^ n)%nat -> (e < n)%nat ->
  index2 (product01 n) j e = Ok (tbl j (n - 1 - e)).
Proof.
  intros Hj He. unfold index2. rewrite product01_rows.
  rewrite index_map_seq by exact Hj. cbn [bind Nat.add].
  unfold index. rewrite nth_error_rev. unfold row_bits.
  rewrite length_map, length_seq.
  destruct (Nat.ltb_spec e n); [|lia].
  fold (index (map (tbl j) (seq 0 n)) (n - S e)).
  rewrite index_map_seq by lia. do 2 f_equal. lia.
Qed.

(** C5, as the code has it.  For every [n], the assignment matrix is the
    product [{0,1}^n] in lexicographic order with the columns reversed; it
    has [2^n] rows; before the reversal column [e] (from 0) of row [j]
    (from 0) is bit [n-1-e] of [j], after it bit [e]: column 1 of the
    matrix holds the least significant bit of the row number and column
    [n] the most significant. *)
Theorem table_entry (n j e : nat) :
  (j < 2 ^ n)%nat -> (e < n)%nat ->
  List.length (fliplr (product01 n)) = (2 ^ n)%nat /\
  index2 (product01 n) j e = Ok (if Nat.testbit j (n - 1 - e) then 1 else 0) /\
  index2 (fliplr (product01 n)) j e = Ok (if Nat.testbit j e then 1 else 0) /\
  index (fliplr (product01 n)) j
  = Ok (map (fun e' => if Nat.testbit j e' then 1 else 0) (seq 0 n)).
Proof.
  intros Hj He. split; [|split; [|split]].
  - rewrite table_rows, length_map, length_seq. reflexivity.
  - apply product01_index2; assumption.
  - apply table_index2; assumption.
  - rewrite table_rows, index_map_seq by exact Hj. reflexivity.
Qed.

Lemma table_entry_witness :
  List.length (fliplr (product01 2)) = (2 ^ 2)%nat /\
  index2 (product01 2) 1 0 = Ok (if Nat.testbit 1 (2 - 1 - 0) then 1 else 0) /\
  index2 (fliplr (product01 2)) 1 0 = Ok (if Nat.testbit 1 0 then 1 else 0) /\
  index (fliplr (product01 2)) 1
  = Ok (map (fun e' => if Nat.testbit 1 e' then 1 else 0) (seq 0 2)).
Proof. apply (table_entry 2 1 0); simpl; lia. Defined.

(** Column 1 is not the most significant bit: for two inputs, row 2 (row
    number 1, binary 01) has 1 in column 1. *)
Lemma table_column1_not_msb :
  ~ (forall n j, (1 <= n)%nat -> (j < 2 ^ n)%nat ->
        index2 (fliplr (product01 n)) j 0
        = Ok (if Nat.testbit j (n - 1) then 1 else 0)).
Proof.
  intros H. specialize (H 2%nat 1%nat). 
  assert (index2 (fliplr (product01 2)) 1 0 = Ok 0) as E
    by (apply H; simpl; lia).
  vm_compute in E. discriminate E.
Qed.

(** ** A truth string whose length is not a power of two *)

Lemma enumerate_from_app {X : Type} (l1 l2 : list X) (a : nat) :
  combine (seq a (List.length (l1 ++ l2))) (l1 ++ l2) =
  combine (seq a (List.length l1)) l1 ++
  combine (seq (a + List.length l1) (List.length l2)) l2.
Proof.
  revert a. induction l1 as [|x l1 IH]; intros a; cbn [List.length app seq combine].
  - rewrite Nat.add_0_r. reflexivity.
  - rewrite IH.
    replace (a + S (List.length l1))%nat with (S a + List.length l1)%nat by lia.
    reflexivity.
Qed.

Lemma enumerate_app {X : Type} (l1 l2 : list X) :
  enumerate (l1 ++ l2) =
  enumerate l1 ++ combine (seq (List.length l1) (List.length l2)) l2.
Proof. unfold enumerate. apply (enumerate_from_app l1 l2 0). Qed.

Lemma ext_sum_beyond (n R j k : nat) :
  (1 <= n)%nat -> (2 ^ n <= j)%nat ->
  ext_sum n (fliplr (product01 n)) (alloc_U n R) j k = Raise IndexError.
Proof.
  intros Hn Hj. unfold ext_sum. rewrite range_succ.
  destruct n as [|n']; [lia|]. cbn [seq].
  rewrite (mapM_raise_head _ _ _ IndexError); [reflexivity|].
  rewrite table_index2_beyond by exact Hj. reflexivity.
Qed.

Lemma final_body_beyond (n R : nat) (gates : list Z) (j : nat) (val : Z)
  (s : LoopState) :
  (1 <= n)%nat -> (2 ^ n <= j)%nat ->
  final_body n R (fliplr (product01 n)) gates (alloc_U n R) (alloc_r n R)
             (j, val) s
  = Failed IndexError s.
Proof.
  intros Hn Hj. unfold final_body. cbn [fst snd].
  rewrite ext_sum_beyond by assumption. destruct (val =? 1); reflexivity.
Qed.

Lemma constrain_stuck (n : nat) (truth gates : list Z) (s : LoopState) :
  (1 <= n)%nat -> (1 <= List.length gates)%nat ->
  (2 ^ n < List.length truth)%nat ->
  k_var s = Some (List.length gates) ->
  constrain n (List.length gates) truth gates s
  = Failed IndexError
      (push (gate_constrs n (List.length gates) gates ++
             final_constrs n (List.length gates) gates (firstn (2 ^ n) truth))
            (Some (stale_k (List.length gates))) s).
Proof.
  intros Hn HR Hlen Hs. unfold constrain. fold (big_A n (List.length gates)).
  rewrite (gate_loop_done n _ gates eq_refl HR) by exact Hs.
  rewrite <- (firstn_skipn (2 ^ n) truth) at 1.
  assert (List.length (firstn (2 ^ n) truth) = (2 ^ n)%nat) as Hfirst
    by (rewrite length_firstn; lia).
  destruct (skipn (2 ^ n) truth) as [|x rest] eqn:Hskip.
  { pose proof (length_skipn (2 ^ n) truth) as Hl. rewrite Hskip in Hl.
    cbn [List.length] in Hl. lia. }
  rewrite enumerate_app, forM_app.
  rewrite (final_loop_done n _ gates (firstn (2 ^ n) truth) eq_refl HR)
    by (exact Hfirst || reflexivity).
  cbn [List.length seq combine forM].
  rewrite final_body_beyond by (exact Hn || lia).
  rewrite push_push. reflexivity.
Qed.

Lemma string_length_0 (s : string) : String.length s = 0%nat -> s = EmptyString.
Proof. destruct s; [reflexivity | discriminate]. Qed.

Lemma make_circuit_lp_bad_length (truth gates : string)
  (filename : option string) :
  bit_string truth = true ->
  (forall m, String.length truth <> (2 ^ m)%nat) ->
  truth <> EmptyString ->
  make_circuit_lp truth gates filename
  = Failed IndexError
      (stuck_model (Nat.log2 (String.length truth)) (truth_bits truth)
                   (gate_markers gates)).
Proof.
  intros Hbits Hlen Hne.
  assert (0 < String.length truth)%nat as Hpos.
  { destruct truth; [congruence | simpl; lia]. }
  pose proof (Nat.log2_spec _ Hpos) as [Hlo Hhi].
  pose proof (Hlen (Nat.log2 (String.length truth))) as Hn2.
  assert (1 <= Nat.log2 (String.length truth))%nat as Hn.
  { destruct (Nat.log2 (String.length truth)); [simpl in *; lia | lia]. }
  unfold make_circuit_lp, int_log2.
  destruct (String.length truth) as [|len'] eqn:El; [lia|]. rewrite <- El.
  rewrite parse_truth by exact Hbits. fold (gate_markers gates).
  rewrite constrain_stuck.
  - reflexivity.
  - rewrite El. exact Hn.
  - apply gate_markers_length.
  - rewrite truth_bits_length. rewrite El in *. lia.
  - apply k_after_alloc_eq, gate_markers_length.
Qed.

(** C6, as the code has it.  There is no validation of the length.  For a
    truth string of 0/1 characters whose length is not a power of two the
    call raises and writes no file: the empty string raises
    [OverflowError] before any variable is added; every other string has
    all the variables for [n = floor(log2(length))] inputs added, the gate
    constraints and the final-gate constraints of the first [2^n] rows
    emitted, and then raises [IndexError] at row [2^n + 1].
    [solve_circuit_lp] passes the exception on without any effect. *)
Theorem bad_length_raises (truth gates : string) (filename : option string) :
  bit_string truth = true ->
  (forall m, String.length truth <> (2 ^ m)%nat) ->
  let n := Nat.log2 (String.length truth) in
  let R := List.length (gate_markers gates) in
  exists e M,
    make_circuit_lp truth gates filename = Failed e M /\
    (forall path_exists read_lines verbose delete_lp delete_log,
        solve_circuit_lp path_exists read_lines truth gates filename verbose
                         delete_lp delete_log = ([], Raise e)) /\
    ((truth = EmptyString /\ e = OverflowError /\ M = empty_model) \/
     (truth <> EmptyString /\ e = IndexError /\
      vars M = vars (allocate n R) /\ In (Var_u 1 1) (vars M) /\
      constrs M = gate_constrs n R (gate_markers gates) ++
                  final_constrs n R (gate_markers gates)
                                (firstn (2 ^ n) (truth_bits truth)))).
Proof.
  intros Hbits Hlen n R.
  destruct (string_dec truth EmptyString) as [E|Hne].
  - subst truth. exists OverflowError, empty_model.
    split; [reflexivity|]. split; [reflexivity|]. left. auto.
  - exists IndexError,
      (stuck_model n (truth_bits truth) (gate_markers gates)).
    split; [apply make_circuit_lp_bad_length; assumption|].
    split.
    { intros. unfold solve_circuit_lp.
      rewrite make_circuit_lp_bad_length by assumption. reflexivity. }
    right. split; [exact Hne|]. split; [reflexivity|].
    split; [reflexivity|]. split; [|reflexivity].
    change (vars (stuck_model n (truth_bits truth) (gate_markers gates)))
      with (vars (circuit_model n (truth_bits truth) (gate_markers gates))).
    rewrite vars_circuit_model. apply in_or_app. left.
    assert (0 < String.length truth)%nat as Hpos.
    { destruct truth; [congruence | simpl; lia]. }
    pose proof (Nat.log2_spec _ Hpos) as [Hlo Hhi].
    pose proof (Hlen n) as Hn2. pose proof (gate_markers_length gates).
    apply in_alloc_U; [|lia].
    fold n in Hlo, Hhi. destruct n; [simpl in *; lia | lia].
Qed.

Lemma bad_length_raises_witness :
  exists e M,
    make_circuit_lp "011" "NOT NAND" None = Failed e M /\
    (forall path_exists read_lines verbose delete_lp delete_log,
        solve_circuit_lp path_exists read_lines "011" "NOT NAND" None verbose
                         delete_lp delete_log = ([], Raise e)) /\
    (("011" = EmptyString /\ e = OverflowError /\ M = empty_model) \/
     ("011" <> EmptyString /\ e = IndexError /\
      vars M = vars (allocate 1 2) /\ In (Var_u 1 1) (vars M) /\
      constrs M = gate_constrs 1 2 [0; -1] ++
                  final_constrs 1 2 [0; -1] (firstn (2 ^ 1) [0; 1; 1]))).
Proof.
  apply (bad_length_raises "011" "NOT NAND" None); [reflexivity|].
  intros m. simpl.
  destruct m as [|[|[|m]]]; simpl; lia.
Defined.

(** No validation comes before the allocation: on a truth string of length
    3 the exception is an [IndexError] of the final-gate loop, raised when
    the model has seven variables and six constraints. *)
Lemma bad_length_not_validated :
  exists M,
    make_circuit_lp "011" "NOT NAND" None = Failed IndexError M /\
    List.length (vars M) = 7%nat /\ List.length (constrs M) = 6%nat.
Proof. eexists. split; [vm_compute; reflexivity|]. split; reflexivity. Qed.

(** ** The decoder *)

Lemma length_append (s t : string) :
  String.length (s ++ t) = (String.length s + String.length t)%nat.
Proof. induction s as [|c s IH]; simpl; congruence. Qed.

Lemma rm_lp_not_rm_log (base : string) :
  ("rm " ++ base ++ ".lp")%string <> ("rm " ++ base ++ ".log")%string.
Proof.
  intros E. apply (f_equal String.length) in E.
  rewrite !length_append in E. cbn in E. lia.
Qed.

Lemma rm_not_scip (verbose : bool) (base arg : string) :
  ("rm " ++ arg)%string <> scip_cmd verbose base.
Proof. unfold scip_cmd. destruct verbose; cbn; discriminate. Qed.

Lemma decode_mapM (lines : list string) (connect : list (string * Z)) :
  decode lines connect =
  (es <- mapM line_entry (filter annotated lines) ;; Ok (connect ++ es)).
Proof.
  revert connect. induction lines as [|line rest IH]; intros connect.
  - cbn. rewrite app_nil_r. reflexivity.
  - cbn [decode filter]. fold (annotated line).
    destruct (annotated line); [|apply IH].
    cbn [mapM]. fold (line_entry line).
    destruct (line_entry line) as [e|x]; [|reflexivity]. cbn [bind].
    rewrite IH. destruct (mapM line_entry (filter annotated rest)); cbn [bind];
      [rewrite <- app_assoc|]; reflexivity.
Qed.

Lemma mapM_Forall2 {X Y : Type} (f : X -> result Y) (l : list X) (ys : list Y) :
  mapM f l = Ok ys -> Forall2 (fun x y => f x = Ok y) l ys.
Proof.
  revert ys. induction l as [|x l IH]; intros ys H; cbn [mapM] in H.
  - inversion H. constructor.
  - destruct (f x) as [y|e] eqn:Ex; [|discriminate]. cbn [bind] in H.
    destruct (mapM f l) as [ys'|e]; [|discriminate]. cbn [bind] in H.
    inversion H. subst. constructor; [exact Ex | apply IH; reflexivity].
Qed.

Lemma mapM_raise {X Y : Type} (f : X -> result Y) (l : list X) (e : exn) :
  mapM f l = Raise e -> exists x, In x l /\ f x = Raise e.
Proof.
  induction l as [|x l IH]; intros H; cbn [mapM] in H; [discriminate|].
  destruct (f x) as [y|e'] eqn:Ex; cbn [bind] in H.
  - destruct (mapM f l) as [ys|e'']; cbn [bind] in H; [discriminate|].
    destruct (IH H) as [x' [Hin Hx']]. exists x'. split; [right|]; assumption.
  - exists x. split; [left; reflexivity | congruence].
Qed.

Lemma entry_raises (line : list string) (e : exn) :
  entry line = Raise e -> e = IndexError \/ e = ValueError.
Proof.
  unfold entry, index, index_back, py_int, of_option.
  destruct (nth_error line 0); cbn [bind]; [|intros H; inversion H; auto].
  destruct (2 <=? List.length line)%nat; [|intros H; inversion H; auto].
  unfold index, of_option.
  destruct (nth_error line (List.length line - 2)); cbn [bind];
    [|intros H; inversion H; auto].
  match goal with
  | |- context [match ?o with Some _ => _ | None => _ end] => destruct o
  end; cbn [bind]; intros H; inversion H; auto.
Qed.

Lemma decode_not_annotated (lines : list string) :
  forallb (fun l => negb (annotated l)) lines = true -> decode lines [] = Ok [].
Proof.
  intros H. rewrite decode_mapM.
  assert (filter annotated lines = []) as ->; [|reflexivity].
  apply filter_none. intros l Hl. rewrite forallb_forall in H.
  apply negb_true_iff. apply H. exact Hl.
Qed.

Lemma decode_Ok (lines : list string) (connect : list (string * Z)) :
  decode lines [] = Ok connect ->
  mapM line_entry (filter annotated lines) = Ok connect.
Proof.
  rewrite decode_mapM.
  destruct (mapM line_entry (filter annotated lines)); cbn; congruence.
Qed.

Section Decoding.

Variable path_exists : list effect -> string -> bool.
Variable read_lines : list effect -> string -> option (list string).

Lemma solve_result (truth gates : string) (filename : option string)
  (verbose delete_lp delete_log : bool) (n : nat) (lines : list string) :
  String.length truth = (2 ^ n)%nat ->
  bit_string truth = true ->
  (forall h, read_lines h (normalize filename ++ ".log")%string = Some lines) ->
  snd (solve_circuit_lp path_exists read_lines truth gates filename verbose
                        delete_lp delete_log)
  = decode lines [].
Proof.
  intros Hlen Hbits Hlog. unfold solve_circuit_lp.
  rewrite (make_circuit_lp_done _ _ _ n) by assumption.
  rewrite Hlog. destruct (decode lines []); reflexivity.
Qed.

(** C7. When the model was built and the log the solver left has no line
    with the token [\t(obj:1)\n] (as when it reports no feasible
    solution), [solve_circuit_lp] returns the empty list; and whenever
    it returns a list, its elements are, one for one and in the order of
    the log, the entries [(line[0], int(line[-2]))] of the annotated
    lines. *)
Theorem solve_returns_annotated_lines (truth gates : string)
  (filename : option string) (verbose delete_lp delete_log : bool)
  (n : nat) (lines : list string) :
  String.length truth = (2 ^ n)%nat ->
  bit_string truth = true ->
  (forall h, read_lines h (normalize filename ++ ".log")%string = Some lines) ->
  let returned :=
    snd (solve_circuit_lp path_exists read_lines truth gates filename
                          verbose delete_lp delete_log) in
  (forallb (fun l => negb (annotated l)) lines = true -> returned = Ok []) /\
  (forall connect,
      returned = Ok connect ->
      Forall2 (fun line c => line_entry line = Ok c)
              (filter annotated lines) connect /\
      Forall (fun line => In line lines /\ annotated line = true)
             (filter annotated lines)).
Proof.
  intros Hlen Hbits Hlog returned. unfold returned.
  rewrite (solve_result _ _ _ _ _ _ n lines) by assumption.
  split; [apply decode_not_annotated|].
  intros connect H. split.
  - apply mapM_Forall2, decode_Ok. exact H.
  - apply Forall_forall. intros l Hl. apply filter_In. exact Hl.
Qed.

End Decoding.

Lemma solve_returns_annotated_lines_witness :
  (forallb (fun l => negb (annotated l))
           ["no solution available" ++ String NL EmptyString]%string = true ->
   snd (solve_circuit_lp
          (fun _ _ => false)
          (fun _ _ => Some ["no solution available" ++ String NL EmptyString]%string)
          "01" "NOT NAND" None false true true) = Ok []) /\
  (forall connect,
      snd (solve_circuit_lp
             (fun _ _ => false)
             (fun _ _ => Some ["no solution available" ++ String NL EmptyString]%string)
             "01" "NOT NAND" None false true true) = Ok connect ->
      Forall2 (fun line c => line_entry line = Ok c)
              (filter annotated
                      ["no solution available" ++ String NL EmptyString]%string)
              connect /\
      Forall (fun line =>
                In line ["no solution available" ++ String NL EmptyString]%string /\
                annotated line = true)
             (filter annotated
                     ["no solution available" ++ String NL EmptyString]%string)).
Proof.
  apply (solve_returns_annotated_lines (fun _ _ => false)
           (fun _ _ => Some ["no solution available" ++ String NL EmptyString]%string)
           "01" "NOT NAND" None false true true 1);
    [reflexivity | reflexivity | intros h; reflexivity].
Defined.

Lemma split_single (sep : ascii) (s w : string) :
  split sep s = [w] -> s = w.
Proof.
  revert w. induction s as [|c s IH]; intros w; cbn [split].
  - intros H. inversion H. reflexivity.
  - pose proof (split_length sep s) as L. destruct (Ascii.eqb c sep).
    + intros H. inversion H as [[H1 H2]]. rewrite H2 in L. simpl in L. lia.
    + destruct (split sep s) as [|w' ws] eqn:E; [simpl in L; lia|].
      intros H. inversion H. subst. f_equal. apply IH. reflexivity.
Qed.

Lemma py_int_raise (s : string) (e : exn) :
  py_int s = Raise e -> e = ValueError.
Proof.
  unfold py_int, of_option.
  match goal with
  | |- context [match ?o with Some _ => _ | None => _ end] => destruct o
  end; congruence.
Qed.

Lemma entry_raise_reason (toks : list string) (e : exn) :
  entry toks = Raise e ->
  (e = IndexError /\ (List.length toks < 2)%nat) \/
  (e = ValueError /\
   exists field, index_back toks 2 = Ok field /\
                 py_int field = Raise ValueError).
Proof.
  unfold entry. destruct (index toks 0) as [name|e0] eqn:E0; cbn [bind].
  - destruct (index_back toks 2) as [field|e1] eqn:E1; cbn [bind].
    + destruct (py_int field) as [v|e2] eqn:E2; cbn [bind]; [discriminate|].
      intros H. inversion H. subst e2. right.
      pose proof (py_int_raise _ _ E2). subst e.
      split; [reflexivity|]. exists field. auto.
    + intros H. inversion H. subst e1. left.
      unfold index_back in E1.
      destruct (Nat.leb_spec 2 (List.length toks)) as [L|L].
      * unfold index, of_option in E1.
        destruct (nth_error toks (List.length toks - 2)) eqn:En;
          [discriminate|].
        apply nth_error_None in En. lia.
      * inversion E1. split; [reflexivity | lia].
  - intros H. inversion H. subst e0. left.
    unfold index, of_option in E0. destruct toks; [|discriminate].
    inversion E0. split; [reflexivity | simpl; lia].
Qed.

Lemma decode_raise_first (lines : list string) (acc : list (string * Z))
  (e : exn) :
  decode lines acc = Raise e ->
  exists before line after entries,
    lines = before ++ line :: after /\
    decode before acc = Ok entries /\
    annotated line = true /\
    line_entry line = Raise e.
Proof.
  revert acc. induction lines as [|l rest IH]; intros acc H;
    cbn [decode] in H; [discriminate|].
  fold (annotated l) in H. fold (line_entry l) in H.
  destruct (annotated l) eqn:Ea.
  - destruct (line_entry l) as [x|e'] eqn:El; cbn [bind] in H.
    + destruct (IH _ H) as [b [ln [a [es [E1 [E2 [E3 E4]]]]]]].
      exists (l :: b), ln, a, es. split; [rewrite E1; reflexivity|].
      split; [|auto]. cbn [decode]. fold (annotated l). fold (line_entry l).
      rewrite Ea, El. exact E2.
    + inversion H. subst e'. exists [], l, rest, acc. auto.
  - destruct (IH _ H) as [b [ln [a [es [E1 [E2 [E3 E4]]]]]]].
    exists (l :: b), ln, a, es. split; [rewrite E1; reflexivity|].
    split; [|auto]. cbn [decode]. fold (annotated l). rewrite Ea. exact E2.
Qed.

Section Crashing.

Variable path_exists : list effect -> string -> bool.
Variable read_lines : list effect -> string -> option (list string).

Lemma solve_raise_trace (truth gates : string) (filename : option string)
  (verbose delete_lp delete_log : bool) (n : nat) (lines : list string)
  (e : exn) :
  String.length truth = (2 ^ n)%nat ->
  bit_string truth = true ->
  (forall h, read_lines h (normalize filename ++ ".log")%string = Some lines) ->
  decode lines [] = Raise e ->
  solve_circuit_lp path_exists read_lines truth gates filename verbose
                   delete_lp delete_log
  = (Write_lp (normalize filename ++ ".lp")%string
              (circuit_model n (truth_bits truth) (gate_markers gates))
     :: Path_exists (normalize filename ++ ".log")%string
     :: (if path_exists
              [Write_lp (normalize filename ++ ".lp")%string
                        (circuit_model n (truth_bits truth)
                                       (gate_markers gates))]
              (normalize filename ++ ".log")%string
         then [System ("rm " ++ normalize filename ++ ".log")%string]
         else [])
     ++ [System (scip_cmd verbose (normalize filename));
         Open_read (normalize filename ++ ".log")%string],
     Raise e).
Proof.
  intros Hlen Hbits Hlog Hdec. unfold solve_circuit_lp.
  rewrite (make_circuit_lp_done _ _ _ n) by assumption.
  cbv zeta. cbn [lp_path]. rewrite Hlog, Hdec.
  destruct (path_exists _ _); reflexivity.
Qed.

(** C8, as the code has it.  When the model was built and the solver left
    a log, the loop over its lines has two outcomes.  It skips every line
    without the token [\t(obj:1)\n]; when every annotated line has a field
    before the last that [int()] parses, the function returns one entry
    per annotated line.  Otherwise the first annotated line without such a
    field (every line before it was decoded) raises [IndexError] (the line
    is the token alone) or [ValueError] (the field is no integer), and
    the exception leaves [solve_circuit_lp]: running the solver and
    opening the log are its last effects, and the model file is not
    removed, whatever the flags. *)
Theorem decode_outcomes (truth gates : string) (filename : option string)
  (verbose delete_lp delete_log : bool) (n : nat) (lines : list string) :
  String.length truth = (2 ^ n)%nat ->
  bit_string truth = true ->
  (forall h, read_lines h (normalize filename ++ ".log")%string = Some lines) ->
  match decode lines [] with
  | Ok connect =>
      mapM line_entry (filter annotated lines) = Ok connect /\
      List.length connect = List.length (filter annotated lines) /\
      snd (solve_circuit_lp path_exists read_lines truth gates filename
                            verbose delete_lp delete_log) = Ok connect
  | Raise e =>
      (exists before line after entries,
          lines = before ++ line :: after /\
          decode before [] = Ok entries /\
          annotated line = true /\
          line_entry line = Raise e /\
          ((e = IndexError /\ line = obj1) \/
           (e = ValueError /\
            exists field, index_back (split " " line) 2 = Ok field /\
                          py_int field = Raise ValueError))) /\
      snd (solve_circuit_lp path_exists read_lines truth gates filename
                            verbose delete_lp delete_log) = Raise e /\
      (exists pre,
          fst (solve_circuit_lp path_exists read_lines truth gates filename
                                verbose delete_lp delete_log)
          = pre ++ [System (scip_cmd verbose (normalize filename));
                    Open_read (normalize filename ++ ".log")%string]) /\
      ~ In (System ("rm " ++ normalize filename ++ ".lp")%string)
           (fst (solve_circuit_lp path_exists read_lines truth gates filename
                                  verbose delete_lp delete_log))
  end.
Proof.
  intros Hlen Hbits Hlog.
  destruct (decode lines []) as [connect|e] eqn:Ed.
  - split; [apply decode_Ok; exact Ed|]. split.
    + pose proof (mapM_Forall2 _ _ _ (decode_Ok _ _ Ed)) as F.
      symmetry. exact (Forall2_length F).
    + rewrite (solve_result _ _ _ _ _ _ _ _ n lines) by assumption. exact Ed.
  - rewrite (solve_raise_trace _ _ _ _ _ _ n lines e) by assumption.
    cbn [fst snd]. split; [|split; [reflexivity|split]].
    + destruct (decode_raise_first _ _ _ Ed)
        as [before [line [after [entries [E1 [E2 [E3 E4]]]]]]].
      exists before, line, after, entries. repeat (split; [assumption|]).
      destruct (entry_raise_reason _ _ E4) as [[He Hl]|[He Hf]];
        [left | right; auto].
      split; [exact He|]. unfold annotated in E3.
      pose proof (split_length " " line) as L.
      destruct (split " " line) as [|t [|t' ts]] eqn:Es;
        [simpl in L; lia | | simpl in Hl; lia].
      cbn [existsb] in E3. rewrite orb_false_r in E3.
      apply String.eqb_eq in E3. subst t. apply (split_single " "). exact Es.
    + eexists (_ :: _ :: _). cbn [app]. reflexivity.
    + cbn [In]. rewrite in_app_iff. cbn [In].
      pose proof (rm_lp_not_rm_log (normalize filename)) as N1.
      pose proof (rm_not_scip verbose (normalize filename)
                              (normalize filename ++ ".lp")) as N2.
      intros [H|[H|[H|[H|[H|[]]]]]]; try discriminate H.
      * destruct (path_exists _ _); cbn [In] in H; [|contradiction].
        destruct H as [H|[]]. inversion H. congruence.
      * inversion H. congruence.
Qed.

End Crashing.

Lemma decode_outcomes_witness :
  (exists before line after entries,
      ["u.1.1 1 " ++ obj1; "v.1.2 0.5 " ++ obj1; "u.1.2 1 " ++ obj1]%string
      = before ++ line :: after /\
      decode before [] = Ok entries /\
      annotated line = true /\
      line_entry line = Raise ValueError /\
      ((ValueError = IndexError /\ line = obj1) \/
       (ValueError = ValueError /\
        exists field, index_back (split " " line) 2 = Ok field /\
                      py_int field = Raise ValueError))) /\
  snd (solve_circuit_lp
         (fun _ _ => true)
         (fun _ _ => Some ["u.1.1 1 " ++ obj1; "v.1.2 0.5 " ++ obj1;
                           "u.1.2 1 " ++ obj1]%string)
         "01" "NOT NAND" None false true true) = Raise ValueError /\
  (exists pre,
      fst (solve_circuit_lp
             (fun _ _ => true)
             (fun _ _ => Some ["u.1.1 1 " ++ obj1; "v.1.2 0.5 " ++ obj1;
                               "u.1.2 1 " ++ obj1]%string)
             "01" "NOT NAND" None false true true)
      = pre ++ [System "./scip -q -f circuit.lp -l circuit.log";
                Open_read "circuit.log"]) /\
  ~ In (System "rm circuit.lp")
       (fst (solve_circuit_lp
               (fun _ _ => true)
               (fun _ _ => Some ["u.1.1 1 " ++ obj1; "v.1.2 0.5 " ++ obj1;
                                 "u.1.2 1 " ++ obj1]%string)
               "01" "NOT NAND" None false true true)).
Proof.
  exact (decode_outcomes
           (fun _ _ => true)
           (fun _ _ => Some ["u.1.1 1 " ++ obj1; "v.1.2 0.5 " ++ obj1;
                             "u.1.2 1 " ++ obj1]%string)
           "01" "NOT NAND" None false true true 1
           ["u.1.1 1 " ++ obj1; "v.1.2 0.5 " ++ obj1; "u.1.2 1 " ++ obj1]%string
           eq_refl eq_refl (fun _ => eq_refl)).
Defined.

(** An annotated line whose value is not an integer literal makes the loop,
    and with it [solve_circuit_lp], raise [ValueError]; a line that is the
    token alone makes them raise [IndexError]. *)
Lemma decode_crashes :
  decode ["u.1.1 0.5 " ++ obj1]%string [] = Raise ValueError /\
  decode [obj1] [] = Raise IndexError /\
  snd (solve_circuit_lp (fun _ _ => false)
                        (fun _ _ => Some ["u.1.1 0.5 " ++ obj1]%string)
                        "01" "NOT NAND" None false true true)
  = Raise ValueError.
Proof. repeat split; vm_compute; reflexivity. Qed.

(** ** Gate tags *)

Lemma marker_of_tag (gates : string) (k : nat) :
  (1 <= k <= List.length (split " " gates))%nat ->
  marker_of (gate_markers gates) k = marker (gate_tag gates k).
Proof.
  intros Hk. unfold marker_of, gate_markers, gate_tag.
  rewrite (nth_indep _ 0 (marker EmptyString)) by (rewrite length_map; lia).
  apply map_nth.
Qed.

(** C9. The tag NOT maps to the marker 0 and every other tag to -1, the
    marker of NAND; no tag is rejected: for every gate string the model of
    a truth string of length [2^n] is built, and the fan-in bound of each
    gate [k] is 1 minus the marker of the [k]-th tag. *)
Theorem gate_tag_marker (truth gates : string) (filename : option string)
  (n : nat) :
  String.length truth = (2 ^ n)%nat ->
  bit_string truth = true ->
  marker "NOT" = 0 /\ marker "NAND" = -1 /\
  (forall tag, tag <> "NOT" -> marker tag = -1) /\
  exists M,
    make_circuit_lp truth gates filename = Done (lp_path filename) M /\
    forall k, (1 <= k <= List.length (split " " gates))%nat ->
      exists c, In c (constrs M) /\
        forall a, holds a c <-> fan_in n a k <= 1 - marker (gate_tag gates k).
Proof.
  intros Hlen Hbits. split; [reflexivity|]. split; [reflexivity|].
  split.
  { intros tag Hne. unfold marker.
    destruct (String.eqb_spec tag "NOT"); [contradiction | reflexivity]. }
  exists (circuit_model n (truth_bits truth) (gate_markers gates)).
  split; [apply make_circuit_lp_done; assumption|].
  intros k Hk. exists (fanin_constr n (gate_markers gates) k). split.
  - rewrite constrs_circuit_model. do 3 (apply in_or_app; right).
    apply in_fanin_constrs. unfold gate_markers. rewrite length_map. exact Hk.
  - intros a. rewrite holds_fanin_constr, marker_of_tag by exact Hk.
    reflexivity.
Qed.

Lemma gate_tag_marker_witness :
  marker "NOT" = 0 /\ marker "NAND" = -1 /\
  (forall tag, tag <> "NOT" -> marker tag = -1) /\
  exists M,
    make_circuit_lp "01" "NOT XOR" None = Done "circuit.lp" M /\
    forall k, (1 <= k <= List.length (split " " "NOT XOR"))%nat ->
      exists c, In c (constrs M) /\
        forall a, holds a c <-> fan_in 1 a k <= 1 - marker (gate_tag "NOT XOR" k).
Proof. apply (gate_tag_marker "01" "NOT XOR" None 1); reflexivity. Defined.

(** ** The file name *)

Lemma substring_all (t : string) : substring 0 (String.length t) t = t.
Proof. induction t as [|c t IH]; simpl; congruence. Qed.

Lemma substring_append_suffix (s t : string) :
  substring (String.length s) (String.length t) (s ++ t) = t.
Proof. induction s as [|c s IH]; simpl; [apply substring_all | exact IH]. Qed.

Lemma substring_append_prefix (s t : string) :
  substring 0 (String.length s) (s ++ t) = s.
Proof.
  induction s as [|c s IH]; simpl; [destruct t; reflexivity | congruence].
Qed.

Lemma last3_append (s : string) : last3 (s ++ ".lp") = ".lp".
Proof.
  unfold last3. rewrite length_append.
  replace (String.length s + String.length ".lp" - 3)%nat
    with (String.length s) by (simpl; lia).
  exact (substring_append_suffix s ".lp").
Qed.

Lemma drop_last3_append (s : string) : drop_last3 (s ++ ".lp") = s.
Proof.
  unfold drop_last3. rewrite length_append.
  replace (String.length s + String.length ".lp" - 3)%nat
    with (String.length s) by (simpl; lia).
  apply substring_append_prefix.
Qed.

Lemma normalize_strips (s : string) : normalize (Some (s ++ ".lp")%string) = s.
Proof.
  unfold normalize. rewrite last3_append, drop_last3_append. reflexivity.
Qed.

Section Naming.

Variable path_exists : list effect -> string -> bool.
Variable read_lines : list effect -> string -> option (list string).

Lemma solve_uses_base (truth gates : string) (filename : option string)
  (verbose delete_lp delete_log : bool) :
  Forall (uses_base (normalize filename) verbose)
         (fst (solve_circuit_lp path_exists read_lines truth gates filename
                                verbose delete_lp delete_log)).
Proof.
  unfold solve_circuit_lp.
  destruct (make_circuit_lp truth gates (Some (normalize filename)))
    as [path M|e M] eqn:Em; [|constructor].
  assert (path = (normalize filename ++ ".lp")%string) as ->.
  { unfold make_circuit_lp in Em.
    repeat match type of Em with
           | match ?x with _ => _ end = _ => destruct x; try discriminate
           end.
    inversion Em. reflexivity. }
  cbv zeta.
  repeat match goal with
         | |- context [match ?x with _ => _ end] => destruct x
         | |- context [if ?x then _ else _] => destruct x
         end;
    cbn [fst app];
    repeat (apply Forall_cons; [cbn [uses_base]; auto|]); apply Forall_nil.
Qed.

Lemma make_circuit_lp_path (truth gates : string) (filename : option string)
  (path : string) (M : Model) :
  make_circuit_lp truth gates filename = Done path M ->
  path = lp_path filename.
Proof.
  unfold make_circuit_lp. intros Em.
  repeat match type of Em with
         | match ?x with _ => _ end = _ => destruct x; try discriminate
         end.
  inversion Em. reflexivity.
Qed.

(** C10. [solve_circuit_lp] works on the normalized name only: [None]
    stands for the base name circuit, and a name ending in .lp loses
    these three characters.  Two names with the same normal form give
    the same run.  The model is built under the base name before anything
    else: when building it raises, the exception leaves the function and
    nothing was touched; otherwise the run writes the model to base.lp,
    tests base.log (and removes it when it is there), runs the solver from
    base.lp to base.log and opens base.log, whose lines decide the result;
    what follows removes base.lp or base.log only. *)
Theorem solve_filename_normalized (truth gates : string)
  (filename filename' : option string)
  (verbose delete_lp delete_log : bool) :
  normalize filename = normalize filename' ->
  solve_circuit_lp path_exists read_lines truth gates filename verbose
                   delete_lp delete_log
  = solve_circuit_lp path_exists read_lines truth gates filename' verbose
                     delete_lp delete_log /\
  match make_circuit_lp truth gates (Some (normalize filename)) with
  | Failed e _ =>
      solve_circuit_lp path_exists read_lines truth gates filename verbose
                       delete_lp delete_log = ([], Raise e)
  | Done path M =>
      path = (normalize filename ++ ".lp")%string /\
      exists cleared removed,
        cleared
        = (if path_exists [Write_lp (normalize filename ++ ".lp")%string M]
                          (normalize filename ++ ".log")%string
           then [System ("rm " ++ normalize filename ++ ".log")%string]
           else []) /\
        fst (solve_circuit_lp path_exists read_lines truth gates filename
                              verbose delete_lp delete_log)
        = Write_lp (normalize filename ++ ".lp")%string M
          :: Path_exists (normalize filename ++ ".log")%string
          :: cleared
          ++ System (scip_cmd verbose (normalize filename))
          :: Open_read (normalize filename ++ ".log")%string
          :: removed /\
        incl removed [System ("rm " ++ normalize filename ++ ".lp")%string;
                      System ("rm " ++ normalize filename ++ ".log")%string] /\
        snd (solve_circuit_lp path_exists read_lines truth gates filename
                              verbose delete_lp delete_log)
        = match read_lines
                  (Write_lp (normalize filename ++ ".lp")%string M
                   :: Path_exists (normalize filename ++ ".log")%string
                   :: cleared
                   ++ [System (scip_cmd verbose (normalize filename))])
                  (normalize filename ++ ".log")%string
          with
          | Some lines => decode lines []
          | None => Raise FileNotFoundError
          end
  end /\
  Forall (uses_base (normalize filename) verbose)
         (fst (solve_circuit_lp path_exists read_lines truth gates filename
                                verbose delete_lp delete_log)) /\
  normalize None = "circuit" /\
  (forall s, normalize (Some (s ++ ".lp")%string) = s) /\
  (forall s, last3 s <> ".lp" -> normalize (Some s) = s).
Proof.
  intros Hn. split; [|split; [|split; [|split; [|split]]]].
  - unfold solve_circuit_lp. rewrite Hn. reflexivity.
  - unfold solve_circuit_lp.
    destruct (make_circuit_lp truth gates (Some (normalize filename)))
      as [path M|e M] eqn:Em; [|reflexivity].
    apply make_circuit_lp_path in Em. cbn [lp_path] in Em. subst path.
    split; [reflexivity|]. cbv zeta.
    destruct (path_exists _ _);
      [exists [System ("rm " ++ normalize filename ++ ".log")%string]
      |exists []];
      cbn [app];
      destruct (read_lines _ _) as [lines|];
      try destruct (decode lines []) as [connect|e];
      destruct delete_lp, delete_log; cbn [fst snd app];
      eexists; (split; [reflexivity|]);
      (split; [reflexivity|]);
      (split; [|reflexivity]);
      intros x Hx; cbn [In] in *; intuition auto.
  - apply solve_uses_base.
  - reflexivity.
  - apply normalize_strips.
  - intros s Hs. unfold normalize.
    destruct (String.eqb_spec (last3 s) ".lp"); [contradiction | reflexivity].
Qed.

End Naming.

Lemma solve_filename_normalized_witness :
  solve_circuit_lp (fun _ _ => true)
                   (fun _ path => if String.eqb path "foo.log"
                                  then Some ["u.1.1 1 " ++ obj1]%string
                                  else None)
                   "01" "NOT NAND" (Some "foo.lp") false true true
  = solve_circuit_lp (fun _ _ => true)
                     (fun _ path => if String.eqb path "foo.log"
                                    then Some ["u.1.1 1 " ++ obj1]%string
                                    else None)
                     "01" "NOT NAND" (Some "foo") false true true /\
  ("foo.lp" = "foo.lp" /\
   exists cleared removed,
     cleared = [System "rm foo.log"] /\
     fst (solve_circuit_lp (fun _ _ => true)
                           (fun _ path => if String.eqb path "foo.log"
                                          then Some ["u.1.1 1 " ++ obj1]%string
                                          else None)
                           "01" "NOT NAND" (Some "foo.lp") false true true)
     = Write_lp "foo.lp" (circuit_model 1 [0; 1] [0; -1])
       :: Path_exists "foo.log"
       :: cleared
       ++ System "./scip -q -f foo.lp -l foo.log"
       :: Open_read "foo.log"
       :: removed /\
     incl removed [System "rm foo.lp"; System "rm foo.log"] /\
     snd (solve_circuit_lp (fun _ _ => true)
                           (fun _ path => if String.eqb path "foo.log"
                                          then Some ["u.1.1 1 " ++ obj1]%string
                                          else None)
                           "01" "NOT NAND" (Some "foo.lp") false true true)
     = Ok [("u.1.1", 1)]) /\
  Forall (uses_base "foo" false)
         (fst (solve_circuit_lp (fun _ _ => true)
                                (fun _ path => if String.eqb path "foo.log"
                                               then Some ["u.1.1 1 " ++ obj1]%string
                                               else None)
                                "01" "NOT NAND" (Some "foo.lp") false true true)) /\
  normalize None = "circuit" /\
  (forall s, normalize (Some (s ++ ".lp")%string) = s) /\
  (forall s, last3 s <> ".lp" -> normalize (Some s) = s).
Proof.
  exact (solve_filename_normalized
           (fun _ _ => true)
           (fun _ path => if String.eqb path "foo.log"
                          then Some ["u.1.1 1 " ++ obj1]%string
                          else None)
           "01" "NOT NAND" (Some "foo.lp") (Some "foo") false true true
           eq_refl).
Defined.

(** * Further facts *)

(** ** The variable space *)

Lemma vars_allocate (n R : nat) :
  vars (allocate n R) =
  List.concat (alloc_U n R) ++ List.concat (alloc_V R) ++
  List.concat (alloc_P n R) ++ List.concat (List.concat (alloc_r n R)).
Proof. cbn. rewrite <- !app_assoc. reflexivity. Qed.

Lemma in_concat_map_iff {X Y : Type} (f : X -> list Y) (l : list X) (y : Y) :
  In y (List.concat (map f l)) <-> exists x, In x l /\ In y (f x).
Proof.
  rewrite in_concat. split.
  - intros [ys [Hys Hy]]. apply in_map_iff in Hys.
    destruct Hys as [x [E Hx]]. subst ys. exists x. auto.
  - intros [x [Hx Hy]]. exists (f x). split; [apply in_map; exact Hx | exact Hy].
Qed.

Lemma concat_concat_map {X Y : Type} (F : X -> list (list Y)) (l : list X) :
  List.concat (List.concat (map F l)) =
  List.concat (map (fun x => List.concat (F x)) l).
Proof.
  induction l as [|x l IH]; cbn [map List.concat]; [reflexivity|].
  rewrite concat_app, IH. reflexivity.
Qed.

Lemma in_alloc_U_iff (n R : nat) (x : var) :
  In x (List.concat (alloc_U n R)) <->
  exists el k, x = Var_u el k /\ (1 <= el <= n)%nat /\ (1 <= k <= R)%nat.
Proof.
  unfold alloc_U, range. rewrite in_concat_map_iff. split.
  - intros [el [Hel Hx]]. apply in_map_iff in Hx. destruct Hx as [k [E Hk]].
    apply in_seq in Hel, Hk. exists el, k. split; [auto|lia].
  - intros [el [k [E [Hel Hk]]]]. exists el. split; [apply in_seq; lia|].
    subst x. apply (in_map (fun k0 => Var_u el k0)). apply in_seq. lia.
Qed.

Lemma in_alloc_V_iff (R : nat) (x : var) :
  In x (List.concat (alloc_V R)) <->
  exists i k, x = Var_v i k /\ (1 <= i < k)%nat /\ (k <= R)%nat.
Proof.
  unfold alloc_V, range. rewrite in_concat_map_iff. split.
  - intros [k [Hk Hx]]. apply in_map_iff in Hx. destruct Hx as [i [E Hi]].
    apply in_seq in Hk, Hi. exists i, k. split; [auto|lia].
  - intros [i [k [E [Hi Hk]]]]. exists k. split; [apply in_seq; lia|].
    subst x. apply (in_map (fun i0 => Var_v i0 k)). apply in_seq. lia.
Qed.

Lemma in_alloc_P_iff (n R : nat) (x : var) :
  In x (List.concat (alloc_P n R)) <->
  exists k j, x = Var_p k j /\ (1 <= k <= R - 1)%nat /\ (1 <= j <= 2 ^ n)%nat.
Proof.
  unfold alloc_P, range. rewrite in_concat_map_iff. split.
  - intros [k [Hk Hx]]. apply in_map_iff in Hx. destruct Hx as [j [E Hj]].
    apply in_seq in Hk, Hj. exists k, j. split; [auto|lia].
  - intros [k [j [E [Hk Hj]]]]. exists k. split; [apply in_seq; lia|].
    subst x. apply (in_map (fun j0 => Var_p k j0)). apply in_seq. lia.
Qed.

Lemma in_alloc_r_iff (n R : nat) (x : var) :
  In x (List.concat (List.concat (alloc_r n R))) <->
  exists i k j, x = Var_r i k j /\
                (1 <= i < k)%nat /\ (k <= R)%nat /\ (1 <= j <= 2 ^ n)%nat.
Proof.
  unfold alloc_r, range. rewrite concat_concat_map, in_concat_map_iff. split.
  - intros [k [Hk Hx]]. apply in_concat_map_iff in Hx.
    destruct Hx as [i [Hi Hx]]. apply in_map_iff in Hx.
    destruct Hx as [j [E Hj]]. apply in_seq in Hk, Hi, Hj.
    exists i, k, j. split; [auto|lia].
  - intros [i [k [j [E [Hi [Hk Hj]]]]]]. exists k. split; [apply in_seq; lia|].
    apply in_concat_map_iff. exists i. split; [apply in_seq; lia|].
    subst x. apply (in_map (fun j0 => Var_r i k j0)). apply in_seq. lia.
Qed.

Lemma in_allocate (n R : nat) (x : var) :
  In x (vars (allocate n R)) <-> allocated n R x.
Proof.
  rewrite vars_allocate, !in_app_iff.
  rewrite in_alloc_U_iff, in_alloc_V_iff, in_alloc_P_iff, in_alloc_r_iff.
  destruct x as [el k|i k|k j|i k j]; cbn [allocated]; split.
  - intros [[? [? [E H]]]|[[? [? [E H]]]|[[? [? [E H]]]|[? [? [? [E H]]]]]]];
      inversion E; subst; exact H.
  - intros H. left. exists el, k. auto.
  - intros [[? [? [E H]]]|[[? [? [E H]]]|[[? [? [E H]]]|[? [? [? [E H]]]]]]];
      inversion E; subst; exact H.
  - intros H. right. left. exists i, k. auto.
  - intros [[? [? [E H]]]|[[? [? [E H]]]|[[? [? [E H]]]|[? [? [? [E H]]]]]]];
      inversion E; subst; exact H.
  - intros H. right. right. left. exists k, j. auto.
  - intros [[? [? [E H]]]|[[? [? [E H]]]|[[? [? [E H]]]|[? [? [? [E H]]]]]]];
      inversion E; subst; exact H.
  - intros H. do 3 right. exists i, k, j. auto.
Qed.

Lemma NoDup_concat_map {X Y : Type} (f : X -> list Y) (l : list X) :
  NoDup l ->
  (forall x, In x l -> NoDup (f x)) ->
  (forall x x' y, In x l -> In x' l -> In y (f x) -> In y (f x') -> x = x') ->
  NoDup (List.concat (map f l)).
Proof.
  induction l as [|x l IH]; intros Hl Hf Hd; cbn [map List.concat];
    [constructor|].
  inversion Hl as [|? ? Hx Hl']; subst. apply NoDup_app.
  - apply Hf. left. reflexivity.
  - apply IH; [exact Hl' | intros; apply Hf; right; assumption|].
    intros x1 x2 y H1 H2. apply Hd; right; assumption.
  - intros y Hy Hy'. apply in_concat_map_iff in Hy'.
    destruct Hy' as [x' [Hx' Hy']].
    assert (x = x') by (apply (Hd x x' y); auto; [left | right]; auto).
    subst x'. contradiction.
Qed.

Lemma NoDup_map_seq {Y : Type} (g : nat -> Y) (a m : nat) :
  (forall i i', g i = g i' -> i = i') -> NoDup (map g (seq a m)).
Proof.
  intros Hg. apply NoDup_map_NoDup_ForallPairs; [|apply seq_NoDup].
  intros i i' _ _. apply Hg.
Qed.

Lemma NoDup_allocate (n R : nat) : NoDup (vars (allocate n R)).
Proof.
  rewrite vars_allocate.
  assert (NoDup (List.concat (alloc_U n R))) as HU.
  { unfold alloc_U. apply NoDup_concat_map; [apply seq_NoDup | |].
    - intros el _. apply NoDup_map_seq. intros k k' E. inversion E. reflexivity.
    - intros el el' y _ _ H H'. apply in_map_iff in H, H'.
      destruct H as [k [E _]], H' as [k' [E' _]]. subst y. inversion E'.
      reflexivity. }
  assert (NoDup (List.concat (alloc_V R))) as HV.
  { unfold alloc_V. apply NoDup_concat_map; [apply seq_NoDup | |].
    - intros k _. apply NoDup_map_seq. intros i i' E. inversion E. reflexivity.
    - intros k k' y _ _ H H'. apply in_map_iff in H, H'.
      destruct H as [i [E _]], H' as [i' [E' _]]. subst y. inversion E'.
      reflexivity. }
  assert (NoDup (List.concat (alloc_P n R))) as HP.
  { unfold alloc_P. apply NoDup_concat_map; [apply seq_NoDup | |].
    - intros k _. apply NoDup_map_seq. intros j j' E. inversion E. reflexivity.
    - intros k k' y _ _ H H'. apply in_map_iff in H, H'.
      destruct H as [j [E _]], H' as [j' [E' _]]. subst y. inversion E'.
      reflexivity. }
  assert (NoDup (List.concat (List.concat (alloc_r n R)))) as Hr.
  { unfold alloc_r. rewrite concat_concat_map.
    apply NoDup_concat_map; [apply seq_NoDup | |].
    - intros k _. apply NoDup_concat_map; [apply seq_NoDup | |].
      + intros i _. apply NoDup_map_seq. intros j j' E. inversion E. reflexivity.
      + intros i i' y _ _ H H'. apply in_map_iff in H, H'.
        destruct H as [j [E _]], H' as [j' [E' _]]. subst y. inversion E'.
        reflexivity.
    - intros k k' y _ _ H H'. apply in_concat_map_iff in H, H'.
      destruct H as [i [_ H]], H' as [i' [_ H']]. apply in_map_iff in H, H'.
      destruct H as [j [E _]], H' as [j' [E' _]]. subst y. inversion E'.
      reflexivity. }
  repeat apply NoDup_app; try assumption.
  - intros x Hx Hx'. apply in_alloc_P_iff in Hx. apply in_alloc_r_iff in Hx'.
    destruct Hx as [? [? [E _]]], Hx' as [? [? [? [E' _]]]]. congruence.
  - intros x Hx Hx'. apply in_alloc_V_iff in Hx. apply in_app_iff in Hx'.
    destruct Hx as [? [? [E _]]].
    destruct Hx' as [Hx'|Hx']; [apply in_alloc_P_iff in Hx' | apply in_alloc_r_iff in Hx'].
    + destruct Hx' as [? [? [E' _]]]. congruence.
    + destruct Hx' as [? [? [? [E' _]]]]. congruence.
  - intros x Hx Hx'. apply in_alloc_U_iff in Hx. rewrite !in_app_iff in Hx'.
    destruct Hx as [? [? [E _]]].
    destruct Hx' as [Hx'|[Hx'|Hx']];
      [apply in_alloc_V_iff in Hx' | apply in_alloc_P_iff in Hx'
       | apply in_alloc_r_iff in Hx'].
    + destruct Hx' as [? [? [E' _]]]. congruence.
    + destruct Hx' as [? [? [E' _]]]. congruence.
    + destruct Hx' as [? [? [? [E' _]]]]. congruence.
Qed.

(** X1. For every truth string of length [2^n] the variables of the model
    are, each exactly once, [u.el.k] for [el] in [1, n] and [k] in [1, R],
    [v.i.k] for [1 <= i < k <= R], [p.k.j] for [k] in [1, R-1] and
    [r.i.k.j] for [1 <= i < k <= R], with [j] in [1, 2^n]: no [v.i.k] with
    [i >= k] and no [p.R.j] is ever added. *)
Theorem model_variables (truth gates : string) (filename : option string)
  (n : nat) :
  String.length truth = (2 ^ n)%nat ->
  bit_string truth = true ->
  exists M,
    make_circuit_lp truth gates filename = Done (lp_path filename) M /\
    NoDup (vars M) /\
    forall x, In x (vars M) <->
              allocated n (List.length (gate_markers gates)) x.
Proof.
  intros Hlen Hbits.
  exists (circuit_model n (truth_bits truth) (gate_markers gates)).
  split; [apply make_circuit_lp_done; assumption|].
  split; [apply NoDup_allocate | intros x; apply in_allocate].
Qed.

Lemma model_variables_witness :
  exists M,
    make_circuit_lp "01" "NOT NAND" None = Done "circuit.lp" M /\
    NoDup (vars M) /\
    forall x, In x (vars M) <-> allocated 1 2 x.
Proof. apply (model_variables "01" "NOT NAND" None 1); reflexivity. Defined.

(** ** Every constraint is over allocated variables *)

Lemma in_input_vars_range (n k j : nat) (x : var) :
  In x (input_vars n k j) ->
  (exists el, x = Var_u el k /\ (1 <= el <= n)%nat) \/
  (exists i, x = Var_r i k j /\ (1 <= i <= k - 1)%nat).
Proof.
  unfold input_vars. rewrite in_app_iff, !in_map_iff.
  intros [[el [E H]]|[i [E H]]]; [apply in_filter_seq in H|];
    apply in_seq_1 in H; [left; exists el | right; exists i]; auto.
Qed.

Lemma input_vars_allocated (n R k j : nat) (x : var) :
  (1 <= k <= R)%nat -> (1 <= j <= 2 ^ n)%nat ->
  In x (input_vars n k j) -> allocated n R x.
Proof.
  intros Hk Hj Hx. apply in_input_vars_range in Hx.
  destruct Hx as [[el [E H]]|[i [E H]]]; subst x; cbn [allocated]; lia.
Qed.

Lemma constrs_allocated (n : nat) (truth gates : list Z) (c : Constr) (x : var) :
  List.length truth = (2 ^ n)%nat ->
  (1 <= List.length gates)%nat ->
  In c (constrs (circuit_model n truth gates)) ->
  In x (cvars c) ->
  allocated n (List.length gates) x.
Proof.
  intros Hlen HR Hc Hx. rewrite constrs_circuit_model, !in_app_iff in Hc.
  destruct Hc as [Hc|[Hc|[Hc|Hc]]].
  - unfold gate_constrs in Hc. apply in_flat_map in Hc.
    destruct Hc as [[k j] [Hkj Hc]]. apply in_product in Hkj.
    destruct Hkj as [Hk Hj]. apply in_seq_1 in Hk, Hj. cbn [fst snd In] in Hc.
    apply (in_cvars_gate n (List.length gates) gates k j) in Hx;
      [|destruct Hc as [E|[E|[]]]; subst c; auto].
    destruct Hx as [Hx'|E].
    + apply (input_vars_allocated n _ k j); [lia | lia | exact Hx'].
    + subst x. cbn [allocated]. lia.
  - unfold final_constrs in Hc. apply in_map_iff in Hc.
    destruct Hc as [[j val] [E Hin]]. apply in_enumerate in Hin.
    subst c. cbn [fst snd] in Hx. rewrite cvars_final_constr in Hx.
    apply (input_vars_allocated n _ (List.length gates) (S j));
      [lia | lia | exact Hx].
  - unfold and_constrs in Hc. apply in_flat_map in Hc.
    destruct Hc as [[k j] [Hkj Hc]]. apply in_product in Hkj.
    destruct Hkj as [Hk Hj]. apply in_seq in Hk. apply in_seq_1 in Hj.
    apply in_flat_map in Hc. destruct Hc as [i [Hi Hc]].
    apply in_seq_1 in Hi. cbn [fst snd In] in *.
    assert (In x [Var_p i j; Var_v i k; Var_r i k j]) as Hx'.
    { destruct Hc as [E|[E|[]]]; subst c; exact Hx. }
    destruct Hx' as [E|[E|[E|[]]]]; subst x; cbn [allocated]; lia.
  - unfold fanin_constrs in Hc. apply in_map_iff in Hc.
    destruct Hc as [k [E Hk]]. apply in_seq_1 in Hk. subst c.
    rewrite cvars_fanin_constr, in_app_iff, !in_map_iff in Hx.
    destruct Hx as [[el [E H]]|[i [E H]]]; apply in_seq_1 in H; subst x;
      cbn [allocated]; lia.
Qed.

(** X2. For every truth string of length [2^n], every variable that a
    constraint of the model mentions is a variable of the model; so no
    constraint mentions a connection [v.i.k] from a gate [i >= k], nor an
    output [p.R.j] of the last gate. *)
Theorem constraints_over_model_variables (truth gates : string)
  (filename : option string) (n : nat) :
  String.length truth = (2 ^ n)%nat ->
  bit_string truth = true ->
  exists M,
    make_circuit_lp truth gates filename = Done (lp_path filename) M /\
    (forall c x, In c (constrs M) -> In x (cvars c) -> In x (vars M)) /\
    (forall c i k, In c (constrs M) -> In (Var_v i k) (cvars c) ->
                   (1 <= i < k)%nat) /\
    (forall c k j, In c (constrs M) -> In (Var_p k j) (cvars c) ->
                   (k < List.length (gate_markers gates))%nat).
Proof.
  intros Hlen Hbits.
  exists (circuit_model n (truth_bits truth) (gate_markers gates)).
  split; [apply make_circuit_lp_done; assumption|].
  assert (forall c x,
             In c (constrs (circuit_model n (truth_bits truth)
                                          (gate_markers gates))) ->
             In x (cvars c) ->
             allocated n (List.length (gate_markers gates)) x) as H.
  { intros c x. apply constrs_allocated.
    - rewrite truth_bits_length. exact Hlen.
    - apply gate_markers_length. }
  split; [|split].
  - intros c x Hc Hx. apply in_allocate. exact (H c x Hc Hx).
  - intros c i k Hc Hx. pose proof (H c _ Hc Hx) as Ha.
    cbn [allocated] in Ha. lia.
  - intros c k j Hc Hx. pose proof (H c _ Hc Hx) as Ha.
    pose proof (gate_markers_length gates). cbn [allocated] in Ha. lia.
Qed.

Lemma constraints_over_model_variables_witness :
  exists M,
    make_circuit_lp "01" "NOT NAND" None = Done "circuit.lp" M /\
    (forall c x, In c (constrs M) -> In x (cvars c) -> In x (vars M)) /\
    (forall c i k, In c (constrs M) -> In (Var_v i k) (cvars c) ->
                   (1 <= i < k)%nat) /\
    (forall c k j, In c (constrs M) -> In (Var_p k j) (cvars c) ->
                   (k < 2)%nat).
Proof.
  apply (constraints_over_model_variables "01" "NOT NAND" None 1); reflexivity.
Defined.

(** ** Feasible assignments are working circuits *)

Lemma feasibleb_sound (a : assignment) (M : Model) :
  feasibleb a M = true -> feasible a M.
Proof.
  unfold feasibleb. rewrite andb_true_iff, !forallb_forall.
  intros [Hv Hc]. split.
  - intros x Hx. specialize (Hv x Hx). apply orb_true_iff in Hv.
    rewrite !Z.eqb_eq in Hv. exact Hv.
  - intros c Hin. exact (Hc c Hin).
Qed.

Lemma nth_map_seq {Y : Type} (f : nat -> Y) (a m i : nat) (d : Y) :
  (i < m)%nat -> nth i (map f (seq a m)) d = f (a + i)%nat.
Proof.
  intros Hi. rewrite (nth_indep _ d (f 0%nat)) by (rewrite length_map, length_seq; exact Hi).
  rewrite map_nth, seq_nth by exact Hi. reflexivity.
Qed.

Lemma in_combine_seq_nth {X : Type} (l : list X) (a j : nat) (d : X) :
  (j < List.length l)%nat ->
  In ((a + j)%nat, nth j l d) (combine (seq a (List.length l)) l).
Proof.
  revert a j. induction l as [|x l IH]; intros a j Hj; cbn [List.length] in Hj;
    [lia|].
  cbn [List.length seq combine]. destruct j as [|j].
  - left. cbn [nth]. f_equal. lia.
  - right. cbn [nth]. replace (a + S j)%nat with (S a + j)%nat by lia.
    apply IH. lia.
Qed.

Lemma in_enumerate_nth {X : Type} (l : list X) (j : nat) (d : X) :
  (j < List.length l)%nat -> In (j, nth j l d) (enumerate l).
Proof. intros Hj. exact (in_combine_seq_nth l 0 j d Hj). Qed.

Section Feasible.

Variables (n : nat) (truth gates : string) (a : assignment).
Hypothesis truth_length : String.length truth = (2 ^ n)%nat.
Hypothesis is_feasible :
  feasible a (circuit_model n (truth_bits truth) (gate_markers gates)).

Lemma feasible_binary (x : var) :
  allocated n (List.length (gate_markers gates)) x -> a x = 0 \/ a x = 1.
Proof.
  intros Hx. destruct is_feasible as [Hbin _]. apply Hbin.
  apply in_allocate. exact Hx.
Qed.

Lemma feasible_input_bounds (k j : nat) :
  (1 <= k <= List.length (gate_markers gates))%nat -> (1 <= j <= 2 ^ n)%nat ->
  0 <= input_val n a k j <= Z.of_nat n + Z.of_nat (k - 1).
Proof.
  intros Hk Hj.
  apply (input_val_bounds n (List.length (gate_markers gates))
           (circuit_model n (truth_bits truth) (gate_markers gates))).
  - destruct is_feasible as [Hbin _]. exact Hbin.
  - intros el Hel. apply in_allocate. cbn [allocated]. lia.
  - intros i Hi. apply in_allocate. cbn [allocated]. lia.
Qed.

Lemma feasible_p (k j : nat) :
  (1 <= k <= List.length (gate_markers gates) - 1)%nat ->
  (1 <= j <= 2 ^ n)%nat ->
  a (Var_p k j)
  = gate_output (marker_of (gate_markers gates) k) (input_val n a k j).
Proof.
  intros Hk Hj. destruct is_feasible as [_ Hall].
  destruct (in_gate_constrs n (List.length (gate_markers gates))
              (gate_markers gates) k j Hk Hj) as [H1 H2].
  assert (holds a (gate_on n (List.length (gate_markers gates))
                           (gate_markers gates) k j)) as G1.
  { apply Hall. rewrite constrs_circuit_model. apply in_or_app. left. exact H1. }
  assert (holds a (gate_off n (List.length (gate_markers gates))
                            (gate_markers gates) k j)) as G2.
  { apply Hall. rewrite constrs_circuit_model. apply in_or_app. left. exact H2. }
  apply holds_gate_on in G1. apply holds_gate_off in G2.
  apply (gate_pair_forces _ (big_A n (List.length (gate_markers gates))) _ _
           (Z.of_nat n + Z.of_nat (k - 1))).
  - apply marker_of_cases.
  - apply feasible_binary. cbn [allocated]. lia.
  - apply feasible_input_bounds; lia.
  - unfold big_A. lia.
  - unfold big_A. lia.
  - split; assumption.
Qed.

Lemma feasible_r (i k j : nat) :
  (2 <= k <= List.length (gate_markers gates))%nat ->
  (1 <= j <= 2 ^ n)%nat -> (1 <= i <= k - 1)%nat ->
  a (Var_r i k j) = a (Var_v i k) * a (Var_p i j).
Proof.
  intros Hk Hj Hi. destruct is_feasible as [_ Hall].
  destruct (in_and_constrs n (List.length (gate_markers gates)) i k j Hk Hj Hi)
    as [H1 H2].
  assert (holds a (and_up i k j)) as G1.
  { apply Hall. rewrite constrs_circuit_model.
    apply in_or_app. right. apply in_or_app. right. apply in_or_app. left.
    exact H1. }
  assert (holds a (and_down i k j)) as G2.
  { apply Hall. rewrite constrs_circuit_model.
    apply in_or_app. right. apply in_or_app. right. apply in_or_app. left.
    exact H2. }
  apply holds_and_up in G1. apply holds_and_down in G2.
  assert (a (Var_p i j) = 0 \/ a (Var_p i j) = 1) as Hp
    by (apply feasible_binary; cbn [allocated]; lia).
  assert (a (Var_v i k) = 0 \/ a (Var_v i k) = 1) as Hv
    by (apply feasible_binary; cbn [allocated]; lia).
  assert (a (Var_r i k j) = 0 \/ a (Var_r i k j) = 1) as Hr
    by (apply feasible_binary; cbn [allocated]; lia).
  destruct Hp as [Hp|Hp], Hv as [Hv|Hv], Hr as [Hr|Hr];
    rewrite ?Hp, ?Hv, ?Hr in *; lia.
Qed.

Lemma feasible_final (j : nat) :
  (1 <= j <= 2 ^ n)%nat ->
  holds a (final_constr n (List.length (gate_markers gates))
                        (gate_markers gates) j
                        (nth (j - 1) (truth_bits truth) 0)).
Proof.
  intros Hj. destruct is_feasible as [_ Hall]. apply Hall.
  rewrite constrs_circuit_model. apply in_or_app. right. apply in_or_app. left.
  unfold final_constrs.
  assert (j - 1 < List.length (truth_bits truth))%nat as Hlt
    by (rewrite truth_bits_length, truth_length; lia).
  pose proof (in_map (fun jv => final_constr n (List.length (gate_markers gates))
                                  (gate_markers gates) (S (fst jv)) (snd jv))
                     (enumerate (truth_bits truth))
                     ((j - 1)%nat, nth (j - 1) (truth_bits truth) 0)
                     (in_enumerate_nth _ _ 0 Hlt)) as Hin.
  cbn [fst snd] in Hin. replace (S (j - 1)) with j in Hin by lia. exact Hin.
Qed.

(** The number of connected pins of gate [k] that read 1, when the earlier
    gates put out the values of their [p] variables. *)
Lemma simulate_step_sum (j k : nat) :
  (1 <= S k <= List.length (gate_markers gates))%nat -> (1 <= j <= 2 ^ n)%nat ->
  sumZ (map (fun el => tbl (j - 1) (el - 1) * a (Var_u el (S k))) (seq 1 n)) +
  sumZ (map (fun i => a (Var_v i (S k)) *
                      nth (i - 1) (map (fun i0 => a (Var_p i0 j)) (seq 1 k)) 0)
            (seq 1 k))
  = input_val n a (S k) j.
Proof.
  intros Hk Hj. unfold input_val. f_equal. f_equal.
  replace (S k - 1)%nat with k by lia.
  apply map_ext_in. intros i Hi. apply in_seq_1 in Hi.
  rewrite nth_map_seq by lia. replace (1 + (i - 1))%nat with i by lia.
  symmetry. apply feasible_r; lia.
Qed.

Lemma simulate_p (j k : nat) :
  (k <= List.length (gate_markers gates) - 1)%nat -> (1 <= j <= 2 ^ n)%nat ->
  simulate n (gate_markers gates) a j k
  = map (fun i => a (Var_p i j)) (seq 1 k).
Proof.
  intros Hk Hj. induction k as [|k IH]; [reflexivity|].
  cbn [simulate]. rewrite IH by lia.
  rewrite simulate_step_sum by lia.
  rewrite <- feasible_p by lia. rewrite seq_S, map_app. reflexivity.
Qed.

Lemma simulate_last (j : nat) :
  (1 <= j <= 2 ^ n)%nat ->
  marker_of (gate_markers gates) (stale_k (List.length (gate_markers gates)))
  = marker_of (gate_markers gates) (List.length (gate_markers gates)) ->
  nth (List.length (gate_markers gates) - 1)
      (simulate n (gate_markers gates) a j (List.length (gate_markers gates))) 0
  = nth (j - 1) (truth_bits truth) 0.
Proof.
  intros Hj Hm. pose proof (gate_markers_length gates) as HR.
  destruct (List.length (gate_markers gates)) as [|R'] eqn:ER; [lia|].
  cbn [simulate]. rewrite simulate_p by (rewrite ?ER; lia).
  rewrite app_nth2 by (rewrite length_map, length_seq; lia).
  rewrite length_map, length_seq.
  replace (S R' - 1 - R')%nat with 0%nat by lia. cbn [nth].
  rewrite simulate_step_sum by (rewrite ?ER; lia).
  pose proof (feasible_final j Hj) as Hf. rewrite ER in Hf.
  apply holds_final_constr in Hf. rewrite Hm in Hf.
  pose proof (feasible_input_bounds (S R') j) as Hb. rewrite ER in Hb.
  specialize (Hb ltac:(lia) Hj).
  assert (nth (j - 1) (truth_bits truth) 0 = 0 \/
          nth (j - 1) (truth_bits truth) 0 = 1) as Hbit.
  { unfold truth_bits.
    destruct (Nat.lt_ge_cases (j - 1)
                (List.length (list_ascii_of_string truth))) as [H|H].
    - rewrite (nth_indep _ 0 (bit_val "0"%char)) by (rewrite length_map; exact H).
      rewrite map_nth. unfold bit_val.
      destruct (Ascii.eqb _ "1"); auto.
    - rewrite nth_overflow by (rewrite length_map; exact H). auto. }
  pose proof (marker_of_cases gates (S R')) as Hg.
  unfold gate_output. revert Hf.
  destruct (Z.eqb_spec (nth (j - 1) (truth_bits truth) 0) 1);
    destruct (Z.eqb_spec (marker_of (gate_markers gates) (S R')) 0);
    destruct (Z.eqb_spec (input_val n a (S R') j) 0);
    destruct (Z.ltb_spec (input_val n a (S R') j) 2); lia.
Qed.

End Feasible.

Lemma in_final_constrs (n R : nat) (gates truth : list Z) (j : nat) :
  (1 <= j <= List.length truth)%nat ->
  In (final_constr n R gates j (nth (j - 1) truth 0))
     (final_constrs n R gates truth).
Proof.
  intros Hj. unfold final_constrs.
  assert (j - 1 < List.length truth)%nat as Hlt by lia.
  pose proof (in_map (fun jv => final_constr n R gates (S (fst jv)) (snd jv))
                     (enumerate truth) ((j - 1)%nat, nth (j - 1) truth 0)
                     (in_enumerate_nth _ _ 0 Hlt)) as Hin.
  cbn [fst snd] in Hin. replace (S (j - 1)) with j in Hin by lia. exact Hin.
Qed.

Lemma simulate_length (n : nat) (gates : list Z) (a : assignment) (j k : nat) :
  List.length (simulate n gates a j k) = k.
Proof.
  induction k as [|k IH]; [reflexivity|].
  cbn [simulate]. rewrite length_app, IH. cbn [List.length]. lia.
Qed.

Lemma simulate_prefix (n : nat) (gates : list Z) (a : assignment)
  (j k m i : nat) :
  (i < k)%nat ->
  nth i (simulate n gates a j (k + m)) 0 = nth i (simulate n gates a j k) 0.
Proof.
  intros Hi. induction m as [|m IH]; [rewrite Nat.add_0_r; reflexivity|].
  replace (k + S m)%nat with (S (k + m)) by lia. cbn [simulate].
  rewrite app_nth1 by (rewrite simulate_length; lia). exact IH.
Qed.

(** X3. For a truth string of length [2^n] and a gate string whose last
    two gates have the same marker (or that has one gate only), every
    feasible assignment of the model is a circuit that computes the truth
    table: simulating the gates as the connection variables [u] and [v]
    wire them, the last gate puts out the target bit on every row, and
    every earlier gate [k] puts out the value of [p.k.j]. *)
Theorem feasible_circuit_computes_truth (truth gates : string)
  (filename : option string) (n : nat) :
  String.length truth = (2 ^ n)%nat ->
  bit_string truth = true ->
  ((2 <= List.length (gate_markers gates))%nat ->
   marker_of (gate_markers gates) (List.length (gate_markers gates) - 1)
   = marker_of (gate_markers gates) (List.length (gate_markers gates))) ->
  exists M,
    make_circuit_lp truth gates filename = Done (lp_path filename) M /\
    forall a, feasible a M ->
      forall j, (1 <= j <= 2 ^ n)%nat ->
        nth (List.length (gate_markers gates) - 1)
            (simulate n (gate_markers gates) a j
                      (List.length (gate_markers gates))) 0
        = nth (j - 1) (truth_bits truth) 0 /\
        forall k, (1 <= k <= List.length (gate_markers gates) - 1)%nat ->
          nth (k - 1)
              (simulate n (gate_markers gates) a j
                        (List.length (gate_markers gates))) 0
          = a (Var_p k j).
Proof.
  intros Hlen Hbits Hsame.
  exists (circuit_model n (truth_bits truth) (gate_markers gates)).
  split; [apply make_circuit_lp_done; assumption|].
  intros a Hfeas j Hj. split.
  - apply (simulate_last n truth gates a Hlen Hfeas j Hj).
    unfold stale_k. destruct (Nat.leb_spec 2 (List.length (gate_markers gates)));
      [apply Hsame; assumption | reflexivity].
  - intros k Hk.
    pose proof (simulate_prefix n (gate_markers gates) a j
                  (List.length (gate_markers gates) - 1) 1 (k - 1)) as Hp.
    replace (List.length (gate_markers gates) - 1 + 1)%nat
      with (List.length (gate_markers gates)) in Hp by lia.
    rewrite Hp by lia.
    rewrite (simulate_p n truth gates a Hlen Hfeas) by lia.
    rewrite nth_map_seq by lia.
    replace (1 + (k - 1))%nat with k by lia. reflexivity.
Qed.

Lemma feasible_circuit_computes_truth_witness :
  exists M,
    make_circuit_lp "01" "NOT NOT" None = Done "circuit.lp" M /\
    feasible not_then_nand M /\
    nth 1 (simulate 1 [0; 0] not_then_nand 1 2) 0 = 0 /\
    nth 1 (simulate 1 [0; 0] not_then_nand 2 2) 0 = 1.
Proof.
  destruct (feasible_circuit_computes_truth "01" "NOT NOT" None 1
              eq_refl eq_refl (fun _ => eq_refl)) as [M [HM H]].
  exists M.
  assert (feasible not_then_nand M) as HF.
  { rewrite (make_circuit_lp_done "01" "NOT NOT" None 1 eq_refl eq_refl) in HM.
    injection HM as <-. apply feasibleb_sound. vm_compute. reflexivity. }
  split; [exact HM|]. split; [exact HF|]. split.
  - destruct (H _ HF 1%nat) as [E _]; [simpl; lia | exact E].
  - destruct (H _ HF 2%nat) as [E _]; [simpl; lia | exact E].
Defined.

(** X4. For every truth string of length [2^n] and every row [j], the
    model has a constraint over the input sum of the last gate [R] alone:
    its variables are the [u.el.R] of the inputs [el] that are 1 on the
    row and the [r.i.R.j] of the earlier gates, in this order (no [p]
    variable, no slack, no input that is 0 on the row).  It reads, when
    the target bit of the row is 1, [-(sum) >= marker(s)] and otherwise
    [sum >= 1 - marker(s)], where [s] is the gate the loop variable [k]
    was left on: [R - 1] when there are two gates or more, [R] when there
    is one. *)
Theorem final_gate_constraints (truth gates : string)
  (filename : option string) (n : nat) :
  String.length truth = (2 ^ n)%nat ->
  bit_string truth = true ->
  let R := List.length (gate_markers gates) in
  let s := if (2 <=? R)%nat then (R - 1)%nat else R in
  exists M,
    make_circuit_lp truth gates filename = Done (lp_path filename) M /\
    forall j, (1 <= j <= 2 ^ n)%nat ->
      exists c,
        In c (constrs M) /\
        cvars c = input_vars n R j /\
        forall a, holds a c <->
          if nth (j - 1) (truth_bits truth) 0 =? 1
          then marker_of (gate_markers gates) s <= - input_val n a R j
          else 1 - marker_of (gate_markers gates) s <= input_val n a R j.
Proof.
  intros Hlen Hbits R s.
  exists (circuit_model n (truth_bits truth) (gate_markers gates)).
  split; [apply make_circuit_lp_done; assumption|].
  intros j Hj.
  exists (final_constr n R (gate_markers gates) j
                       (nth (j - 1) (truth_bits truth) 0)).
  split; [|split].
  - rewrite constrs_circuit_model. apply in_or_app. right. apply in_or_app. left.
    apply in_final_constrs. rewrite truth_bits_length, Hlen. exact Hj.
  - apply cvars_final_constr.
  - intros a. apply holds_final_constr.
Qed.

Lemma final_gate_constraints_witness :
  exists M,
    make_circuit_lp "01" "NOT NAND" None = Done "circuit.lp" M /\
    forall j, (1 <= j <= 2 ^ 1)%nat ->
      exists c,
        In c (constrs M) /\
        cvars c = input_vars 1 2 j /\
        forall a, holds a c <->
          if nth (j - 1) [0; 1] 0 =? 1
          then marker_of [0; -1] 1 <= - input_val 1 a 2 j
          else 1 - marker_of [0; -1] 1 <= input_val 1 a 2 j.
Proof.
  apply (final_gate_constraints "01" "NOT NAND" None 1); reflexivity.
Defined.

(** ** The characters of the truth string *)

Lemma py_int_single (c : ascii) :
  py_int (String c EmptyString)
  = match digit_val c with
    | Some d => Ok d
    | None => Raise ValueError
    end.
Proof. destruct c as [[] [] [] [] [] [] [] []]; reflexivity. Qed.

Lemma digit_one (c : ascii) (d : Z) :
  digit_val c = Some d -> (d =? 1) = Ascii.eqb c "1".
Proof.
  destruct c as [[] [] [] [] [] [] [] []]; cbn; intros E;
    try discriminate; inversion E; reflexivity.
Qed.

Lemma parse_digits (s : string) :
  digit_string s = true ->
  mapM (fun c => py_int (String c EmptyString)) (list_ascii_of_string s)
  = Ok (truth_digits s).
Proof.
  unfold digit_string, truth_digits. intros H. apply mapM_ok.
  intros c Hc. rewrite forallb_forall in H. specialize (H c Hc).
  rewrite py_int_single. unfold is_digit in H.
  destruct (digit_val c); [reflexivity | discriminate].
Qed.

Lemma parse_non_digit (s : string) :
  digit_string s = false ->
  mapM (fun c => py_int (String c EmptyString)) (list_ascii_of_string s)
  = Raise ValueError.
Proof.
  unfold digit_string. induction (list_ascii_of_string s) as [|c l IH];
    cbn [forallb mapM]; [discriminate|].
  rewrite py_int_single. unfold is_digit at 1.
  destruct (digit_val c); cbn [andb bind]; [|reflexivity].
  intros H. rewrite (IH H). reflexivity.
Qed.

Lemma enumerate_from_map {X Y : Type} (f : X -> Y) (l : list X) (a : nat) :
  combine (seq a (List.length (map f l))) (map f l)
  = map (fun jv => (fst jv, f (snd jv))) (combine (seq a (List.length l)) l).
Proof.
  revert a. induction l as [|x l IH]; intros a; cbn [map List.length seq combine];
    [reflexivity|].
  rewrite IH. reflexivity.
Qed.

Lemma final_constrs_bits (n R : nat) (gates truth : list Z) :
  final_constrs n R gates (map (fun v => if v =? 1 then 1 else 0) truth)
  = final_constrs n R gates truth.
Proof.
  unfold final_constrs, enumerate. rewrite enumerate_from_map, map_map.
  apply map_ext. intros [j v]. cbn [fst snd]. unfold final_constr.
  destruct (v =? 1); reflexivity.
Qed.

Lemma truth_digits_bits (s : string) :
  digit_string s = true ->
  map (fun v => if v =? 1 then 1 else 0) (truth_digits s) = truth_bits s.
Proof.
  unfold digit_string, truth_digits, truth_bits. intros H. rewrite map_map.
  apply map_ext_in. intros c Hc. rewrite forallb_forall in H.
  specialize (H c Hc). unfold is_digit in H. unfold bit_val.
  destruct (digit_val c) as [d|] eqn:E; [|discriminate].
  rewrite (digit_one c d E). reflexivity.
Qed.

Lemma circuit_model_digits (n : nat) (s : string) (gates : list Z) :
  digit_string s = true ->
  circuit_model n (truth_digits s) gates = circuit_model n (truth_bits s) gates.
Proof.
  intros H. unfold circuit_model, all_constrs.
  rewrite <- (final_constrs_bits n _ gates (truth_digits s)).
  rewrite truth_digits_bits by exact H. reflexivity.
Qed.

Lemma make_circuit_lp_digits (truth gates : string) (filename : option string)
  (n : nat) :
  String.length truth = (2 ^ n)%nat ->
  digit_string truth = true ->
  make_circuit_lp truth gates filename
  = Done (lp_path filename)
         (circuit_model n (truth_bits truth) (gate_markers gates)).
Proof.
  intros Hlen Hdig. rewrite <- circuit_model_digits by exact Hdig.
  unfold make_circuit_lp.
  rewrite Hlen, int_log2_pow2, parse_digits by exact Hdig.
  fold (gate_markers gates).
  rewrite (constrain_done n _ (gate_markers gates) (truth_digits truth) eq_refl).
  - reflexivity.
  - apply gate_markers_length.
  - unfold truth_digits. rewrite length_map, length_list_ascii. exact Hlen.
  - apply k_after_alloc_eq, gate_markers_length.
Qed.

Lemma as_bits_length (s : string) : String.length (as_bits s) = String.length s.
Proof. induction s as [|c s IH]; cbn [as_bits String.length]; congruence. Qed.

Lemma as_bits_bit_string (s : string) : bit_string (as_bits s) = true.
Proof.
  unfold bit_string. induction s as [|c s IH]; [reflexivity|].
  cbn [as_bits list_ascii_of_string forallb]. rewrite IH.
  destruct (Ascii.eqb c "1"); reflexivity.
Qed.

Lemma as_bits_truth_bits (s : string) : truth_bits (as_bits s) = truth_bits s.
Proof.
  unfold truth_bits. induction s as [|c s IH]; [reflexivity|].
  cbn [as_bits list_ascii_of_string map]. rewrite IH. f_equal.
  unfold bit_val. destruct (Ascii.eqb c "1") eqn:E; reflexivity.
Qed.

(** X5. A truth string of decimal digits of length [2^n] is accepted
    whatever the digits are, and every digit other than 1 counts as 0: the
    model written is the one of the string with these digits replaced
    by 0. *)
Theorem truth_digits_read_as_bits (truth gates : string)
  (filename : option string) (n : nat) :
  String.length truth = (2 ^ n)%nat ->
  digit_string truth = true ->
  exists M,
    make_circuit_lp truth gates filename = Done (lp_path filename) M /\
    make_circuit_lp (as_bits truth) gates filename = Done (lp_path filename) M.
Proof.
  intros Hlen Hdig.
  exists (circuit_model n (truth_bits truth) (gate_markers gates)). split.
  - apply make_circuit_lp_digits; assumption.
  - rewrite <- as_bits_truth_bits. apply make_circuit_lp_done.
    + rewrite as_bits_length. exact Hlen.
    + apply as_bits_bit_string.
Qed.

Lemma truth_digits_read_as_bits_witness :
  exists M,
    make_circuit_lp "2190" "NOT NAND" None = Done "circuit.lp" M /\
    make_circuit_lp "0100" "NOT NAND" None = Done "circuit.lp" M.
Proof.
  apply (truth_digits_read_as_bits "2190" "NOT NAND" None 2); reflexivity.
Defined.

(** X6. A truth string with a character that is no decimal digit makes
    [make_circuit_lp] raise [ValueError] before any variable is added, and
    [solve_circuit_lp] passes the exception on without any effect. *)
Theorem truth_non_digit_raises (truth gates : string)
  (filename : option string) :
  digit_string truth = false ->
  make_circuit_lp truth gates filename = Failed ValueError empty_model /\
  forall path_exists read_lines verbose delete_lp delete_log,
    solve_circuit_lp path_exists read_lines truth gates filename verbose
                     delete_lp delete_log = ([], Raise ValueError).
Proof.
  intros Hdig.
  assert (forall f, make_circuit_lp truth gates f
                    = Failed ValueError empty_model) as H.
  { intros f. unfold make_circuit_lp, int_log2.
    destruct truth as [|c truth']; [discriminate Hdig|].
    cbn [String.length]. rewrite parse_non_digit by exact Hdig. reflexivity. }
  split; [apply H|]. intros. unfold solve_circuit_lp. rewrite H. reflexivity.
Qed.

Lemma truth_non_digit_raises_witness :
  make_circuit_lp "0x" "NOT NAND" None = Failed ValueError empty_model /\
  forall path_exists read_lines verbose delete_lp delete_log,
    solve_circuit_lp path_exists read_lines "0x" "NOT NAND" None verbose
                     delete_lp delete_log = ([], Raise ValueError).
Proof. apply (truth_non_digit_raises "0x" "NOT NAND" None). reflexivity. Defined.

(** ** Splitting strings *)

Lemma split_free (sep : ascii) (s : string) :
  free_of sep s = true -> split sep s = [s].
Proof.
  unfold free_of. induction s as [|c s IH]; [reflexivity|].
  cbn [list_ascii_of_string forallb split]. rewrite andb_true_iff, negb_true_iff.
  intros [Hc Hs]. rewrite Hc, (IH Hs). reflexivity.
Qed.

Lemma split_append (sep : ascii) (s t : string) :
  free_of sep s = true ->
  split sep (s ++ String sep t) = s :: split sep t.
Proof.
  unfold free_of. induction s as [|c s IH].
  - intros _. cbn [append split]. rewrite Ascii.eqb_refl. reflexivity.
  - cbn [list_ascii_of_string forallb append split].
    rewrite andb_true_iff, negb_true_iff. intros [Hc Hs].
    rewrite Hc, (IH Hs). reflexivity.
Qed.

Lemma split_length_count (sep : ascii) (s : string) :
  List.length (split sep s) = S (count_char sep s).
Proof.
  unfold count_char. induction s as [|c s IH]; [reflexivity|].
  cbn [split list_ascii_of_string filter].
  destruct (Ascii.eqb c sep).
  - cbn [List.length]. rewrite IH. reflexivity.
  - destruct (split sep s) as [|w ws]; cbn [List.length] in *;
      [discriminate IH | exact IH].
Qed.

Lemma split_pieces_free (sep : ascii) (s : string) :
  Forall (fun w => free_of sep w = true) (split sep s).
Proof.
  induction s as [|c s IH]; [repeat constructor|].
  cbn [split]. destruct (Ascii.eqb c sep) eqn:E.
  - constructor; [reflexivity | exact IH].
  - destruct (split sep s) as [|w ws].
    + constructor; [|constructor]. unfold free_of. cbn. rewrite E. reflexivity.
    + inversion IH as [|? ? Hw Hws]; subst. constructor; [|exact Hws].
      unfold free_of in *. cbn [list_ascii_of_string forallb].
      rewrite E, Hw. reflexivity.
Qed.

Lemma split_join (sep : ascii) (s : string) :
  String.concat (String sep EmptyString) (split sep s) = s.
Proof.
  induction s as [|c s IH]; [reflexivity|].
  cbn [split]. destruct (Ascii.eqb_spec c sep) as [E|E].
  - subst c. pose proof (split_length sep s) as Hl.
    destruct (split sep s) as [|w ws] eqn:Es; [cbn in Hl; lia|].
    cbn [String.concat append] in *. rewrite IH. reflexivity.
  - pose proof (split_length sep s) as Hl.
    destruct (split sep s) as [|w ws] eqn:Es; [cbn in Hl; lia|].
    destruct ws as [|w' ws']; cbn [String.concat append] in *;
      rewrite IH; reflexivity.
Qed.

(** X7. The number of gates is one more than the number of spaces in the
    gate string, and the tags joined by spaces are the gate string: the
    empty string is one gate, and a doubled or trailing space adds a gate
    with the empty tag; all of these have the marker -1. *)
Theorem gate_count (gates : string) :
  List.length (gate_markers gates) = S (count_char " " gates) /\
  String.concat " " (split " " gates) = gates /\
  Forall (fun tag => free_of " " tag = true) (split " " gates) /\
  forall k, (1 <= k <= S (count_char " " gates))%nat ->
            gate_tag gates k = EmptyString ->
            marker_of (gate_markers gates) k = -1.
Proof.
  split; [|split; [|split]].
  - unfold gate_markers. rewrite length_map. apply split_length_count.
  - apply split_join.
  - apply split_pieces_free.
  - intros k Hk Ht. rewrite marker_of_tag, Ht; [reflexivity|].
    rewrite split_length_count. exact Hk.
Qed.

(** ** Names, solution lines and the printout *)

Lemma string_of_uint_free (c : ascii) (d : Decimal.uint) :
  digit_val c = None ->
  free_of c (NilEmpty.string_of_uint d) = true.
Proof.
  intros Hc. unfold free_of.
  assert (forall x d', digit_val x <> None ->
            forallb (fun y => negb (Ascii.eqb y c))
                    (list_ascii_of_string (NilEmpty.string_of_uint d')) = true ->
            forallb (fun y => negb (Ascii.eqb y c))
                    (list_ascii_of_string
                       (String x (NilEmpty.string_of_uint d'))) = true) as Hstep.
  { intros x d' Hx IH. cbn [list_ascii_of_string forallb]. rewrite IH.
    destruct (Ascii.eqb_spec x c) as [E|E]; [subst x; contradiction | reflexivity]. }
  induction d; cbn [NilEmpty.string_of_uint]; [reflexivity | ..];
    (apply Hstep; [discriminate | exact IHd]).
Qed.

Lemma str_nat_free_dot (m : nat) : free_of "." (str_nat m) = true.
Proof. apply string_of_uint_free. reflexivity. Qed.

Lemma str_nat_free_space (m : nat) : free_of " " (str_nat m) = true.
Proof. apply string_of_uint_free. reflexivity. Qed.

Lemma str_nat_inj (m m' : nat) : str_nat m = str_nat m' -> m = m'.
Proof.
  unfold str_nat. intros E. apply DecimalNat.Unsigned.to_uint_inj.
  pose proof (NilEmpty.usu (Nat.to_uint m)) as H.
  rewrite E, NilEmpty.usu in H. inversion H. reflexivity.
Qed.

Lemma split_two (a b : string) :
  free_of "." a = true -> free_of "." b = true ->
  split "." (a ++ String "." b) = [a; b].
Proof.
  intros Ha Hb. rewrite split_append by exact Ha.
  rewrite split_free by exact Hb. reflexivity.
Qed.

Lemma split_var_name (x : var) :
  split "." (var_name x) =
  match x with
  | Var_u el k => ["u"; str_nat el; str_nat k]
  | Var_v i k => ["v"; str_nat i; str_nat k]
  | Var_p k j => ["p"; str_nat k; str_nat j]
  | Var_r i k j => ["r"; str_nat i; str_nat k; str_nat j]
  end.
Proof.
  destruct x as [el k|i k|k j|i k j]; cbn [var_name].
  - change ("u." ++ str_nat el ++ "." ++ str_nat k)%string
      with ("u" ++ String "." (str_nat el ++ String "." (str_nat k)))%string.
    rewrite split_append by reflexivity.
    rewrite split_two by apply str_nat_free_dot. reflexivity.
  - change ("v." ++ str_nat i ++ "." ++ str_nat k)%string
      with ("v" ++ String "." (str_nat i ++ String "." (str_nat k)))%string.
    rewrite split_append by reflexivity.
    rewrite split_two by apply str_nat_free_dot. reflexivity.
  - change ("p." ++ str_nat k ++ "." ++ str_nat j)%string
      with ("p" ++ String "." (str_nat k ++ String "." (str_nat j)))%string.
    rewrite split_append by reflexivity.
    rewrite split_two by apply str_nat_free_dot. reflexivity.
  - change ("r." ++ str_nat i ++ "." ++ str_nat k ++ "." ++ str_nat j)%string
      with ("r" ++ String "."
              (str_nat i ++ String "."
                 (str_nat k ++ String "." (str_nat j))))%string.
    rewrite split_append by reflexivity.
    rewrite split_append by apply str_nat_free_dot.
    rewrite split_two by apply str_nat_free_dot. reflexivity.
Qed.

Lemma free_of_append (c : ascii) (s t : string) :
  free_of c s = true -> free_of c t = true -> free_of c (s ++ t) = true.
Proof.
  unfold free_of. intros Hs Ht. induction s as [|x s IH]; [exact Ht|].
  cbn [append list_ascii_of_string forallb] in *.
  apply andb_true_iff in Hs. destruct Hs as [Hx Hs].
  rewrite Hx, (IH Hs). reflexivity.
Qed.

Lemma var_name_free_space (x : var) : free_of " " (var_name x) = true.
Proof.
  destruct x; cbn [var_name];
    repeat (apply free_of_append;
            [first [apply str_nat_free_space | reflexivity]|]);
    apply str_nat_free_space.
Qed.

(** X8. Two variables with the same name are the same variable, so the
    names given to [add_var] are pairwise distinct; and a name holds no
    space. *)
Theorem var_name_injective (x y : var) :
  (var_name x = var_name y -> x = y) /\ free_of " " (var_name x) = true.
Proof.
  split.
  - intros E. apply (f_equal (split ".")) in E. rewrite !split_var_name in E.
    destruct x, y; try discriminate E; inversion E;
      repeat match goal with
             | H : str_nat _ = str_nat _ |- _ => apply str_nat_inj in H
             end; subst; reflexivity.
  - apply var_name_free_space.
Qed.

Lemma var_name_injective_witness :
  (var_name (Var_u 1 12) = var_name (Var_u 1 12) -> Var_u 1 12 = Var_u 1 12) /\
  free_of " " (var_name (Var_u 1 12)) = true.
Proof. exact (var_name_injective (Var_u 1 12) (Var_u 1 12)). Defined.

Lemma print_item_var (x : var) (v : Z) (out : list string) :
  print_item (var_name x, v) out =
  if three_pieces x then Done tt (out ++ connection_lines x)
  else Failed ValueError out.
Proof.
  unfold print_item. cbn [fst]. rewrite split_var_name.
  destruct x; cbn [three_pieces connection_lines String.eqb Ascii.eqb Bool.eqb];
    rewrite ?app_nil_r; reflexivity.
Qed.

Lemma print_connections_from (l : list (var * Z)) (out : list string) :
  forallb (fun xv => three_pieces (fst xv)) l = true ->
  forM (map (fun xv => (var_name (fst xv), snd xv)) l) print_item out
  = Done tt (out ++ flat_map (fun xv => connection_lines (fst xv)) l).
Proof.
  revert out. induction l as [|[x v] l IH]; intros out H.
  - cbn. rewrite app_nil_r. reflexivity.
  - cbn [forallb fst] in H. apply andb_true_iff in H. destruct H as [Hx Hl].
    cbn [map forM fst snd flat_map]. rewrite print_item_var, Hx.
    rewrite IH by exact Hl. rewrite app_assoc. reflexivity.
Qed.

(** X9. [print_connections] prints, in order, one line for every
    connection named after a [u] variable (an input) or a [v] variable (a
    gate) and none for one named after a [p] variable, whatever the
    values; at the first connection named after an [r] variable, whose
    name has four pieces, it raises [ValueError], having printed the lines
    before it. *)
Theorem print_connections_lines (l l' : list (var * Z)) (i k j : nat) (v : Z) :
  forallb (fun xv => three_pieces (fst xv)) l = true ->
  print_connections (map (fun xv => (var_name (fst xv), snd xv)) l)
  = Done tt (flat_map (fun xv => connection_lines (fst xv)) l) /\
  print_connections
    (map (fun xv => (var_name (fst xv), snd xv)) (l ++ (Var_r i k j, v) :: l'))
  = Failed ValueError (flat_map (fun xv => connection_lines (fst xv)) l).
Proof.
  intros H. unfold print_connections. split.
  - rewrite print_connections_from by exact H. reflexivity.
  - rewrite map_app, forM_app, print_connections_from by exact H.
    cbn [map forM fst snd app]. rewrite print_item_var. reflexivity.
Qed.

Lemma print_connections_lines_witness :
  print_connections
    (map (fun xv => (var_name (fst xv), snd xv))
         [(Var_u 1 1, 1); (Var_p 1 2, 1); (Var_v 1 2, 1)])
  = Done tt (flat_map (fun xv => connection_lines (fst xv))
                      [(Var_u 1 1, 1); (Var_p 1 2, 1); (Var_v 1 2, 1)]) /\
  print_connections
    (map (fun xv => (var_name (fst xv), snd xv))
         ([(Var_u 1 1, 1); (Var_p 1 2, 1); (Var_v 1 2, 1)]
            ++ (Var_r 1 2 1, 1) :: [(Var_u 1 2, 1)]))
  = Failed ValueError
           (flat_map (fun xv => connection_lines (fst xv))
                     [(Var_u 1 1, 1); (Var_p 1 2, 1); (Var_v 1 2, 1)]).
Proof.
  apply (print_connections_lines
           [(Var_u 1 1, 1); (Var_p 1 2, 1); (Var_v 1 2, 1)]
           [(Var_u 1 2, 1)] 1 2 1 1).
  reflexivity.
Defined.

Lemma split_spaces (pad : nat) (t : string) :
  split " " (spaces pad ++ t) = repeat EmptyString pad ++ split " " t.
Proof.
  induction pad as [|pad IH]; [reflexivity|].
  cbn [spaces append split repeat app]. rewrite Ascii.eqb_refl, IH. reflexivity.
Qed.

Lemma split_solution_line (name value : string) (pad : nat) :
  free_of " " name = true -> free_of " " value = true ->
  split " " (solution_line name value pad)
  = name :: repeat EmptyString pad ++ [value; obj1].
Proof.
  intros Hn Hv. unfold solution_line.
  rewrite split_append by exact Hn. rewrite split_spaces.
  rewrite split_append by exact Hv. reflexivity.
Qed.

Lemma solution_line_entry (name value : string) (pad : nat) (v : Z) :
  free_of " " name = true -> free_of " " value = true ->
  py_int value = Ok v ->
  annotated (solution_line name value pad) = true /\
  line_entry (solution_line name value pad) = Ok (name, v).
Proof.
  intros Hn Hv Hint. unfold annotated, line_entry.
  rewrite split_solution_line by assumption. split.
  - cbn [existsb]. rewrite existsb_app. cbn [existsb].
    rewrite String.eqb_refl, !orb_true_r. reflexivity.
  - unfold entry, index, index_back. cbn [nth_error of_option bind List.length].
    rewrite length_app, repeat_length. cbn [List.length].
    destruct (Nat.leb_spec 2 (S (pad + 2))); [|lia].
    replace (S (pad + 2) - 2)%nat with (S pad) by lia.
    unfold index. cbn [nth_error].
    rewrite nth_error_app2 by (rewrite repeat_length; lia).
    rewrite repeat_length, Nat.sub_diag. cbn [nth_error of_option bind].
    rewrite Hint. reflexivity.
Qed.

(** X10. A line of the log made of a name without spaces, one space or
    more, a value without spaces that [int()] reads, one space and the
    token [\t(obj:1)\n] is decoded to the pair of the name and the value;
    a log of such lines gives their pairs in order. *)
Theorem decode_solution_lines (l : list (string * string * nat * Z)) :
  Forall (fun r => free_of " " (fst (fst (fst r))) = true /\
                   free_of " " (snd (fst (fst r))) = true /\
                   py_int (snd (fst (fst r))) = Ok (snd r)) l ->
  decode (map (fun r => solution_line (fst (fst (fst r))) (snd (fst (fst r)))
                                      (snd (fst r))) l) []
  = Ok (map (fun r => (fst (fst (fst r)), snd r)) l).
Proof.
  intros H. rewrite decode_mapM.
  assert (filter annotated
            (map (fun r => solution_line (fst (fst (fst r)))
                             (snd (fst (fst r))) (snd (fst r))) l)
          = map (fun r => solution_line (fst (fst (fst r)))
                            (snd (fst (fst r))) (snd (fst r))) l) as ->.
  { induction H as [|r l [Hn [Hv Hi]] _ IH]; [reflexivity|].
    cbn [map filter].
    destruct (solution_line_entry _ _ (snd (fst r)) _ Hn Hv Hi) as [Ha _].
    rewrite Ha, IH. reflexivity. }
  rewrite (mapM_ok _ (fun line => match line_entry line with
                                  | Ok e => e
                                  | Raise _ => (EmptyString, 0)
                                  end)).
  - cbn [bind app]. rewrite map_map. f_equal.
    induction H as [|r l [Hn [Hv Hi]] _ IH]; [reflexivity|].
    cbn [map].
    destruct (solution_line_entry _ _ (snd (fst r)) _ Hn Hv Hi) as [_ He].
    rewrite He, IH. reflexivity.
  - intros line Hin. apply in_map_iff in Hin. destruct Hin as [r [E Hr]].
    rewrite Forall_forall in H. destruct (H r Hr) as [Hn [Hv Hi]].
    destruct (solution_line_entry _ _ (snd (fst r)) _ Hn Hv Hi) as [_ He].
    subst line. rewrite He. reflexivity.
Qed.

Lemma decode_solution_lines_witness :
  decode (map (fun r => solution_line (fst (fst (fst r))) (snd (fst (fst r)))
                                      (snd (fst r)))
              [("u.1.2", "1", 40%nat, 1); ("v.1.2", "+1", 0%nat, 1)]) []
  = Ok (map (fun r => (fst (fst (fst r)), snd r))
            [("u.1.2", "1", 40%nat, 1); ("v.1.2", "+1", 0%nat, 1)]).
Proof.
  apply (decode_solution_lines
           [("u.1.2", "1", 40%nat, 1); ("v.1.2", "+1", 0%nat, 1)]).
  repeat constructor.
Defined.

(** X11. From the log to the printout: when the log lists connection
    variables ([u] and [v]) with the value 1, one solution line each, the
    decoded list is the names with the value 1 and [print_connections]
    prints the line of each connection, in the order of the log. *)
Theorem log_to_printout (xs : list var) (pad : nat) :
  forallb three_pieces xs = true ->
  exists connect,
    decode (map (fun x => solution_line (var_name x) "1" pad) xs) [] = Ok connect /\
    connect = map (fun x => (var_name x, 1)) xs /\
    print_connections connect = Done tt (flat_map connection_lines xs).
Proof.
  intros H. exists (map (fun x => (var_name x, 1)) xs). split; [|split].
  - pose proof (decode_mapM
                  (map (fun x => solution_line (var_name x) "1" pad) xs) []) as E.
    rewrite E. clear E.
    assert (forall x, annotated (solution_line (var_name x) "1" pad) = true /\
                      line_entry (solution_line (var_name x) "1" pad)
                      = Ok (var_name x, 1)) as Hx.
    { intros x. apply solution_line_entry; [|reflexivity|reflexivity].
      apply var_name_free_space. }
    assert (filter annotated
              (map (fun x => solution_line (var_name x) "1" pad) xs)
            = map (fun x => solution_line (var_name x) "1" pad) xs) as ->.
    { clear H. induction xs as [|x xs IH]; [reflexivity|].
      cbn [map filter]. rewrite (proj1 (Hx x)), IH. reflexivity. }
    rewrite (mapM_ok _ (fun line => match line_entry line with
                                    | Ok e => e
                                    | Raise _ => (EmptyString, 0)
                                    end)).
    + cbn [bind app]. rewrite map_map. f_equal. apply map_ext.
      intros x. rewrite (proj2 (Hx x)). reflexivity.
    + intros line Hin. apply in_map_iff in Hin. destruct Hin as [x [E _]].
      subst line. rewrite (proj2 (Hx x)). reflexivity.
  - reflexivity.
  - unfold print_connections.
    pose proof (print_connections_from (map (fun x => (x, 1)) xs) []) as P.
    rewrite !map_map in P. cbn [fst snd] in P. rewrite P.
    + cbn [app]. f_equal. clear. induction xs as [|x xs IH]; [reflexivity|].
      cbn [map flat_map fst]. rewrite IH. reflexivity.
    + rewrite forallb_forall in *. intros [x v] Hin. apply in_map_iff in Hin.
      destruct Hin as [x' [E Hx']]. inversion E; subst. cbn [fst].
      apply H. exact Hx'.
Qed.

Lemma log_to_printout_witness :
  exists connect,
    decode (map (fun x => solution_line (var_name x) "1" 3)
                [Var_u 1 1; Var_v 1 2]) [] = Ok connect /\
    connect = map (fun x => (var_name x, 1)) [Var_u 1 1; Var_v 1 2] /\
    print_connections connect
    = Done tt (flat_map connection_lines [Var_u 1 1; Var_v 1 2]).
Proof. apply (log_to_printout [Var_u 1 1; Var_v 1 2] 3). reflexivity. Defined.

(** ** The rows of the assignment matrix *)

Lemma in_product01 (n : nat) (row : list Z) :
  In row (product01 n) <-> bit_row n row.
Proof.
  unfold bit_row. revert row. induction n as [|n IH]; intros row.
  - cbn [product01 In]. split.
    + intros [E|[]]. subst row. split; [reflexivity | constructor].
    + intros [Hl _]. left. destruct row; [reflexivity | discriminate].
  - cbn [product01 flat_map]. rewrite app_nil_r, in_app_iff, !in_map_iff. split.
    + intros [[r [E Hr]]|[r [E Hr]]]; apply IH in Hr; destruct Hr as [Hl Hf];
        subst row; cbn [List.length]; (split; [congruence|]);
        constructor; auto.
    + intros [Hl Hf]. destruct row as [|b row]; [discriminate|].
      inversion Hf as [|? ? Hb Hrow]; subst. cbn [List.length] in Hl.
      assert (In row (product01 n)) as Hin by (apply IH; split; [lia | exact Hrow]).
      destruct Hb as [Hb|Hb]; subst b; [left | right]; exists row; auto.
Qed.

Lemma NoDup_product01 (n : nat) : NoDup (product01 n).
Proof.
  induction n as [|n IH]; [repeat constructor; intros []|].
  cbn [product01 flat_map]. rewrite app_nil_r. apply NoDup_app.
  - apply NoDup_map_NoDup_ForallPairs; [|exact IH].
    intros x y _ _ E. inversion E. reflexivity.
  - apply NoDup_map_NoDup_ForallPairs; [|exact IH].
    intros x y _ _ E. inversion E. reflexivity.
  - intros row H0 H1. apply in_map_iff in H0, H1.
    destruct H0 as [r0 [E0 _]], H1 as [r1 [E1 _]]. subst row. discriminate E1.
Qed.

Lemma bit_row_rev (n : nat) (row : list Z) : bit_row n row -> bit_row n (rev row).
Proof.
  unfold bit_row. intros [Hl Hf]. split; [rewrite length_rev; exact Hl|].
  apply Forall_rev. exact Hf.
Qed.

(** X12. The assignment matrix has every row of [n] bits exactly once:
    its rows are pairwise distinct, and a list is a row of it if and only
    if it has [n] entries, each 0 or 1. *)
Theorem table_rows_once (n : nat) (row : list Z) :
  NoDup (fliplr (product01 n)) /\
  (In row (fliplr (product01 n)) <-> bit_row n row).
Proof.
  split.
  - unfold fliplr. apply NoDup_map_NoDup_ForallPairs; [|apply NoDup_product01].
    intros x y _ _ E. rewrite <- (rev_involutive x), E. apply rev_involutive.
  - unfold fliplr. rewrite in_map_iff. split.
    + intros [r [E Hr]]. subst row. apply bit_row_rev, in_product01. exact Hr.
    + intros H. exists (rev row). split; [apply rev_involutive|].
      apply in_product01, bit_row_rev. exact H.
Qed.

(** ** What is removed at the end of a run *)

Section Cleanup.

Variable path_exists : list effect -> string -> bool.
Variable read_lines : list effect -> string -> option (list string).

(** X13. The model file is removed exactly when [delete_lp] is set and a
    list is returned.  When an exception leaves [solve_circuit_lp] after
    the model was written (the log cannot be opened, or an annotated line
    cannot be decoded), the run of the solver and the opening of the log
    are the last effects: neither file is removed, whatever the flags.
    When a list is returned and [delete_log] is set, removing the log is
    the last effect. *)
Theorem solve_cleanup (truth gates : string) (filename : option string)
  (verbose delete_lp delete_log : bool) :
  let run := solve_circuit_lp path_exists read_lines truth gates filename
                              verbose delete_lp delete_log in
  let base := normalize filename in
  (In (System ("rm " ++ base ++ ".lp")%string) (fst run) <->
   delete_lp = true /\ exists connect, snd run = Ok connect) /\
  (forall e, snd run = Raise e ->
             fst run = [] \/
             exists pre, fst run = pre ++ [System (scip_cmd verbose base);
                                           Open_read (base ++ ".log")%string]) /\
  (forall connect, snd run = Ok connect -> delete_log = true ->
                   exists pre,
                     fst run = pre ++ [System ("rm " ++ base ++ ".log")%string]).
Proof.
  cbv zeta. unfold solve_circuit_lp.
  pose proof (rm_lp_not_rm_log (normalize filename)) as N1.
  pose proof (rm_not_scip verbose (normalize filename)
                          (normalize filename ++ ".lp")) as N2.
  destruct (make_circuit_lp truth gates (Some (normalize filename)))
    as [path M|e M].
  2: { cbn [fst snd In]. split; [|split].
       - split; [intros [] | intros [_ [c Hc]]; discriminate Hc].
       - intros. left. reflexivity.
       - intros c Hc. discriminate Hc. }
  cbv zeta.
  destruct (path_exists _ _);
    destruct (read_lines _ _) as [lines|];
    try destruct (decode lines []) as [connect|e];
    destruct delete_lp, delete_log; cbn [fst snd app In];
    (split; [|split]);
    try (intros ? H; discriminate H);
    try (intros ? H ?; discriminate);
    try (intros ? H; right; eexists (_ :: _ :: nil); reflexivity);
    try (intros ? H; right; eexists (_ :: _ :: _ :: nil); reflexivity);
    try (intros ? H _; eexists (_ :: _ :: _ :: _ :: nil); reflexivity);
    try (intros ? H _; eexists (_ :: _ :: _ :: _ :: _ :: nil); reflexivity);
    try (intros ? H _; eexists (_ :: _ :: _ :: _ :: _ :: _ :: nil); reflexivity);
    try (split;
         [ intros H; repeat (destruct H as [H|H]; try discriminate H);
           try (inversion H; congruence); try contradiction;
           try (split; [reflexivity | eexists; reflexivity])
         | intros [H [c Hc]]; try discriminate H; try discriminate Hc;
           auto 10 ]).
Qed.

End Cleanup.

(** ** The objective *)

Lemma sumZ_map_add {X : Type} (f g : X -> Z) (l : list X) :
  sumZ (map (fun x => f x + g x) l) = sumZ (map f l) + sumZ (map g l).
Proof.
  induction l as [|x l IH]; cbn [map sumZ fold_right]; [reflexivity|].
  fold (sumZ (map (fun x => f x + g x) l)). fold (sumZ (map f l)).
  fold (sumZ (map g l)). lia.
Qed.

Lemma sumZ_swap {X Y : Type} (f : X -> Y -> Z) (l1 : list X) (l2 : list Y) :
  sumZ (map (fun x => sumZ (map (f x) l2)) l1)
  = sumZ (map (fun y => sumZ (map (fun x => f x y) l1)) l2).
Proof.
  induction l1 as [|x l1 IH]; cbn [map sumZ fold_right].
  - induction l2 as [|y l2 IH2]; cbn [map sumZ fold_right]; [reflexivity|].
    fold (sumZ (map (fun _ : Y => 0) l2)). rewrite <- IH2. reflexivity.
  - fold (sumZ (map (fun x => sumZ (map (f x) l2)) l1)). rewrite IH.
    rewrite <- sumZ_map_add. reflexivity.
Qed.

Lemma sumZ_le {X : Type} (f g : X -> Z) (l : list X) :
  (forall x, In x l -> f x <= g x) -> sumZ (map f l) <= sumZ (map g l).
Proof.
  induction l as [|x l IH]; intros H; cbn [map sumZ fold_right]; [lia|].
  fold (sumZ (map f l)). fold (sumZ (map g l)).
  pose proof (H x (or_introl eq_refl)).
  assert (sumZ (map f l) <= sumZ (map g l))
    by (apply IH; intros y Hy; apply H; right; exact Hy).
  lia.
Qed.

Lemma sumZ_const {X : Type} (c : Z) (l : list X) :
  sumZ (map (fun _ => c) l) = c * Z.of_nat (List.length l).
Proof.
  induction l as [|x l IH]; cbn [map sumZ fold_right List.length]; [lia|].
  fold (sumZ (map (fun _ : X => c) l)). rewrite IH. lia.
Qed.

Lemma eval_xsum_vars (a : assignment) (l : list var) :
  eval a (xsum (map le_var l)) = sumZ (map a l).
Proof.
  rewrite eval_xsum, map_map. f_equal. apply map_ext. intros x. apply eval_var.
Qed.

Lemma eval_objective (n R : nat) (a : assignment) :
  eval a (objective (allocate n R)) = sumZ (map (fan_in n a) (seq 1 R)).
Proof.
  unfold allocate. cbn [objective set_objective]. rewrite eval_add, !eval_xsum.
  rewrite !map_map. unfold alloc_U, alloc_V. rewrite !map_map.
  rewrite (map_ext _ (fun el => sumZ (map (fun k => a (Var_u el k))
                                          (range 1 (R + 1)))))
    by (intros el; rewrite eval_xsum_vars, map_map; reflexivity).
  rewrite (map_ext (fun k => eval a (xsum (map le_var
                                              (map (fun i => Var_v i k)
                                                   (range 1 k)))))
                   (fun k => sumZ (map (fun i => a (Var_v i k)) (range 1 k))))
    by (intros k; rewrite eval_xsum_vars, map_map; reflexivity).
  rewrite (sumZ_swap (fun el k => a (Var_u el k))).
  rewrite !range_succ. unfold fan_in. rewrite sumZ_map_add. reflexivity.
Qed.

(** X14. The objective counts the connections: under every assignment its
    value is the sum over the gates of their fan-in
    [Sum_e u[e][k] + Sum_{i<k} v[i][k]]; so under a feasible assignment it
    lies between 0 and the sum of [1 - marker(k)] over the gates, which is
    at most [2 R]. *)
Theorem objective_counts_connections (truth gates : string)
  (filename : option string) (n : nat) :
  String.length truth = (2 ^ n)%nat ->
  bit_string truth = true ->
  let R := List.length (gate_markers gates) in
  exists M,
    make_circuit_lp truth gates filename = Done (lp_path filename) M /\
    (forall a, eval a (objective M) = sumZ (map (fan_in n a) (seq 1 R))) /\
    (forall a, feasible a M ->
       0 <= eval a (objective M)
       <= sumZ (map (fun k => 1 - marker_of (gate_markers gates) k) (seq 1 R))) /\
    sumZ (map (fun k => 1 - marker_of (gate_markers gates) k) (seq 1 R))
    <= 2 * Z.of_nat R.
Proof.
  intros Hlen Hbits R.
  exists (circuit_model n (truth_bits truth) (gate_markers gates)).
  split; [apply make_circuit_lp_done; assumption|].
  split; [intros a; apply eval_objective|].
  split.
  - intros a Hfeas.
    change (objective (circuit_model n (truth_bits truth) (gate_markers gates)))
      with (objective (allocate n R)).
    rewrite eval_objective. split.
    + pose proof (sumZ_le (fun _ => 0) (fan_in n a) (seq 1 R)) as H0.
      rewrite sumZ_const, Z.mul_0_l in H0. apply H0. intros k Hk. apply in_seq_1 in Hk.
      unfold fan_in.
      pose proof (sumZ_bounds (fun el => a (Var_u el k)) (seq 1 n)) as B1.
      pose proof (sumZ_bounds (fun i => a (Var_v i k)) (seq 1 (k - 1))) as B2.
      assert (forall x, In x (seq 1 n) -> 0 <= a (Var_u x k) <= 1) as G1.
      { intros el Hel. apply in_seq_1 in Hel.
        destruct (feasible_binary n truth gates a Hfeas (Var_u el k));
          [cbn [allocated]; fold R; lia | lia | lia]. }
      assert (forall x, In x (seq 1 (k - 1)) -> 0 <= a (Var_v x k) <= 1) as G2.
      { intros i Hi. apply in_seq_1 in Hi.
        destruct (feasible_binary n truth gates a Hfeas (Var_v i k));
          [cbn [allocated]; fold R; lia | lia | lia]. }
      specialize (B1 G1). specialize (B2 G2). lia.
    + apply sumZ_le. intros k Hk. apply in_seq_1 in Hk.
      destruct Hfeas as [_ Hall]. apply holds_fanin_constr. apply Hall.
      rewrite constrs_circuit_model. do 3 (apply in_or_app; right).
      apply in_fanin_constrs. exact Hk.
  - pose proof (sumZ_le (fun k => 1 - marker_of (gate_markers gates) k)
                        (fun _ => 2) (seq 1 R)) as H2.
    rewrite sumZ_const, length_seq in H2. apply H2. intros k _.
    destruct (marker_of_cases gates k); lia.
Qed.

Lemma objective_counts_connections_witness :
  exists M,
    make_circuit_lp "01" "NOT NAND" None = Done "circuit.lp" M /\
    (forall a, eval a (objective M) = sumZ (map (fan_in 1 a) (seq 1 2))) /\
    (forall a, feasible a M ->
       0 <= eval a (objective M)
       <= sumZ (map (fun k => 1 - marker_of [0; -1] k) (seq 1 2))) /\
    sumZ (map (fun k => 1 - marker_of [0; -1] k) (seq 1 2)) <= 2 * Z.of_nat 2.
Proof.
  apply (objective_counts_connections "01" "NOT NAND" None 1); reflexivity.
Defined.

(** ** The size of the model *)

Lemma length_flat_map_const {X Y : Type} (f : X -> list Y) (l : list X)
  (c : nat) :
  (forall x, In x l -> List.length (f x) = c) ->
  List.length (flat_map f l) = (c * List.length l)%nat.
Proof.
  induction l as [|x l IH]; intros H; cbn [flat_map List.length]; [lia|].
  rewrite length_app, (H x (or_introl eq_refl)), IH
    by (intros y Hy; apply H; right; exact Hy).
  lia.
Qed.

Lemma length_product {X Y : Type} (l1 : list X) (l2 : list Y) :
  List.length (product l1 l2) = (List.length l1 * List.length l2)%nat.
Proof.
  unfold product.
  rewrite (length_flat_map_const _ _ (List.length l2))
    by (intros; apply length_map).
  lia.
Qed.

Lemma length_triangle {Y : Type} (f : nat -> nat -> list Y) (c r : nat) :
  (forall k i, List.length (f k i) = c) ->
  (2 * List.length (flat_map (fun k => flat_map (f k) (seq 1 k)) (seq 1 r))
   = c * (r * (r + 1)))%nat.
Proof.
  intros Hf. induction r as [|r IH]; [cbn; lia|].
  rewrite seq_S, flat_map_app, length_app. cbn [flat_map].
  rewrite app_nil_r.
  rewrite (length_flat_map_const (f (1 + r)%nat) _ c) by (intros; apply Hf).
  rewrite length_seq. cbn [Nat.add]. nia.
Qed.

Lemma length_and_constrs (n R : nat) :
  List.length (and_constrs n R) = (R * (R - 1) * 2 ^ n)%nat.
Proof.
  unfold and_constrs. rewrite flat_map_product. cbn [fst snd].
  destruct R as [|R']; [reflexivity|].
  replace (S R' - 1)%nat with R' by lia.
  replace (seq 2 R') with (map S (seq 1 R')) by (apply seq_shift).
  rewrite flat_map_concat_map, map_map, <- flat_map_concat_map.
  pose proof (length_triangle
                (fun k i => flat_map (fun j => [and_up i (S k) j;
                                                and_down i (S k) j])
                                     (seq 1 (2 ^ n)))
                (2 * 2 ^ n)%nat R') as H.
  assert (forall l : list nat,
             flat_map (fun k => flat_map
                        (fun j => flat_map (fun i => [and_up i (S k) j;
                                                      and_down i (S k) j])
                                           (seq 1 (S k - 1)))
                        (seq 1 (2 ^ n))) l
             = flat_map (fun k => flat_map
                        (fun j => flat_map (fun i => [and_up i (S k) j;
                                                      and_down i (S k) j])
                                           (seq 1 k))
                        (seq 1 (2 ^ n))) l) as E.
  { intros l. apply flat_map_ext. intros k. apply flat_map_ext. intros j.
    replace (S k - 1)%nat with k by lia. reflexivity. }
  rewrite E.
  assert (forall k,
             List.length (flat_map (fun j => flat_map
                                      (fun i => [and_up i (S k) j;
                                                 and_down i (S k) j])
                                      (seq 1 k)) (seq 1 (2 ^ n)))
             = List.length (flat_map (fun i => flat_map
                                        (fun j => [and_up i (S k) j;
                                                   and_down i (S k) j])
                                        (seq 1 (2 ^ n))) (seq 1 k))) as Hsw.
  { intros k.
    rewrite (length_flat_map_const _ _ (2 * k)%nat).
    - rewrite (length_flat_map_const _ (seq 1 k) (2 * 2 ^ n)%nat).
      + rewrite !length_seq. lia.
      + intros i _. rewrite (length_flat_map_const _ _ 2%nat) by reflexivity.
        rewrite length_seq. lia.
    - intros j _. rewrite (length_flat_map_const _ _ 2%nat) by reflexivity.
      rewrite length_seq. lia. }
  assert (forall l : list nat,
             List.length (flat_map (fun k => flat_map
                                      (fun j => flat_map
                                         (fun i => [and_up i (S k) j;
                                                    and_down i (S k) j])
                                         (seq 1 k)) (seq 1 (2 ^ n))) l)
             = List.length (flat_map (fun k => flat_map
                                        (fun i => flat_map
                                           (fun j => [and_up i (S k) j;
                                                      and_down i (S k) j])
                                           (seq 1 (2 ^ n))) (seq 1 k)) l)) as Hl.
  { intros l. induction l as [|k l IH]; [reflexivity|].
    cbn [flat_map]. rewrite !length_app, Hsw, IH. reflexivity. }
  rewrite Hl.
  assert (forall k i,
             List.length (flat_map (fun j => [and_up i (S k) j;
                                              and_down i (S k) j])
                                   (seq 1 (2 ^ n))) = (2 * 2 ^ n)%nat) as Hc.
  { intros k i. rewrite (length_flat_map_const _ _ 2%nat) by reflexivity.
    rewrite length_seq. lia. }
  specialize (H Hc). nia.
Qed.

Lemma length_constrs (n : nat) (truth gates : list Z) :
  List.length truth = (2 ^ n)%nat ->
  List.length (constrs (circuit_model n truth gates))
  = (2 * (List.length gates - 1) * 2 ^ n + 2 ^ n +
     List.length gates * (List.length gates - 1) * 2 ^ n +
     List.length gates)%nat.
Proof.
  intros Hlen. rewrite constrs_circuit_model, !length_app.
  rewrite length_and_constrs. unfold gate_constrs, final_constrs, fanin_constrs.
  rewrite (length_flat_map_const _ _ 2%nat) by reflexivity.
  rewrite length_product, !length_map, !length_seq.
  unfold enumerate. rewrite length_combine, length_seq, Hlen. lia.
Qed.

(** X15. For a truth string of length [2^n] and [R] gates the model has
    [2 (R-1) 2^n] gate constraints, [2^n] final-gate constraints,
    [R (R-1) 2^n] linearization constraints and [R] fan-in constraints,
    in this order and nothing else. *)
Theorem model_size (truth gates : string) (filename : option string)
  (n : nat) :
  String.length truth = (2 ^ n)%nat ->
  bit_string truth = true ->
  let R := List.length (gate_markers gates) in
  exists M,
    make_circuit_lp truth gates filename = Done (lp_path filename) M /\
    List.length (constrs M)
    = (2 * (R - 1) * 2 ^ n + 2 ^ n + R * (R - 1) * 2 ^ n + R)%nat /\
    exists gate_part final_part and_part fanin_part,
      constrs M = gate_part ++ final_part ++ and_part ++ fanin_part /\
      List.length gate_part = (2 * (R - 1) * 2 ^ n)%nat /\
      List.length final_part = (2 ^ n)%nat /\
      List.length and_part = (R * (R - 1) * 2 ^ n)%nat /\
      List.length fanin_part = R /\
      Forall (fun c => csense c = GE) (gate_part ++ final_part) /\
      Forall (fun c => csense c = LE) fanin_part.
Proof.
  intros Hlen Hbits R.
  exists (circuit_model n (truth_bits truth) (gate_markers gates)).
  split; [apply make_circuit_lp_done; assumption|].
  split.
  { apply length_constrs. rewrite truth_bits_length. exact Hlen. }
  exists (gate_constrs n R (gate_markers gates)),
         (final_constrs n R (gate_markers gates) (truth_bits truth)),
         (and_constrs n R), (fanin_constrs n R (gate_markers gates)).
  split; [reflexivity|].
  split.
  { unfold gate_constrs. rewrite (length_flat_map_const _ _ 2%nat) by reflexivity.
    rewrite length_product, !length_seq. lia. }
  split.
  { unfold final_constrs, enumerate.
    rewrite length_map, length_combine, length_seq, truth_bits_length, Hlen. lia. }
  split; [apply length_and_constrs|].
  split; [unfold fanin_constrs; rewrite length_map, length_seq; reflexivity|].
  split.
  - apply Forall_app. split; apply Forall_forall; intros c Hc.
    + unfold gate_constrs in Hc. apply in_flat_map in Hc.
      destruct Hc as [kj [_ Hc]]. destruct Hc as [E|[E|[]]]; subst c; reflexivity.
    + unfold final_constrs in Hc. apply in_map_iff in Hc.
      destruct Hc as [jv [E _]]. subst c. unfold final_constr.
      destruct (snd jv =? 1); reflexivity.
  - apply Forall_forall. intros c Hc. unfold fanin_constrs in Hc.
    apply in_map_iff in Hc. destruct Hc as [k [E _]]. subst c. reflexivity.
Qed.

Lemma model_size_witness :
  exists M,
    make_circuit_lp "01" "NOT NAND" None = Done "circuit.lp" M /\
    List.length (constrs M)
    = (2 * (2 - 1) * 2 ^ 1 + 2 ^ 1 + 2 * (2 - 1) * 2 ^ 1 + 2)%nat /\
    exists gate_part final_part and_part fanin_part,
      constrs M = gate_part ++ final_part ++ and_part ++ fanin_part /\
      List.length gate_part = (2 * (2 - 1) * 2 ^ 1)%nat /\
      List.length final_part = (2 ^ 1)%nat /\
      List.length and_part = (2 * (2 - 1) * 2 ^ 1)%nat /\
      List.length fanin_part = 2%nat /\
      Forall (fun c => csense c = GE) (gate_part ++ final_part) /\
      Forall (fun c => csense c = LE) fanin_part.
Proof. apply (model_size "01" "NOT NAND" None 1); reflexivity. Defined.

(** ** Working circuits are feasible assignments *)

Lemma simulate_nth (n : nat) (gates : list Z) (w : assignment) (j k i : nat) :
  (1 <= i <= k)%nat ->
  nth (i - 1) (simulate n gates w j k) 0 = gate_out n gates w j i.
Proof.
  intros Hi. unfold gate_out.
  replace k with (i + (k - i))%nat by lia. apply simulate_prefix. lia.
Qed.

Lemma gate_output_cases (g s : Z) : gate_output g s = 0 \/ gate_output g s = 1.
Proof.
  unfold gate_output. destruct (g =? 0), (s =? 0), (s <? 2); auto.
Qed.

Lemma gate_out_step (n : nat) (gates : list Z) (w : assignment) (j k : nat) :
  (1 <= k)%nat ->
  gate_out n gates w j k
  = gate_output (marker_of gates k)
                (input_val n (wiring_assignment n gates w) k j).
Proof.
  intros Hk. destruct k as [|k]; [lia|].
  unfold gate_out at 1. cbn [simulate].
  rewrite app_nth2 by (rewrite simulate_length; lia).
  rewrite simulate_length. replace (S k - 1 - k)%nat with 0%nat by lia.
  cbn [nth]. f_equal. unfold input_val. cbn [wiring_assignment]. f_equal.
  replace (S k - 1)%nat with k by lia.
  apply f_equal, map_ext_in. intros i Hi. apply in_seq_1 in Hi.
  rewrite simulate_nth by lia. reflexivity.
Qed.

Lemma gate_out_cases (n : nat) (gates : list Z) (w : assignment) (j k : nat) :
  gate_out n gates w j k = 0 \/ gate_out n gates w j k = 1.
Proof.
  destruct k as [|k]; [left; reflexivity|].
  rewrite gate_out_step by lia. apply gate_output_cases.
Qed.

Lemma fan_in_wiring (n : nat) (gates : list Z) (w : assignment) (k : nat) :
  fan_in n (wiring_assignment n gates w) k = fan_in n w k.
Proof. reflexivity. Qed.

Section Wiring.

Variables (n : nat) (truth gates : string) (w : assignment).
Hypothesis truth_length : String.length truth = (2 ^ n)%nat.
Hypothesis truth_is_bits : bit_string truth = true.
Hypothesis same_marker :
  (2 <= List.length (gate_markers gates))%nat ->
  marker_of (gate_markers gates) (List.length (gate_markers gates) - 1)
  = marker_of (gate_markers gates) (List.length (gate_markers gates)).
Hypothesis w_computes :
  computes n (truth_bits truth) (gate_markers gates) w = true.

Lemma wiring_binary (x : var) :
  allocated n (List.length (gate_markers gates)) x ->
  wiring_assignment n (gate_markers gates) w x = 0 \/
  wiring_assignment n (gate_markers gates) w x = 1.
Proof.
  intros Hx. unfold computes in w_computes.
  apply andb_true_iff in w_computes. destruct w_computes as [H12 _].
  apply andb_true_iff in H12. destruct H12 as [H1 _].
  rewrite forallb_forall in H1.
  assert (forall y, In y (List.concat (alloc_U n (List.length (gate_markers gates))) ++
                          List.concat (alloc_V (List.length (gate_markers gates)))) ->
                    w y = 0 \/ w y = 1) as Hw.
  { intros y Hy. specialize (H1 y Hy). apply orb_true_iff in H1.
    rewrite !Z.eqb_eq in H1. exact H1. }
  destruct x as [el k|i k|k j|i k j]; cbn [wiring_assignment allocated] in *.
  - apply Hw. apply in_or_app. left. apply in_alloc_U_iff. exists el, k. auto.
  - apply Hw. apply in_or_app. right. apply in_alloc_V_iff. exists i, k.
    split; [reflexivity | lia].
  - apply gate_out_cases.
  - assert (w (Var_v i k) = 0 \/ w (Var_v i k) = 1) as Hv.
    { apply Hw. apply in_or_app. right. apply in_alloc_V_iff. exists i, k.
      split; [reflexivity | lia]. }
    destruct Hv as [Hv|Hv], (gate_out_cases n (gate_markers gates) w j i) as [Hg|Hg];
      rewrite Hv, Hg; auto.
Qed.

Lemma wiring_input_bounds (k j : nat) :
  (1 <= k <= List.length (gate_markers gates))%nat -> (1 <= j <= 2 ^ n)%nat ->
  0 <= input_val n (wiring_assignment n (gate_markers gates) w) k j
  <= Z.of_nat n + Z.of_nat (k - 1).
Proof.
  intros Hk Hj.
  apply (input_val_bounds n (List.length (gate_markers gates))
           (circuit_model n (truth_bits truth) (gate_markers gates))).
  - intros x Hx. apply wiring_binary. apply in_allocate. exact Hx.
  - intros el Hel. apply in_allocate. cbn [allocated]. lia.
  - intros i Hi. apply in_allocate. cbn [allocated]. lia.
Qed.

Lemma wiring_feasible :
  feasible (wiring_assignment n (gate_markers gates) w)
           (circuit_model n (truth_bits truth) (gate_markers gates)).
Proof.
  pose proof (gate_markers_length gates) as HR.
  pose proof w_computes as Hc. unfold computes in Hc.
  apply andb_true_iff in Hc. destruct Hc as [H12 H3].
  apply andb_true_iff in H12. destruct H12 as [_ H2].
  rewrite forallb_forall in H2, H3.
  split.
  { intros x Hx. apply wiring_binary. apply in_allocate. exact Hx. }
  intros c Hc. rewrite constrs_circuit_model, !in_app_iff in Hc.
  destruct Hc as [Hc|[Hc|[Hc|Hc]]].
  - unfold gate_constrs in Hc. apply in_flat_map in Hc.
    destruct Hc as [[k j] [Hkj Hc]]. apply in_product in Hkj.
    destruct Hkj as [Hk Hj]. apply in_seq_1 in Hk, Hj. cbn [fst snd In] in Hc.
    assert (holds (wiring_assignment n (gate_markers gates) w)
                  (gate_on n (List.length (gate_markers gates))
                           (gate_markers gates) k j) /\
            holds (wiring_assignment n (gate_markers gates) w)
                  (gate_off n (List.length (gate_markers gates))
                            (gate_markers gates) k j)) as [G1 G2].
    { rewrite holds_gate_on, holds_gate_off.
      apply (gate_pair_forces _ _ _ _ (Z.of_nat n + Z.of_nat (k - 1))).
      - apply marker_of_cases.
      - apply (wiring_binary (Var_p k j)). cbn [allocated]. lia.
      - apply wiring_input_bounds; lia.
      - unfold big_A. lia.
      - unfold big_A. lia.
      - cbn [wiring_assignment]. apply gate_out_step. lia. }
    destruct Hc as [E|[E|[]]]; subst c; assumption.
  - unfold final_constrs in Hc. apply in_map_iff in Hc.
    destruct Hc as [[j0 val] [E Hin]]. subst c. cbn [fst snd].
    pose proof (in_enumerate _ _ _ Hin) as Hj0.
    rewrite truth_bits_length, truth_length in Hj0.
    assert (val = nth j0 (truth_bits truth) 0) as Hval.
    { unfold enumerate in Hin.
      assert (forall (l : list Z) a0 j v,
                 In (j, v) (combine (seq a0 (List.length l)) l) ->
                 v = nth (j - a0) l 0) as Hgen.
      { clear. induction l as [|x l IH]; intros a0 j v H; [destruct H|].
        cbn [List.length seq combine In] in H. destruct H as [E|H].
        - inversion E. subst. rewrite Nat.sub_diag. reflexivity.
        - pose proof (in_combine_l _ _ _ _ H) as Hs. apply in_seq in Hs.
          rewrite (IH _ _ _ H).
          replace (j - a0)%nat with (S (j - S a0)) by lia. reflexivity. }
      rewrite (Hgen _ _ _ _ Hin). f_equal. lia. }
    apply holds_final_constr.
    assert (marker_of (gate_markers gates)
                      (stale_k (List.length (gate_markers gates)))
            = marker_of (gate_markers gates) (List.length (gate_markers gates)))
      as Hm.
    { unfold stale_k.
      destruct (Nat.leb_spec 2 (List.length (gate_markers gates)));
        [apply same_marker; assumption | reflexivity]. }
    rewrite Hm.
    assert (In (S j0) (seq 1 (2 ^ n))) as Hjin by (apply in_seq_1; lia).
    specialize (H3 (S j0) Hjin). apply Z.eqb_eq in H3.
    replace (S j0 - 1)%nat with j0 in H3 by lia. rewrite <- Hval in H3.
    rewrite gate_out_step in H3 by lia.
    pose proof (wiring_input_bounds (List.length (gate_markers gates)) (S j0))
      as Hb.
    specialize (Hb ltac:(lia) ltac:(lia)).
    pose proof (marker_of_cases gates (List.length (gate_markers gates))) as Hg.
    revert H3. unfold gate_output.
    destruct (Z.eqb_spec val 1);
      destruct (Z.eqb_spec (marker_of (gate_markers gates)
                                      (List.length (gate_markers gates))) 0);
      destruct (Z.eqb_spec
                  (input_val n (wiring_assignment n (gate_markers gates) w)
                             (List.length (gate_markers gates)) (S j0)) 0);
      destruct (Z.ltb_spec
                  (input_val n (wiring_assignment n (gate_markers gates) w)
                             (List.length (gate_markers gates)) (S j0)) 2);
      lia.
  - unfold and_constrs in Hc. apply in_flat_map in Hc.
    destruct Hc as [[k j] [Hkj Hc]]. apply in_product in Hkj.
    destruct Hkj as [Hk Hj]. apply in_seq in Hk. apply in_seq_1 in Hj.
    apply in_flat_map in Hc. destruct Hc as [i [Hi Hc]].
    apply in_seq_1 in Hi. cbn [fst snd In] in *.
    assert (w (Var_v i k) = 0 \/ w (Var_v i k) = 1) as Hv.
    { apply (wiring_binary (Var_v i k)). cbn [allocated]. lia. }
    pose proof (gate_out_cases n (gate_markers gates) w j i) as Hg.
    destruct Hc as [E|[E|[]]]; subst c;
      rewrite ?holds_and_up, ?holds_and_down; cbn [wiring_assignment];
      destruct Hv as [Hv|Hv], Hg as [Hg|Hg]; rewrite Hv, Hg; lia.
  - unfold fanin_constrs in Hc. apply in_map_iff in Hc.
    destruct Hc as [k [E Hk]]. subst c. apply holds_fanin_constr.
    rewrite fan_in_wiring. apply Z.leb_le. apply H2. exact Hk.
Qed.

End Wiring.

(** X16. For a truth string of length [2^n] and a gate string whose last
    two gates have the same marker (or that has one gate only), every
    wiring that computes the truth table within the fan-in of the gates is
    a feasible assignment of the model, once [p.k.j] is given the output
    of gate [k] on row [j] and [r.i.k.j] that output where gate [i] feeds
    gate [k]. *)
Theorem wiring_is_feasible (truth gates : string) (filename : option string)
  (n : nat) (w : assignment) :
  String.length truth = (2 ^ n)%nat ->
  bit_string truth = true ->
  ((2 <= List.length (gate_markers gates))%nat ->
   marker_of (gate_markers gates) (List.length (gate_markers gates) - 1)
   = marker_of (gate_markers gates) (List.length (gate_markers gates))) ->
  computes n (truth_bits truth) (gate_markers gates) w = true ->
  exists M,
    make_circuit_lp truth gates filename = Done (lp_path filename) M /\
    feasible (wiring_assignment n (gate_markers gates) w) M /\
    (forall el k, wiring_assignment n (gate_markers gates) w (Var_u el k)
                  = w (Var_u el k)) /\
    (forall i k, wiring_assignment n (gate_markers gates) w (Var_v i k)
                 = w (Var_v i k)).
Proof.
  intros Hlen Hbits Hsame Hw.
  exists (circuit_model n (truth_bits truth) (gate_markers gates)).
  split; [apply make_circuit_lp_done; assumption|].
  split; [apply wiring_feasible; assumption|].
  split; reflexivity.
Qed.

Lemma wiring_is_feasible_witness :
  exists M,
    make_circuit_lp "01" "NOT NOT" None = Done "circuit.lp" M /\
    feasible (wiring_assignment 1 [0; 0] not_then_nand) M /\
    (forall el k, wiring_assignment 1 [0; 0] not_then_nand (Var_u el k)
                  = not_then_nand (Var_u el k)) /\
    (forall i k, wiring_assignment 1 [0; 0] not_then_nand (Var_v i k)
                 = not_then_nand (Var_v i k)).
Proof.
  apply (wiring_is_feasible "01" "NOT NOT" None 1 not_then_nand);
    [reflexivity | reflexivity | intros _; reflexivity | reflexivity].
Defined.

(** ** No variable twice in an expression *)

Lemma NoDup_input_vars (n k j : nat) : NoDup (input_vars n k j).
Proof.
  unfold input_vars. apply NoDup_app.
  - apply NoDup_map_NoDup_ForallPairs; [|apply NoDup_filter, seq_NoDup].
    intros el el' _ _ E. inversion E. reflexivity.
  - apply NoDup_map_seq. intros i i' E. inversion E. reflexivity.
  - intros x H1 H2. apply in_map_iff in H1, H2.
    destruct H1 as [? [E1 _]], H2 as [? [E2 _]]. congruence.
Qed.

Lemma NoDup_with_p (n k j : nat) : NoDup (input_vars n k j ++ [Var_p k j]).
Proof.
  apply NoDup_app; [apply NoDup_input_vars | repeat constructor; intros [] |].
  intros x H1 [E|[]]. subst x. apply in_input_vars in H1.
  destruct H1 as [[? E]|[? E]]; discriminate.
Qed.

Lemma NoDup_cvars_gate_off (n R : nat) (gates : list Z) (k j : nat) :
  NoDup (cvars (gate_off n R gates k j)).
Proof.
  unfold cvars, gate_off, ge. cbn [expr].
  rewrite lvars_sub, lvars_input_expr, !lvars_sub, lvars_term.
  destruct (big_A n R =? 0); cbn [lvars le_const terms map app].
  - rewrite app_nil_r. apply NoDup_input_vars.
  - apply NoDup_with_p.
Qed.

Lemma NoDup_cvars_fanin (n : nat) (gates : list Z) (k : nat) :
  NoDup (cvars (fanin_constr n gates k)).
Proof.
  rewrite cvars_fanin_constr. apply NoDup_app.
  - apply NoDup_map_seq. intros el el' E. inversion E. reflexivity.
  - apply NoDup_map_seq. intros i i' E. inversion E. reflexivity.
  - intros x H1 H2. apply in_map_iff in H1, H2.
    destruct H1 as [? [E1 _]], H2 as [? [E2 _]]. congruence.
Qed.

Lemma lvars_xsum_vars (l : list var) : lvars (xsum (map le_var l)) = l.
Proof.
  rewrite (lvars_xsum_map le_var (fun x => x)) by reflexivity. apply map_id.
Qed.

Lemma lvars_xsum_rows (rows : list (list var)) :
  lvars (xsum (map (fun row => xsum (map le_var row)) rows))
  = List.concat rows.
Proof.
  unfold xsum at 1. rewrite lvars_fold_add.
  cbn [lvars le_const terms map app].
  induction rows as [|row rows IH]; cbn [map flat_map List.concat];
    [reflexivity|].
  rewrite IH, lvars_xsum_vars. reflexivity.
Qed.

Lemma lvars_objective (n R : nat) :
  lvars (objective (allocate n R))
  = List.concat (alloc_U n R) ++ List.concat (alloc_V R).
Proof.
  unfold allocate. cbn [objective set_objective].
  rewrite lvars_add, !lvars_xsum_rows. reflexivity.
Qed.

(** X17. No expression of the model has the same variable twice: for
    every truth string of length [2^n], each constraint lists its
    variables without repetition, and so does the objective, which lists
    every [u.el.k] and then every [v.i.k].  (So no two terms were ever
    merged when the expressions were put together.) *)
Theorem expressions_without_repetition (truth gates : string)
  (filename : option string) (n : nat) :
  String.length truth = (2 ^ n)%nat ->
  bit_string truth = true ->
  let R := List.length (gate_markers gates) in
  exists M,
    make_circuit_lp truth gates filename = Done (lp_path filename) M /\
    (forall c, In c (constrs M) -> NoDup (cvars c)) /\
    lvars (objective M)
    = List.concat (alloc_U n R) ++ List.concat (alloc_V R) /\
    NoDup (lvars (objective M)).
Proof.
  intros Hlen Hbits R.
  exists (circuit_model n (truth_bits truth) (gate_markers gates)).
  split; [apply make_circuit_lp_done; assumption|].
  split; [|split].
  - intros c Hc. rewrite constrs_circuit_model, !in_app_iff in Hc.
    destruct Hc as [Hc|[Hc|[Hc|Hc]]].
    + unfold gate_constrs in Hc. apply in_flat_map in Hc.
      destruct Hc as [[k j] [_ Hc]]. cbn [fst snd In] in Hc.
      destruct Hc as [E|[E|[]]]; subst c.
      * rewrite cvars_gate_on. apply NoDup_with_p.
      * apply NoDup_cvars_gate_off.
    + unfold final_constrs in Hc. apply in_map_iff in Hc.
      destruct Hc as [jv [E _]]. subst c. rewrite cvars_final_constr.
      apply NoDup_input_vars.
    + unfold and_constrs in Hc. apply in_flat_map in Hc.
      destruct Hc as [[k j] [_ Hc]]. apply in_flat_map in Hc.
      destruct Hc as [i [_ Hc]]. cbn [fst snd In] in Hc.
      assert (cvars c = [Var_p i j; Var_v i k; Var_r i k j]) as ->
        by (destruct Hc as [E|[E|[]]]; subst c; reflexivity).
      repeat constructor; cbn [In]; intros H;
        repeat (destruct H as [H|H]; try discriminate H); exact H.
    + unfold fanin_constrs in Hc. apply in_map_iff in Hc.
      destruct Hc as [k [E _]]. subst c. apply NoDup_cvars_fanin.
  - apply lvars_objective.
  - change (objective (circuit_model n (truth_bits truth) (gate_markers gates)))
      with (objective (allocate n R)).
    rewrite lvars_objective.
    pose proof (NoDup_allocate n R) as H. rewrite vars_allocate, app_assoc in H.
    exact (NoDup_app_remove_r _ _ H).
Qed.

Lemma expressions_without_repetition_witness :
  exists M,
    make_circuit_lp "01" "NOT NAND" None = Done "circuit.lp" M /\
    (forall c, In c (constrs M) -> NoDup (cvars c)) /\
    lvars (objective M) = [Var_u 1 1; Var_u 1 2; Var_v 1 2] /\
    NoDup (lvars (objective M)).
Proof.
  apply (expressions_without_repetition "01" "NOT NAND" None 1); reflexivity.
Defined.
